(** * djmkv: the line-protocol decoder, the command runner, the drive
      controller and the MQTT publisher, embedded from the Python sources

    - [disk_driver/events.py]  : the event classes and [get_event]
    - [disk_driver/sources.py] : [Source.run_command], [Source.history_to_dict]
    - [disk_driver/drive.py]   : [Drive.run_ioctl], [Drive.is_in_state]
    - [disk_driver/cdrom.py]   : the three patterns and [load_ioctl]
    - [mqtt_wrapper.py]        : [MQTTWrapper.send_loop]
    - [ripper.py], [database.py] : the scan of a disc and the rows written

    Conventions of the embedding.  The bytes a process prints are a
    [string] of 8-bit characters, and so is the text [bytes.decode] makes
    of them: an ASCII text is its own encoding, and a text with other
    characters is carried as its UTF-8 bytes.  The string and number
    builtins are embedded as they act on ASCII text, [Str.is_ascii]: what
    [str.upper], [str.strip], [int] or [re] do with characters outside
    ASCII is not described, and the properties are those of the code on
    ASCII text.  A Python exception is a value of [Exn]; a call that
    may raise returns [Exc A].  A float read by [float(...)] is the
    rational value of the double it rounds to ([Num.round_double]); the
    quotient of two ints is carried as the exact rational that the
    division rounds, its own rounding to a double left out.  Awaited
    environment calls (the subprocess, the ioctl, the broker) are replaced
    by a script of their answers. *)

From Stdlib Require Import ZArith QArith Qabs Qround.
From Stdlib Require Import Strings.String Strings.Ascii List Lia.
From stdpp Require Import gmap strings list sorting.

Local Open Scope string_scope.
Local Open Scope Z_scope.

(** ** Exceptions *)

Module Py.

(** The exceptions the embedded code can raise.  UnicodeDecodeError is,
    in Python, a subclass of ValueError; no handler in the sources names
    either of them. *)
Inductive Exn : Type :=
| ValueError
| TypeError
| ZeroDivisionError
| OverflowError
| UnicodeDecodeError
| AttributeError
| OSError (errno : Z).

Inductive Exc (A : Type) : Type :=
| Ret (a : A)
| Raise (e : Exn).
Arguments Ret {A} a.
Arguments Raise {A} e.

Definition bind {A B : Type} (m : Exc A) (k : A -> Exc B) : Exc B :=
  match m with
  | Ret a => k a
  | Raise e => Raise e
  end.

(** [opt_or e o]: the value of a partial builtin, or the exception it raises. *)
Definition opt_or {A : Type} (e : Exn) (o : option A) : Exc A :=
  match o with
  | Some a => Ret a
  | None => Raise e
  end.

Definition raises {A : Type} (m : Exc A) : Prop := exists e, m = Raise e.

End Py.
Import Py.

#[global] Instance Exc_ret : MRet Exc := @Ret.
#[global] Instance Exc_bind : MBind Exc := fun A B k m => bind m k.
#[global] Instance Exc_fmap : FMap Exc :=
  fun A B f m => bind m (fun a => Ret (f a)).

(** ** The string builtins the sources use *)

Module Str.

(** [str.split(sep)] for a one-character separator. *)
Fixpoint split (sep : ascii) (s : string) : list string :=
  match s with
  | EmptyString => [EmptyString]
  | String c s' =>
      if Ascii.eqb c sep then EmptyString :: split sep s'
      else match split sep s' with
           | w :: ws => String c w :: ws
           | [] => [String c EmptyString]
           end
  end.

(** [str.split(sep, maxsplit=1)]: one or two pieces. *)
Fixpoint split1 (sep : ascii) (s : string) : list string :=
  match s with
  | EmptyString => [EmptyString]
  | String c s' =>
      if Ascii.eqb c sep then [EmptyString; s']
      else match split1 sep s' with
           | w :: ws => String c w :: ws
           | [] => [String c EmptyString]
           end
  end.

(** Indexing a non-empty list of pieces with [[0]] and [[-1]]. *)
Definition first (l : list string) : string := hd EmptyString l.
Definition final (l : list string) : string := List.last l EmptyString.

Fixpoint lstrip (p : ascii -> bool) (s : string) : string :=
  match s with
  | EmptyString => EmptyString
  | String c s' => if p c then lstrip p s' else s
  end.

Fixpoint rstrip (p : ascii -> bool) (s : string) : string :=
  match s with
  | EmptyString => EmptyString
  | String c s' =>
      match rstrip p s' with
      | EmptyString => if p c then EmptyString else String c EmptyString
      | r => String c r
      end
  end.

Definition strip (p : ascii -> bool) (s : string) : string :=
  rstrip p (lstrip p s).

Definition code (c : ascii) : Z := Z.of_nat (nat_of_ascii c).

(** The ASCII characters [str.strip()] removes: TAB, LF, VT, FF, CR, the
    four separators FS, GS, RS, US, and the space. *)
Definition is_space (c : ascii) : bool :=
  let n := code c in
  ((9 <=? n) && (n <=? 13)) || ((28 <=? n) && (n <=? 32)).

Definition is_quote (c : ascii) : bool := Ascii.eqb c "034"%char.

Definition is_crlf (c : ascii) : bool :=
  Ascii.eqb c "013"%char || Ascii.eqb c "010"%char.

(** [s.strip()], [s.strip(DQUOTE)] and [s.rstrip(CR LF)]. *)
Definition strip_space : string -> string := strip is_space.
Definition strip_quotes : string -> string := strip is_quote.
Definition rstrip_crlf : string -> string := rstrip is_crlf.

(** [str.upper()] and [str.lower()] on ASCII text: the letters a to z and
    A to Z change case, every other ASCII character stays. *)
Definition upper_char (c : ascii) : ascii :=
  let n := code c in
  if (97 <=? n) && (n <=? 122) then ascii_of_nat (Z.to_nat (n - 32)) else c.

Definition lower_char (c : ascii) : ascii :=
  let n := code c in
  if (65 <=? n) && (n <=? 90) then ascii_of_nat (Z.to_nat (n + 32)) else c.

Fixpoint map_chars (f : ascii -> ascii) (s : string) : string :=
  match s with
  | EmptyString => EmptyString
  | String c s' => String (f c) (map_chars f s')
  end.

Definition upper : string -> string := map_chars upper_char.
Definition lower : string -> string := map_chars lower_char.

(** [sep.join(l)]. *)
Fixpoint join (sep : string) (l : list string) : string :=
  match l with
  | [] => EmptyString
  | [w] => w
  | w :: ws => w ++ sep ++ join sep ws
  end.

(** [str.splitlines()] on ASCII text: the line boundaries are LF, CR,
    CR LF, VT, FF, FS, GS and RS; no empty last piece. *)
Definition is_linebreak (c : ascii) : bool :=
  let n := code c in
  ((10 <=? n) && (n <=? 13)) || ((28 <=? n) && (n <=? 30)).

Fixpoint splitlines_from (cur : string) (s : string) : list string :=
  match s with
  | EmptyString =>
      match cur with
      | EmptyString => []
      | _ => [cur]
      end
  | String c s' =>
      if is_linebreak c then
        match s' with
        | String d s'' =>
            if Ascii.eqb c "013"%char && Ascii.eqb d "010"%char
            then cur :: splitlines_from EmptyString s''
            else cur :: splitlines_from EmptyString s'
        | EmptyString => [cur]
        end
      else splitlines_from (cur ++ String c EmptyString) s'
  end.

Definition splitlines : string -> list string := splitlines_from EmptyString.

(** ASCII text: every character is below 128. *)
Definition is_ascii_char (c : ascii) : bool := code c <? 128.

Fixpoint is_ascii (s : string) : bool :=
  match s with
  | EmptyString => true
  | String c s' => is_ascii_char c && is_ascii s'
  end.

(** [bytes.decode("utf-8")], strict.  The well-formed byte sequences are
    those of the Unicode standard: one byte 00..7F; C2..DF and one
    continuation byte 80..BF; E0..EF and two (the first from A0 on after
    E0, up to 9F after ED); F0..F4 and three (the first from 90 on after
    F0, up to 8F after F4). *)
Definition between (lo hi : Z) (c : ascii) : bool :=
  (lo <=? code c) && (code c <=? hi).

Fixpoint valid_utf8 (s : string) : bool :=
  match s with
  | EmptyString => true
  | String c0 r0 =>
      let n := code c0 in
      if n <? 128 then valid_utf8 r0
      else if (194 <=? n) && (n <=? 223) then
        match r0 with
        | String c1 r1 => between 128 191 c1 && valid_utf8 r1
        | _ => false
        end
      else if (224 <=? n) && (n <=? 239) then
        match r0 with
        | String c1 (String c2 r2) =>
            between (if n =? 224 then 160 else 128)
                    (if n =? 237 then 159 else 191) c1
            && between 128 191 c2 && valid_utf8 r2
        | _ => false
        end
      else if (240 <=? n) && (n <=? 244) then
        match r0 with
        | String c1 (String c2 (String c3 r3)) =>
            between (if n =? 240 then 144 else 128)
                    (if n =? 244 then 143 else 191) c1
            && between 128 191 c2 && between 128 191 c3 && valid_utf8 r3
        | _ => false
        end
      else false
  end.

(** The decoded text (carried as the same bytes), or UnicodeDecodeError. *)
Definition decode_utf8 (bytes : string) : Exc string :=
  if valid_utf8 bytes then Ret bytes else Raise UnicodeDecodeError.

End Str.

(** ** The number builtins: [int(text)], [float(text)], [datetime.timedelta] *)

Module Num.

Definition is_digit (c : ascii) : bool :=
  let n := Str.code c in (48 <=? n) && (n <=? 57).
Definition digit (c : ascii) : Z := Str.code c - 48.
Definition is_underscore (c : ascii) : bool := Ascii.eqb c "_"%char.

(** The whole text is [digit (["_"] digit)*]: its value and its number of
    digits. *)
Fixpoint digits_all (acc count : Z) (after_digit : bool) (s : string)
  : option (Z * Z) :=
  match s with
  | EmptyString => if after_digit then Some (acc, count) else None
  | String c s' =>
      if is_digit c then digits_all (10 * acc + digit c) (count + 1) true s'
      else if is_underscore c && after_digit then digits_all acc count false s'
      else None
  end.

(** The interpreter's default limit on the digits of a decimal literal
    ([sys.get_int_max_str_digits()]). *)
Definition MAX_STR_DIGITS : Z := 4300.

Definition unsigned_int (s : string) : option Z :=
  match digits_all 0 0 false s with
  | Some (v, n) => if MAX_STR_DIGITS <? n then None else Some v
  | None => None
  end.

(** The characters [int] and [float] skip around the number: TAB, LF, VT,
    FF, CR and the space (not the separators FS to US that [str.strip]
    removes). *)
Definition is_int_space (c : ascii) : bool :=
  let n := Str.code c in
  ((9 <=? n) && (n <=? 13)) || (n =? 32).

(** [int(s)], base ten, on ASCII text: surrounding white space, one
    optional sign, digits with single underscores between them; anything
    else is a ValueError, and so is a number of more than
    [MAX_STR_DIGITS] digits. *)
Definition int (s : string) : Exc Z :=
  opt_or ValueError
    match Str.strip is_int_space s with
    | String "+" r => unsigned_int r
    | String "-" r => Z.opp <$> unsigned_int r
    | t => unsigned_int t
    end.

Inductive Float : Type :=
| Finite (q : Q)
| Inf (negative : bool)
| NaN.

(** The longest prefix [digit (["_"] digit)*] (possibly empty): its value,
    its number of digits, and the rest of the text. *)
Fixpoint digit_run (acc : Z) (count : nat) (s : string) : Z * nat * string :=
  match s with
  | EmptyString => (acc, count, s)
  | String c s' =>
      if is_digit c then digit_run (10 * acc + digit c) (S count) s'
      else if is_underscore c && negb (Nat.eqb count 0) then
        match s' with
        | String d s'' =>
            if is_digit d then digit_run (10 * acc + digit d) (S count) s''
            else (acc, count, s)
        | EmptyString => (acc, count, s)
        end
      else (acc, count, s)
  end.

Definition pow10 (n : Z) : Q := Qpower (inject_Z 10) n.

(** [[digitpart] "." digitpart | digitpart ["."]], then an optional
    exponent [("e" | "E") ["+" | "-"] digitpart]. *)
Definition float_literal (t : string) : option Q :=
  let '(ip, ni, r1) := digit_run 0 0 t in
  let '(fp, nf, r2) :=
    match r1 with
    | String "." r => digit_run 0 0 r
    | _ => (0, 0%nat, r1)
    end in
  if Nat.eqb (ni + nf) 0 then None
  else
    let mantissa := (inject_Z ip + inject_Z fp * pow10 (- Z.of_nat nf))%Q in
    match r2 with
    | EmptyString => Some mantissa
    | String e r3 =>
        if Ascii.eqb e "e"%char || Ascii.eqb e "E"%char then
          let '(negative, r4) :=
            match r3 with
            | String "+" r => (false, r)
            | String "-" r => (true, r)
            | _ => (false, r3)
            end in
          match digit_run 0 0 r4 with
          | (ev, S _, EmptyString) =>
              Some (mantissa * pow10 (if negative then - ev else ev))%Q
          | _ => None
          end
        else None
    end.

(** *** Rounding to a double *)

Definition pow2 (n : Z) : Q := Qpower (inject_Z 2) n.

(** The exponent of a positive rational: [2^e <= q < 2^(e+1)]. *)
Definition floor_log2 (q : Q) : Z :=
  let l := Z.log2 (Qnum q) - Z.log2 (Z.pos (Qden q)) in
  if Qle_bool (pow2 l) q then l else l - 1.

(** The nearest integer, a tie going to the even one. *)
Definition round_half_even (q : Q) : Z :=
  let f := Qfloor q in
  match Qcompare (q - inject_Z f) (1 # 2) with
  | Lt => f
  | Gt => f + 1
  | Eq => if Z.even f then f else f + 1
  end.

(** The double nearest to [q] (IEEE 754 binary64, round to nearest, ties
    to even): 53 bits from the leading one, the last place no finer than
    [2^-1074]; from [2^1024] on the result is an infinity. *)
Definition round_double (q : Q) : Float :=
  if Qeq_bool q 0 then Finite 0
  else
    let a := Qabs q in
    let ulp := pow2 (Z.max (floor_log2 a - 52) (-1074)) in
    let r := (inject_Z (round_half_even (a / ulp)) * ulp)%Q in
    let negative := negb (Qle_bool 0 q) in
    if Qle_bool (pow2 1024) r then Inf negative
    else Finite (Qred (if negative then - r else r)).

(** [float(s)] on ASCII text: the double nearest to the number written,
    an infinity or a NaN by name; anything else is a ValueError. *)
Definition float (s : string) : Exc Float :=
  let t := Str.strip is_int_space s in
  let '(negative, u) :=
    match t with
    | String "+" r => (false, r)
    | String "-" r => (true, r)
    | _ => (false, t)
    end in
  let l := Str.lower u in
  if String.eqb l "inf" || String.eqb l "infinity" then Ret (Inf negative)
  else if String.eqb l "nan" then Ret NaN
  else match float_literal u with
       | Some q => Ret (round_double (if negative then - q else q))
       | None => Raise ValueError
       end.

(** [datetime.timedelta(hours=h, minutes=m, seconds=s)] for two ints and
    a float, as the total number of seconds.  A timedelta counts whole
    microseconds: the whole seconds of [s] are taken exactly, its
    fractional part is multiplied by a million as a double and rounded to
    the nearest microsecond (a tie to the even one); the magnitude of the
    whole days is at most 999999999. *)
Definition MAX_DELTA_DAYS : Z := 999999999.
Definition US_PER_SECOND : Z := 1000000.

(** The whole part of a double, towards zero ([modf]). *)
Definition truncate (q : Q) : Z :=
  if Qle_bool 0 q then Qfloor q else Qceiling q.

Definition fraction_microseconds (fracpart : Q) : Z :=
  match round_double (inject_Z US_PER_SECOND * fracpart) with
  | Finite dnum => round_half_even dnum
  | _ => 0
  end.

Definition delta_microseconds (hours minutes : Z) (s : Q) : Z :=
  let intpart := truncate s in
  let fracpart := (s - inject_Z intpart)%Q in
  (hours * 3600 + minutes * 60 + intpart) * US_PER_SECOND
  + fraction_microseconds fracpart.

Definition in_delta_range (microseconds : Z) : bool :=
  let days := microseconds / (86400 * US_PER_SECOND) in
  (- MAX_DELTA_DAYS <=? days) && (days <=? MAX_DELTA_DAYS).

Definition timedelta (hours minutes : Z) (seconds : Float) : Exc Q :=
  match seconds with
  | NaN => Raise ValueError
  | Inf _ => Raise OverflowError
  | Finite s =>
      let microseconds := delta_microseconds hours minutes s in
      if in_delta_range microseconds
      then Ret (Qred (inject_Z microseconds / inject_Z US_PER_SECOND))
      else Raise OverflowError
  end.

(** [a / b] on two ints: ZeroDivisionError for [b = 0]; else the
    quotient, unless it is too large for a float (from 2^1024 - 2^970 on
    it rounds beyond the largest float), which is an OverflowError.  The
    result is the exact quotient: the double that Python stores is the
    one nearest to it. *)
Definition FLOAT_OVERFLOW : Z := 2 ^ 1024 - 2 ^ 970.

Definition truediv (a b : Z) : Exc Q :=
  if b =? 0 then Raise ZeroDivisionError
  else
    let q := Qred (inject_Z a / inject_Z b) in
    if Qle_bool (inject_Z FLOAT_OVERFLOW) (Qabs q) then Raise OverflowError
    else Ret q.

End Num.

(** ** events.py *)

Module Events.

Inductive ItemAttribute : Type :=
  | Unknown | Type_ | Name | LangCode | LangName | CodecId | CodecShort
  | CodecLong | ChapterCount | Duration | DiskSize | DiskSizeBytes
  | StreamTypeExtension | Bitrate | AudioChannelsCount | AngleInfo
  | SourceFileName | AudioSampleRate | AudioSampleSize | VideoSize
  | VideoAspectRatio | VideoFrameRate | StreamFlags | DateTime
  | OriginalTitleId | SegmentsCount | SegmentsMap | OutputFileName
  | MetadataLanguageCode | MetadataLanguageName | TreeInfo | PanelTitle
  | VolumeName | OrderWeight | OutputFormat | OutputFormatDescription
  | SeamlessInfo | PanelText | MkvFlags | MkvFlagsText
  | AudioChannelLayoutName | OutputCodecShort | OutputConversionType
  | OutputAudioSampleRate | OutputAudioSampleSize | OutputAudioChannelsCount
  | OutputAudioChannelLayoutName | OutputAudioChannelLayout
  | OutputAudioMixDescription | Comment | OffsetSequenceId.

(** The enumeration's values, [ItemAttribute(n)] and [.name]. *)
Definition ItemAttribute_value (a : ItemAttribute) : Z :=
  match a with
  | Unknown => 0 | Type_ => 1 | Name => 2 | LangCode => 3 | LangName => 4
  | CodecId => 5 | CodecShort => 6 | CodecLong => 7 | ChapterCount => 8
  | Duration => 9 | DiskSize => 10 | DiskSizeBytes => 11
  | StreamTypeExtension => 12 | Bitrate => 13 | AudioChannelsCount => 14
  | AngleInfo => 15 | SourceFileName => 16 | AudioSampleRate => 17
  | AudioSampleSize => 18 | VideoSize => 19 | VideoAspectRatio => 20
  | VideoFrameRate => 21 | StreamFlags => 22 | DateTime => 23
  | OriginalTitleId => 24 | SegmentsCount => 25 | SegmentsMap => 26
  | OutputFileName => 27 | MetadataLanguageCode => 28
  | MetadataLanguageName => 29 | TreeInfo => 30 | PanelTitle => 31
  | VolumeName => 32 | OrderWeight => 33 | OutputFormat => 34
  | OutputFormatDescription => 35 | SeamlessInfo => 36 | PanelText => 37
  | MkvFlags => 38 | MkvFlagsText => 39 | AudioChannelLayoutName => 40
  | OutputCodecShort => 41 | OutputConversionType => 42
  | OutputAudioSampleRate => 43 | OutputAudioSampleSize => 44
  | OutputAudioChannelsCount => 45 | OutputAudioChannelLayoutName => 46
  | OutputAudioChannelLayout => 47 | OutputAudioMixDescription => 48
  | Comment => 49 | OffsetSequenceId => 50
  end.

Definition ItemAttribute_of_value (n : Z) : option ItemAttribute :=
  match n with
  | 0 => Some Unknown | 1 => Some Type_ | 2 => Some Name | 3 => Some LangCode
  | 4 => Some LangName | 5 => Some CodecId | 6 => Some CodecShort
  | 7 => Some CodecLong | 8 => Some ChapterCount | 9 => Some Duration
  | 10 => Some DiskSize | 11 => Some DiskSizeBytes
  | 12 => Some StreamTypeExtension | 13 => Some Bitrate
  | 14 => Some AudioChannelsCount | 15 => Some AngleInfo
  | 16 => Some SourceFileName | 17 => Some AudioSampleRate
  | 18 => Some AudioSampleSize | 19 => Some VideoSize
  | 20 => Some VideoAspectRatio | 21 => Some VideoFrameRate
  | 22 => Some StreamFlags | 23 => Some DateTime | 24 => Some OriginalTitleId
  | 25 => Some SegmentsCount | 26 => Some SegmentsMap
  | 27 => Some OutputFileName | 28 => Some MetadataLanguageCode
  | 29 => Some MetadataLanguageName | 30 => Some TreeInfo
  | 31 => Some PanelTitle | 32 => Some VolumeName | 33 => Some OrderWeight
  | 34 => Some OutputFormat | 35 => Some OutputFormatDescription
  | 36 => Some SeamlessInfo | 37 => Some PanelText | 38 => Some MkvFlags
  | 39 => Some MkvFlagsText | 40 => Some AudioChannelLayoutName
  | 41 => Some OutputCodecShort | 42 => Some OutputConversionType
  | 43 => Some OutputAudioSampleRate | 44 => Some OutputAudioSampleSize
  | 45 => Some OutputAudioChannelsCount
  | 46 => Some OutputAudioChannelLayoutName
  | 47 => Some OutputAudioChannelLayout
  | 48 => Some OutputAudioMixDescription | 49 => Some Comment
  | 50 => Some OffsetSequenceId
  | _ => None
  end.

Definition ItemAttribute_name (a : ItemAttribute) : string :=
  match a with
  | Unknown => "Unknown" | Type_ => "Type" | Name => "Name"
  | LangCode => "LangCode" | LangName => "LangName" | CodecId => "CodecId"
  | CodecShort => "CodecShort" | CodecLong => "CodecLong"
  | ChapterCount => "ChapterCount" | Duration => "Duration"
  | DiskSize => "DiskSize" | DiskSizeBytes => "DiskSizeBytes"
  | StreamTypeExtension => "StreamTypeExtension" | Bitrate => "Bitrate"
  | AudioChannelsCount => "AudioChannelsCount" | AngleInfo => "AngleInfo"
  | SourceFileName => "SourceFileName" | AudioSampleRate => "AudioSampleRate"
  | AudioSampleSize => "AudioSampleSize" | VideoSize => "VideoSize"
  | VideoAspectRatio => "VideoAspectRatio"
  | VideoFrameRate => "VideoFrameRate" | StreamFlags => "StreamFlags"
  | DateTime => "DateTime" | OriginalTitleId => "OriginalTitleId"
  | SegmentsCount => "SegmentsCount" | SegmentsMap => "SegmentsMap"
  | OutputFileName => "OutputFileName"
  | MetadataLanguageCode => "MetadataLanguageCode"
  | MetadataLanguageName => "MetadataLanguageName" | TreeInfo => "TreeInfo"
  | PanelTitle => "PanelTitle" | VolumeName => "VolumeName"
  | OrderWeight => "OrderWeight" | OutputFormat => "OutputFormat"
  | OutputFormatDescription => "OutputFormatDescription"
  | SeamlessInfo => "SeamlessInfo" | PanelText => "PanelText"
  | MkvFlags => "MkvFlags" | MkvFlagsText => "MkvFlagsText"
  | AudioChannelLayoutName => "AudioChannelLayoutName"
  | OutputCodecShort => "OutputCodecShort"
  | OutputConversionType => "OutputConversionType"
  | OutputAudioSampleRate => "OutputAudioSampleRate"
  | OutputAudioSampleSize => "OutputAudioSampleSize"
  | OutputAudioChannelsCount => "OutputAudioChannelsCount"
  | OutputAudioChannelLayoutName => "OutputAudioChannelLayoutName"
  | OutputAudioChannelLayout => "OutputAudioChannelLayout"
  | OutputAudioMixDescription => "OutputAudioMixDescription"
  | Comment => "Comment" | OffsetSequenceId => "OffsetSequenceId"
  end.

(** The value of an info event: an int, a [timedelta] (total seconds) or
    the raw text. *)
Inductive Value : Type :=
| VInt (n : Z)
| VDuration (seconds : Q)
| VStr (s : string).

(** The fields [InfoEvent.__init__] sets.  [item_id] and [item_name] are
    both read off the enumeration member. *)
Record InfoEvent : Type := mkInfo {
  attribute : ItemAttribute;
  code : Z;
  values : list string;
  raw_value : string;
  value : Value
}.

Definition item_id (i : InfoEvent) : Z := ItemAttribute_value (attribute i).
Definition item_name (i : InfoEvent) : string :=
  ItemAttribute_name (attribute i).

(** One constructor per event class; the three info classes are siblings
    below [InfoEvent]. *)
Inductive Event : Type :=
| UnknownEvent (parameters : list string)
| StartEvent (command_number : Z)
| StopEvent (command_number : Z)
| MessageEvent (code flags count message format_code : string)
    (parameters : list string)
| ProgressCurrentEvent (code operation_id name : string)
| ProgressTotalEvent (code operation_id name : string)
| ProgressValueEvent (current total limit : Z)
    (current_fraction total_fraction : Q)
| DriveScanEvent
    (index visible enabled flags drive_name disc_name unknown_string : string)
| TitleCountEvent (count : string)
| DiscInfoEvent (info : InfoEvent)
| TitleInfoEvent (info : InfoEvent) (title_number : Z)
| StreamInfoEvent (info : InfoEvent) (title_number stream_number : Z).

(** *** The [__init__] of each class, applied to the unpacked fields
    [cls( *raw_params)]: a wrong number of fields is a TypeError. *)

Definition UnknownEvent_init (params : list string) : Exc Event :=
  Ret (UnknownEvent params).

Definition MessageEvent_init (params : list string) : Exc Event :=
  match params with
  | code :: flags :: count :: message :: format_code :: parameters =>
      Ret (MessageEvent code flags count
             (Str.strip_quotes message) (Str.strip_quotes format_code)
             (Str.strip_quotes <$> parameters))
  | _ => Raise TypeError
  end.

Definition ProgressCurrentEvent_init (params : list string) : Exc Event :=
  match params with
  | [code; operation_id; name] =>
      Ret (ProgressCurrentEvent code operation_id (Str.strip_quotes name))
  | _ => Raise TypeError
  end.

Definition ProgressTotalEvent_init (params : list string) : Exc Event :=
  match params with
  | [code; operation_id; name] =>
      Ret (ProgressTotalEvent code operation_id (Str.strip_quotes name))
  | _ => Raise TypeError
  end.

Definition ProgressValueEvent_init (params : list string) : Exc Event :=
  match params with
  | [current; total; limit] =>
      current ← Num.int current;
      total ← Num.int total;
      limit ← Num.int limit;
      current_fraction ← Num.truediv current limit;
      total_fraction ← Num.truediv total limit;
      Ret (ProgressValueEvent current total limit
             current_fraction total_fraction)
  | _ => Raise TypeError
  end.

Definition DriveScanEvent_init (params : list string) : Exc Event :=
  match params with
  | [index; visible; enabled; flags; drive_name; disc_name; unknown_string] =>
      Ret (DriveScanEvent index visible enabled flags
             drive_name disc_name unknown_string)
  | _ => Raise TypeError
  end.

Definition TitleCountEvent_init (params : list string) : Exc Event :=
  match params with
  | [count] => Ret (TitleCountEvent count)
  | _ => Raise TypeError
  end.

(** The attributes whose value is parsed as an int. *)
Definition int_valued (a : ItemAttribute) : bool :=
  match a with
  | OrderWeight | SegmentsCount | DiskSizeBytes | AudioChannelsCount
  | AudioSampleRate | AudioSampleSize | StreamFlags | ChapterCount => true
  | _ => false
  end.

(** [hours, minutes, seconds = raw_value.split(":")] and the three
    conversions. *)
Definition duration_value (raw_value : string) : Exc Value :=
  match Str.split ":" raw_value with
  | [hours; minutes; seconds] =>
      hours ← Num.int hours;
      minutes ← Num.int minutes;
      seconds ← Num.float seconds;
      d ← Num.timedelta hours minutes seconds;
      Ret (VDuration d)
  | _ => Raise ValueError
  end.

Definition coerce_value (a : ItemAttribute) (raw_value : string) : Exc Value :=
  if int_valued a then n ← Num.int raw_value; Ret (VInt n)
  else match a with
       | Duration => duration_value raw_value
       | _ => Ret (VStr raw_value)
       end.

Definition InfoEvent_init (item_id code : string) (values : list string)
  : Exc InfoEvent :=
  item_id ← Num.int item_id;
  a ← opt_or ValueError (ItemAttribute_of_value item_id);
  code ← Num.int code;
  let values := Str.strip_quotes <$> values in
  let raw_value := Str.strip_quotes (Str.join "," values) in
  value ← coerce_value a raw_value;
  Ret (mkInfo a code values raw_value value).

Definition DiscInfoEvent_init (params : list string) : Exc Event :=
  match params with
  | item_id :: code :: values =>
      i ← InfoEvent_init item_id code values;
      Ret (DiscInfoEvent i)
  | _ => Raise TypeError
  end.

Definition TitleInfoEvent_init (params : list string) : Exc Event :=
  match params with
  | title_number :: item_id :: code :: values =>
      i ← InfoEvent_init item_id code values;
      title_number ← Num.int title_number;
      Ret (TitleInfoEvent i title_number)
  | _ => Raise TypeError
  end.

Definition StreamInfoEvent_init (params : list string) : Exc Event :=
  match params with
  | title_number :: stream_number :: item_id :: code :: values =>
      i ← InfoEvent_init item_id code values;
      title_number ← Num.int title_number;
      stream_number ← Num.int stream_number;
      Ret (StreamInfoEvent i title_number stream_number)
  | _ => Raise TypeError
  end.

(** [BaseEvent.parse]: drop what precedes the first colon, split the rest
    at the commas, call the class on the pieces. *)
Definition raw_params (raw_string : string) : list string :=
  Str.split "," (Str.final (Str.split1 ":" raw_string)).

Definition parse (cls : list string -> Exc Event) (raw_string : string)
  : Exc Event :=
  cls (raw_params raw_string).

Definition message_type (raw_string : string) : string :=
  Str.strip_space (Str.upper (Str.first (Str.split1 ":" raw_string))).

(** [get_event]: [Ret None] is Python's [None]. *)
Definition get_event (raw_string : string) : Exc (option Event) :=
  let message_type := message_type raw_string in
  if String.eqb message_type "MSG" then
    Some <$> parse MessageEvent_init raw_string
  else if String.eqb message_type "PRGC" then
    Some <$> parse ProgressCurrentEvent_init raw_string
  else if String.eqb message_type "PRGT" then
    Some <$> parse ProgressTotalEvent_init raw_string
  else if String.eqb message_type "PRGV" then
    Some <$> parse ProgressValueEvent_init raw_string
  else if String.eqb message_type "DRV" then
    Some <$> parse DriveScanEvent_init raw_string
  else if String.eqb message_type "TCOUT" then
    Some <$> parse TitleCountEvent_init raw_string
  else if String.eqb message_type "CINFO" then
    Some <$> parse DiscInfoEvent_init raw_string
  else if String.eqb message_type "TINFO" then
    Some <$> parse TitleInfoEvent_init raw_string
  else if String.eqb message_type "SINFO" then
    Some <$> parse StreamInfoEvent_init raw_string
  else if (String.length (Str.strip_space raw_string) <=? 0)%nat then
    Ret None
  else
    Some <$> parse UnknownEvent_init raw_string.

End Events.

(** ** sources.py *)

Module Sources.
Import Events.
Local Open Scope list_scope.

Definition PROGRAM : string := "makemkvcon".
Definition DEFAULT_ARGS : list string :=
  ["-r"; "--messages=-stdout"; "--progress=-stdout"; "--minlength=0"].

(** A history, and the content of the event queue, is a Python list of
    whatever was appended: an event object or [None]. *)
Definition Item : Type := option Event.

(** The state of a [Source] that [run_command] touches.  [event_queue] is
    the sequence of everything put on the (unbounded) queue so far. *)
Record Source : Type := mkSource {
  source_type : string;
  source_string : string;
  command_counter : Z;
  event_queue : list Item
}.

Definition source_id (self : Source) : string :=
  (source_type self ++ ":" ++ source_string self)%string.

(** What the subprocess answers.  While [returncode is None] each
    [readline] under [wait_for(..., timeout=1.0)] either times out or
    returns a line; [communicate()] then returns the output still
    buffered.  A timeout is the TimeoutError that the loop catches (the
    builtin exception, which is what [wait_for] raises from Python 3.11
    on). *)
Inductive Read : Type :=
| ReadTimeout
| ReadLine (byte_line : string).

Record Process : Type := mkProcess {
  reads : list Read;
  remaining : string
}.

(** [create_subprocess_exec(PROGRAM, *args, ...)]: a process, or the
    OSError of a failed spawn. *)
Definition Spawn : Type := list string -> Exc Process.

(** [await self.event_queue.put(event); history.append(event)]. *)
Definition emit (event : Item) (st : Source * list Item) : Source * list Item :=
  let '(self, history) := st in
  (mkSource (source_type self) (source_string self) (command_counter self)
     (event_queue self ++ [event]),
   history ++ [event]).

(** [line = byte_line.decode("utf-8")], [line = line.rstrip(CR LF)] and
    [events.get_event(line)]: what one line read gives. *)
Definition line_event (byte_line : string) : Exc (option Event) :=
  line ← Str.decode_utf8 byte_line;
  get_event (Str.rstrip_crlf line).

(** The [while self.process.returncode is None] loop.  The result carries
    the exception that left the loop, if one did: the UnicodeDecodeError
    of the decoding, or what [get_event] raises. *)
Fixpoint read_loop (rs : list Read) (st : Source * list Item)
  : Source * list Item * option Exn :=
  match rs with
  | [] => (st, None)
  | ReadTimeout :: rs' => read_loop rs' st
  | ReadLine byte_line :: rs' =>
      match line_event byte_line with
      | Raise e => (st, Some e)
      | Ret None => read_loop rs' st
      | Ret (Some event) => read_loop rs' (emit (Some event) st)
      end
  end.

(** The body of [for line in stdout.decode("utf-8").splitlines()], over
    the lines of the decoded text. *)
Fixpoint drain (lines : list string) (st : Source * list Item)
  : Source * list Item * option Exn :=
  match lines with
  | [] => (st, None)
  | line :: lines' =>
      let line := Str.rstrip_crlf line in
      match get_event line with
      | Raise e => (st, Some e)
      | Ret event => drain lines' (emit event st)
      end
  end.

(** [Source.run_command].  The lock is held for the whole body and is
    released on every exit.  With [wait_for_queue] (the default) the call
    ends in [await self.event_queue.join()], which returns once a consumer
    has taken every item off the queue and marked it done: [Ret] is the
    return of a call whose queue is consumed, and the queue and the
    history are what they are when the join is reached. *)
Definition run_command (os : Spawn) (args : list string) (self : Source)
  : Source * Exc (Z * list Item) :=
  let command_number := command_counter self in
  let self := mkSource (source_type self) (source_string self)
                (command_counter self + 1) (event_queue self) in
  let st := emit (Some (StartEvent command_number)) (self, []) in
  match os (PROGRAM :: args) with
  | Raise e => (st.1, Raise e)
  | Ret process =>
      match read_loop (reads process) st with
      | (st, Some e) => (st.1, Raise e)
      | (st, None) =>
          match Str.decode_utf8 (remaining process) with
          | Raise e => (st.1, Raise e)
          | Ret stdout =>
              match drain (Str.splitlines stdout) st with
              | (st, Some e) => (st.1, Raise e)
              | (st, None) =>
                  let st := emit (Some (StopEvent command_number)) st in
                  (st.1, Ret (command_number, st.2))
              end
          end
      end
  end.

Definition run_info (os : Spawn) (self : Source)
  : Source * Exc (Z * list Item) :=
  run_command os (DEFAULT_ARGS ++ ["info"; source_id self]) self.

(** *** [history_to_dict] *)

(** The working dictionaries: attribute name to value, with the titles
    (and each title's streams) keyed by number under [Titles] (and
    [Streams]). *)
Record Title : Type := mkTitle {
  title_attrs : gmap string Value;
  title_streams : gmap Z (gmap string Value)
}.

Record Info : Type := mkInfoDict {
  info_attrs : gmap string Value;
  info_titles : gmap Z Title
}.

(** [{"Streams": {}}] and [{"Titles": {}}]. *)
Definition new_title : Title := mkTitle ∅ ∅.
Definition new_info : Info := mkInfoDict ∅ ∅.

#[global] Instance Title_inhabited : Inhabited Title := populate new_title.

(** One turn of the [for event in history] loop. *)
Definition absorb (info : Info) (event : Item) : Info :=
  match event with
  | Some (DiscInfoEvent i) =>
      mkInfoDict (<[item_name i := value i]> (info_attrs info))
        (info_titles info)
  | Some (TitleInfoEvent i title_number) =>
      let title := default new_title (info_titles info !! title_number) in
      let title := mkTitle (<[item_name i := value i]> (title_attrs title))
                     (title_streams title) in
      mkInfoDict (info_attrs info)
        (<[title_number := title]> (info_titles info))
  | Some (StreamInfoEvent i title_number stream_number) =>
      let title := default new_title (info_titles info !! title_number) in
      let stream := default ∅ (title_streams title !! stream_number) in
      let stream := <[item_name i := value i]> stream in
      let title := mkTitle (title_attrs title)
                     (<[stream_number := stream]> (title_streams title)) in
      mkInfoDict (info_attrs info)
        (<[title_number := title]> (info_titles info))
  | _ => info
  end.

(** [sorted(d.keys())] on int keys. *)
Definition sorted_keys {V : Type} (d : gmap Z V) : list Z :=
  merge_sort Z.le (elements (dom d)).

(** The returned structure: [Titles] and [Streams] are now lists. *)
Record TitleDict : Type := mkTitleDict {
  attrs_of_title : gmap string Value;
  Streams : list (gmap string Value)
}.

Record InfoDict : Type := mkResult {
  attrs : gmap string Value;
  Titles : list TitleDict
}.

Definition title_to_lists (title : Title) : TitleDict :=
  mkTitleDict (title_attrs title)
    ((fun s_index => title_streams title !!! s_index)
       <$> sorted_keys (title_streams title)).

Definition history_to_dict (history : list Item) : InfoDict :=
  let info := foldl absorb new_info history in
  mkResult (info_attrs info)
    ((fun t_index => title_to_lists (info_titles info !!! t_index))
       <$> sorted_keys (info_titles info)).

(** [Source.get_info]: the dictionary of the history of [run_info]. *)
Definition get_info (os : Spawn) (self : Source) : Source * Exc InfoDict :=
  match run_info os self with
  | (self, Ret (command_number, history)) =>
      (self, Ret (history_to_dict history))
  | (self, Raise e) => (self, Raise e)
  end.

(** The subclasses: a fresh source of each type, with its counter at 0
    and nothing on its queue. *)
Definition Device (path : string) : Source := mkSource "dev" path 0 [].
Definition Iso (path : string) : Source := mkSource "iso" path 0 [].
Definition File (path : string) : Source := mkSource "file" path 0 [].
Definition Disc (disc_id : string) : Source := mkSource "disc" disc_id 0 [].

End Sources.

(** ** cdrom.py and drive.py *)

Module Cdrom.

(** The built-in fallback table. *)
Definition CDROMEJECT : Z := 21257.
Definition CDROMCLOSETRAY : Z := 21273.
Definition CDROM_DRIVE_STATUS : Z := 21286.
Definition CDROM_DISC_STATUS : Z := 21287.
Definition CDROM_LOCKDOOR : Z := 21289.
Definition CDS_NO_INFO : Z := 0.
Definition CDS_NO_DISC : Z := 1.
Definition CDS_TRAY_OPEN : Z := 2.
Definition CDS_DRIVE_NOT_READY : Z := 3.
Definition CDS_DISC_OK : Z := 4.

End Cdrom.

Module Drive.
Local Open Scope list_scope.

Definition DEFAULT_POLLING_PERIOD : Q := 1 # 2.

(** [errno.EBUSY]. *)
Definition EBUSY : Z := 16.

(** The delay of the retry, [asyncio.sleep(0.1)], in seconds. *)
Definition BUSY_DELAY : Q := 1 # 10.

(** The device answers each system call made on it, [os.open] or
    [fcntl.ioctl], in turn: the value returned, or the errno of the
    OSError raised.  [cursor] counts the calls made so far. *)
Inductive Answer : Type :=
| Returns (result : Z)
| Fails (errno : Z).

Definition Device : Type := nat -> Answer.

(** What [run_ioctl] does, in order. *)
Inductive Effect : Type :=
| Open
| Ioctl (fd request arg : Z)
| Sleep (seconds : Q)
| Close (fd : Z).

(** The outcome of a call: the value or exception, the device's cursor
    afterwards, and the effects performed. *)
Definition Outcome (A : Type) : Type := Exc A * nat * list Effect.

(** The [while True] loop of [run_ioctl].  [None]: the loop is still
    retrying after [fuel] turns. *)
Fixpoint ioctl_loop (fuel : nat) (dev : Device) (cursor : nat)
    (fd request arg : Z) (done : list Effect) : option (Outcome Z) :=
  match fuel with
  | O => None
  | S fuel' =>
      match dev cursor with
      | Returns result =>
          Some (Ret result, S cursor, done ++ [Ioctl fd request arg; Close fd])
      | Fails errno =>
          if errno =? EBUSY then
            ioctl_loop fuel' dev (S cursor) fd request arg
              (done ++ [Ioctl fd request arg; Sleep BUSY_DELAY])
          else
            Some (Raise (OSError errno), S cursor,
                  done ++ [Ioctl fd request arg])
      end
  end.

(** [Drive.run_ioctl]: [os.open] stands before the loop and outside its
    [try]. *)
Definition run_ioctl (fuel : nat) (dev : Device) (cursor : nat)
    (request arg : Z) : option (Outcome Z) :=
  match dev cursor with
  | Fails errno => Some (Raise (OSError errno), S cursor, [Open])
  | Returns fd => ioctl_loop fuel dev (S cursor) fd request arg [Open]
  end.

Definition get_status (fuel : nat) (dev : Device) (cursor : nat)
  : option (Outcome Z) :=
  run_ioctl fuel dev cursor Cdrom.CDROM_DRIVE_STATUS 0.

Definition set_door_lock (fuel : nat) (dev : Device) (cursor : nat)
    (locked : bool) : option (Outcome Z) :=
  let locked := if locked then 1 else 0 in
  run_ioctl fuel dev cursor Cdrom.CDROM_LOCKDOOR locked.

Definition lock_door (fuel : nat) (dev : Device) (cursor : nat) :=
  set_door_lock fuel dev cursor true.

Definition unlock_door (fuel : nat) (dev : Device) (cursor : nat) :=
  set_door_lock fuel dev cursor false.

Definition close_tray (fuel : nat) (dev : Device) (cursor : nat)
  : option (Outcome Z) :=
  run_ioctl fuel dev cursor Cdrom.CDROMCLOSETRAY 0.

Definition open_tray (fuel : nat) (dev : Device) (cursor : nat)
  : option (Outcome Z) :=
  match unlock_door fuel dev cursor with
  | None => None
  | Some (Raise e, cursor, done) => Some (Raise e, cursor, done)
  | Some (Ret _, cursor, done) =>
      match run_ioctl fuel dev cursor Cdrom.CDROMEJECT 0 with
      | None => None
      | Some (r, cursor, done') => Some (r, cursor, done ++ done')
      end
  end.

(** The [states] argument of [is_in_state]: a set, or one bare status. *)
Inductive States : Type :=
| Bare (status : Z)
| SetOf (statuses : gset Z).

(** [if not isinstance(states, Set): states = {states}]. *)
Definition as_set (states : States) : gset Z :=
  match states with
  | Bare status => {[ status ]}
  | SetOf statuses => statuses
  end.

Definition is_in_state (fuel : nat) (dev : Device) (cursor : nat)
    (states : States) (invert : bool) : option (Outcome bool) :=
  let states := as_set states in
  match get_status fuel dev cursor with
  | None => None
  | Some (Raise e, cursor, done) => Some (Raise e, cursor, done)
  | Some (Ret status, cursor, done) =>
      Some (Ret (xorb (bool_decide (status ∈ states)) invert), cursor, done)
  end.

(** One operation after the other: the second starts where the first
    has left the device, and does not start when the first raises. *)
Definition and_then {A B : Type} (first : option (Outcome A))
    (next : A -> nat -> option (Outcome B)) : option (Outcome B) :=
  match first with
  | None => None
  | Some (Raise e, cursor, done) => Some (Raise e, cursor, done)
  | Some (Ret a, cursor, done) =>
      match next a cursor with
      | None => None
      | Some (r, cursor, done') => Some (r, cursor, done ++ done')
      end
  end.

(** [async with self.locked_door(): body]: the door is unlocked in the
    [finally] clause, whether the body returns or raises; an exception of
    the unlocking replaces the outcome of the body. *)
Definition locked_door {A : Type} (fuel : nat) (dev : Device) (cursor : nat)
    (body : nat -> option (Outcome A)) : option (Outcome A) :=
  and_then (lock_door fuel dev cursor) (fun _ cursor =>
    match body cursor with
    | None => None
    | Some (r, cursor, done) =>
        match unlock_door fuel dev cursor with
        | None => None
        | Some (Raise e, cursor, done') =>
            Some (Raise e, cursor, done ++ done')
        | Some (Ret _, cursor, done') => Some (r, cursor, done ++ done')
        end
    end).

(** [Drive.wait_for_state]: poll, return on a match, else sleep the
    polling period and poll again.  [None]: still polling after [polls]
    polls (or still retrying a busy ioctl). *)
Fixpoint wait_for_state (polls fuel : nat) (polling_period : Q)
    (dev : Device) (cursor : nat) (states : States) (invert : bool)
  : option (Outcome unit) :=
  match polls with
  | O => None
  | S polls' =>
      and_then (is_in_state fuel dev cursor states invert)
        (fun in_state cursor =>
           if in_state : bool then Some (Ret tt, cursor, [])
           else
             match wait_for_state polls' fuel polling_period dev cursor
                     states invert with
             | None => None
             | Some (r, cursor, done) =>
                 Some (r, cursor, Sleep polling_period :: done)
             end)
  end.

Definition DISC_OK : States := SetOf {[ Cdrom.CDS_DISC_OK ]}.
Definition TRAY_OPEN : States := SetOf {[ Cdrom.CDS_TRAY_OPEN ]}.
Definition DISC_READY : States :=
  SetOf {[ Cdrom.CDS_DISC_OK; Cdrom.CDS_NO_DISC ]}.

Definition is_disc_ok (fuel : nat) (dev : Device) (cursor : nat) :=
  is_in_state fuel dev cursor DISC_OK false.

Definition wait_disc_ok (polls fuel : nat) (polling_period : Q)
    (dev : Device) (cursor : nat) :=
  wait_for_state polls fuel polling_period dev cursor DISC_OK false.

Definition wait_disk_not_ok (polls fuel : nat) (polling_period : Q)
    (dev : Device) (cursor : nat) :=
  wait_for_state polls fuel polling_period dev cursor DISC_OK true.

Definition is_tray_open (fuel : nat) (dev : Device) (cursor : nat) :=
  is_in_state fuel dev cursor TRAY_OPEN false.

Definition wait_tray_opened (polls fuel : nat) (polling_period : Q)
    (dev : Device) (cursor : nat) :=
  wait_for_state polls fuel polling_period dev cursor TRAY_OPEN false.

Definition wait_tray_closed (polls fuel : nat) (polling_period : Q)
    (dev : Device) (cursor : nat) :=
  wait_for_state polls fuel polling_period dev cursor TRAY_OPEN true.

Definition is_disc_ready (fuel : nat) (dev : Device) (cursor : nat) :=
  is_in_state fuel dev cursor DISC_READY false.

Definition wait_disc_ready (polls fuel : nat) (polling_period : Q)
    (dev : Device) (cursor : nat) :=
  wait_for_state polls fuel polling_period dev cursor DISC_READY false.

Definition wait_disk_not_ready (polls fuel : nat) (polling_period : Q)
    (dev : Device) (cursor : nat) :=
  wait_for_state polls fuel polling_period dev cursor DISC_READY true.

Definition wait_tray_cycle (polls fuel : nat) (polling_period : Q)
    (dev : Device) (cursor : nat) : option (Outcome unit) :=
  and_then (wait_tray_opened polls fuel polling_period dev cursor)
    (fun _ cursor => wait_tray_closed polls fuel polling_period dev cursor).

Definition cycle (polls fuel : nat) (polling_period : Q) (dev : Device)
    (cursor : nat) (autoclose : bool) : option (Outcome unit) :=
  and_then (open_tray fuel dev cursor) (fun _ cursor =>
  and_then (wait_tray_opened polls fuel polling_period dev cursor)
    (fun _ cursor =>
       if autoclose then
         and_then (close_tray fuel dev cursor) (fun _ cursor =>
           wait_tray_closed polls fuel polling_period dev cursor)
       else wait_tray_closed polls fuel polling_period dev cursor)).

End Drive.

(** ** mqtt_wrapper.py *)

Module MqttWrapper.
Local Open Scope list_scope.

Record Message : Type := mkMessage {
  topic : string;
  payload : string;
  kwargs : list (string * string)
}.

(** What the worker does, in order. *)
Inductive Action : Type :=
| Get (m : Message)
| Connect (ok : bool)
| Publish (m : Message) (ok : bool)
| Sleep (seconds : Q).

(** The worker between two network operations.  [current] is the message
    held in [topic, payload, kwargs]; it is [None] when the worker is
    suspended in [message_queue.get()] on an empty queue.
    [message_queue] holds the messages enqueued and not yet taken. *)
Record Worker : Type := mkWorker {
  connected : bool;
  current : option Message;
  remaining_retries : Z;
  message_queue : list Message
}.

(** [topic, payload, kwargs = await self.message_queue.get()]. *)
Definition get (connected : bool) (remaining_retries : Z)
    (message_queue : list Message) : Worker * list Action :=
  match message_queue with
  | [] => (mkWorker connected None remaining_retries [], [])
  | m :: rest => (mkWorker connected (Some m) remaining_retries rest, [Get m])
  end.

(** The [except aiomqtt.MqttError] handler; the connection is closed by
    leaving the [async with] block. *)
Definition on_error (retry_delay : Q) (m : Message) (remaining_retries : Z)
    (message_queue : list Message) : Worker * list Action :=
  let remaining_retries := remaining_retries - 1 in
  if remaining_retries <=? 0 then
    match get false remaining_retries message_queue with
    | (mkWorker _ None _ _ as w, done) => (w, done)
    | (w, done) => (w, done ++ [Sleep retry_delay])
    end
  else
    (mkWorker false (Some m) remaining_retries message_queue,
     [Sleep retry_delay]).

(** One network operation and what follows it up to the next one: the
    broker answers [ok = true], or the operation raises MqttError. *)
Definition step (retries : Z) (retry_delay : Q) (w : Worker) (ok : bool)
  : Worker * list Action :=
  match current w with
  | None => (w, [])
  | Some m =>
      if connected w then
        if ok then
          let '(w', done) := get true retries (message_queue w) in
          (w', Publish m true :: done)
        else
          let '(w', done) :=
            on_error retry_delay m (remaining_retries w) (message_queue w) in
          (w', Publish m false :: done)
      else
        if ok then
          (mkWorker true (Some m) (remaining_retries w) (message_queue w),
           [Connect true])
        else
          let '(w', done) :=
            on_error retry_delay m (remaining_retries w) (message_queue w) in
          (w', Connect false :: done)
  end.

Fixpoint run (retries : Z) (retry_delay : Q) (w : Worker) (net : list bool)
  : Worker * list Action :=
  match net with
  | [] => (w, [])
  | ok :: net' =>
      let '(w1, done1) := step retries retry_delay w ok in
      let '(w2, done2) := run retries retry_delay w1 net' in
      (w2, done1 ++ done2)
  end.

(** [MQTTWrapper.send_loop] against the messages enqueued and the broker's
    answers [net]. *)
Definition send_loop (retries : Z) (retry_delay : Q)
    (message_queue : list Message) (net : list bool) : Worker * list Action :=
  let '(w, done) := get false retries message_queue in
  let '(w', done') := run retries retry_delay w net in
  (w', done ++ done').

Definition DEFAULT_RETRIES : Z := 10.
Definition DEFAULT_RETRY_DELAY : Q := 1 # 10.

(** [MQTTWrapper.enqueue_message]: the topic as text, the payload and
    the keyword arguments go to the end of the queue. *)
Definition enqueue_message (message_queue : list Message)
    (topic payload : string) (kwargs : list (string * string))
  : list Message :=
  message_queue ++ [mkMessage topic payload kwargs].

End MqttWrapper.

(** ** The builtin [int(text, base)] for the bases 2 and 16 *)

Module Radix.

(** The value of a digit, the letters counting from ten on. *)
Definition digit_value (c : ascii) : option Z :=
  let n := Str.code c in
  if (48 <=? n) && (n <=? 57) then Some (n - 48)
  else if (97 <=? n) && (n <=? 122) then Some (n - 87)
  else if (65 <=? n) && (n <=? 90) then Some (n - 55)
  else None.

(** The whole text is [digit (["_"] digit)*], with digits of the base:
    its value. *)
Fixpoint digits_all (base acc : Z) (after_digit : bool) (s : string)
  : option Z :=
  match s with
  | EmptyString => if after_digit then Some acc else None
  | String c s' =>
      match digit_value c with
      | Some d =>
          if d <? base then digits_all base (base * acc + d) true s'
          else None
      | None =>
          if Num.is_underscore c && after_digit
          then digits_all base acc false s'
          else None
      end
  end.

(** The letter of the prefix: [0x] or [0X] in base 16, [0b] or [0B] in
    base 2. *)
Definition prefix_letter (base : Z) : ascii :=
  if base =? 16 then "x"%char else "b"%char.

(** After the sign: the optional prefix, which one underscore may
    follow, then the digits. *)
Definition unsigned (base : Z) (t : string) : option Z :=
  match t with
  | String "0" (String x r) =>
      if Ascii.eqb (Str.lower_char x) (prefix_letter base) then
        match r with
        | String "_" r' => digits_all base 0 false r'
        | _ => digits_all base 0 false r
        end
      else digits_all base 0 false t
  | _ => digits_all base 0 false t
  end.

(** The characters [int] skips around the number. *)
Definition is_int_space : ascii -> bool := Num.is_int_space.

(** [int(s, base)] for [base] 2 or 16: surrounding white space, one
    optional sign, the optional prefix, digits with single underscores
    between them; anything else is a ValueError.  These bases have no
    limit on the number of digits. *)
Definition int (base : Z) (s : string) : Exc Z :=
  opt_or ValueError
    match Str.strip is_int_space s with
    | String "+" r => unsigned base r
    | String "-" r => Z.opp <$> unsigned base r
    | t => unsigned base t
    end.

End Radix.

(** ** database.py: the rows ripper.py writes *)

Module Database.
Import Events.

Record DiscStream : Type := mkDiscStream {
  stream_disc_id : Z;
  stream_title_number : Z;
  stream_number : Z;
  stream_name : Value
}.

(** The fourteen columns of a title that [update_titles] assigns, in
    the order of the source. *)
Record TitleColumns : Type := mkTitleColumns {
  name : Value;
  chapter_count : Value;
  duration : Value;
  disc_size : Value;
  disc_size_bytes : Value;
  source_file_name : Value;
  segments_count : Value;
  segments_map : Value;
  output_file_name : Value;
  metadata_language_code : Value;
  metadata_language_name : Value;
  tree_info : Value;
  panel_title : Value;
  order_weight : Value
}.

(** A title row with its [streams] collection, in the order in which
    the collection lists them. *)
Record DiscTitle : Type := mkDiscTitle {
  title_disc_id : Z;
  title_number : Z;
  columns : TitleColumns;
  streams : list DiscStream
}.

End Database.

(** ** ripper.py *)

Module Ripper.
Import Events Sources Database.
Local Open Scope list_scope.

(** *** The disc id of [drive_loop] *)

(** [disc_id = int(uuid, base=16)], then
    [if (disc_id & (1 << 63)) != 0: disc_id = disc_id - (1 << 64)]. *)
Definition disc_id (uuid : string) : Exc Z :=
  disc_id ← Radix.int 16 uuid;
  Ret (if negb (Z.land disc_id (Z.shiftl 1 63) =? 0)
       then disc_id - Z.shiftl 1 64
       else disc_id).

(** *** [scan_disc] *)

(** The [code] and [id] of a progress bar: the ints of the literals, or
    the text of an event's field. *)
Inductive Field : Type :=
| FInt (n : Z)
| FStr (s : string).

(** One of the two dictionaries of [progress], with its keys progress,
    name, code and id. *)
Record Bar : Type := mkBar {
  bar_progress : Q;
  bar_name : string;
  bar_code : Field;
  bar_id : Field
}.

Record Progress : Type := mkProgress {
  current : Bar;
  total : Bar
}.

Definition STARTING : Bar := mkBar 0 "Starting" (FInt (-1)) (FInt (-1)).
Definition COMPLETE : Bar := mkBar 1 "Complete" (FInt (-2)) (FInt (-2)).

(** The calls [scan_disc] makes to publish, in order: the argument of
    [mqtt_publish_progress] is the progress dictionary as it is at the
    call, the one of [mqtt_publish_message] the message of the event. *)
Inductive Call : Type :=
| PublishProgress (progress : Progress)
| PublishMessage (message : string).

(** The [while True] loop over [self.processor.get_event()], on the
    items that are or will be on the queue: the calls made, and the
    items left on the queue when the loop breaks at a Stop event;
    [None] when the queue runs empty first, the loop then staying
    suspended in [get_event]. *)
Fixpoint scan_loop (queue : list Item) (progress : Progress)
  : list Call * option (list Item) :=
  match queue with
  | [] => ([], None)
  | event :: queue' =>
      match event with
      | Some (StopEvent _) =>
          ([PublishProgress (mkProgress COMPLETE COMPLETE)], Some queue')
      | Some (ProgressCurrentEvent code operation_id name) =>
          scan_loop queue'
            (mkProgress (mkBar 0 name (FStr code) (FStr operation_id))
               (total progress))
      | Some (ProgressTotalEvent code operation_id name) =>
          scan_loop queue'
            (mkProgress (current progress)
               (mkBar 0 name (FStr code) (FStr operation_id)))
      | Some (MessageEvent _ _ _ message _ _) =>
          let '(calls, rest) := scan_loop queue' progress in
          (PublishMessage message :: calls, rest)
      | Some (ProgressValueEvent _ _ _ current_fraction total_fraction) =>
          let c := current progress in
          let t := total progress in
          let progress :=
            mkProgress
              (mkBar current_fraction (bar_name c) (bar_code c) (bar_id c))
              (mkBar total_fraction (bar_name t) (bar_code t) (bar_id t)) in
          let '(calls, rest) := scan_loop queue' progress in
          (PublishProgress progress :: calls, rest)
      | _ => scan_loop queue' progress
      end
  end.

(** The body of the [async with] block.  The info task puts its items
    on the queue of [self] (on which nothing is pending) and, its run
    completed, waits in [event_queue.join()] until all of them are
    taken; the loop takes them up to the first Stop event; [await
    info_task] then gives the result of the task.  [None]: the body
    never finishes, the loop being suspended on the empty queue or the
    task in [join()]. *)
Definition scan_body (os : Spawn) (self : Source)
  : option (Exc InfoDict) * list Call :=
  let '(self', result) := get_info os self in
  let '(calls, rest) :=
    scan_loop (event_queue self') (mkProgress STARTING STARTING) in
  let calls := PublishProgress (mkProgress STARTING STARTING) :: calls in
  match rest, result with
  | None, _ => (None, calls)
  | Some _, Raise e => (Some (Raise e), calls)
  | Some [], Ret info => (Some (Ret info), calls)
  | Some (_ :: _), Ret _ => (None, calls)
  end.

(** [RipperServer.scan_disc]: the body under [locked_door]; the body
    makes no system call on the device. *)
Definition scan_disc (fuel : nat) (dev : Drive.Device) (cursor : nat)
    (os : Spawn) (self : Source) : option (Drive.Outcome InfoDict) :=
  Drive.locked_door fuel dev cursor (fun cursor =>
    match (scan_body os self).1 with
    | None => None
    | Some r => Some (r, cursor, [])
    end).

(** *** [update_streams] and [update_titles] *)

(** [d.get(key, default)]. *)
Definition dict_get (d : gmap string Value) (key : string) (default : Value)
  : Value :=
  match d !! key with
  | Some v => v
  | None => default
  end.

(** [for index, x in enumerate(l)], from [start]. *)
Fixpoint enumerate_from {A : Type} (start : nat) (l : list A)
  : list (nat * A) :=
  match l with
  | [] => []
  | x :: l' => (start, x) :: enumerate_from (S start) l'
  end.

Definition enumerate {A : Type} (l : list A) : list (nat * A) :=
  enumerate_from 0 l.

(** One turn of the loop of [update_streams]; [existing_streams] is the
    collection [title.streams] itself, which grows with every append. *)
Definition update_stream (title : DiscTitle) (stream_number : nat)
    (stream_data : gmap string Value) : DiscTitle :=
  let existing_streams := streams title in
  let name := dict_get stream_data "Name" (VStr "Unknown") in
  if (length existing_streams <=? stream_number)%nat then
    mkDiscTitle (title_disc_id title) (title_number title) (columns title)
      (existing_streams
         ++ [mkDiscStream (title_disc_id title) (title_number title)
               (Z.of_nat stream_number) name])
  else
    mkDiscTitle (title_disc_id title) (title_number title) (columns title)
      (alter (fun stream =>
                mkDiscStream (stream_disc_id stream)
                  (stream_title_number stream)
                  (Database.stream_number stream) name)
         stream_number existing_streams).

Definition update_streams (title : DiscTitle) (title_data : TitleDict)
  : DiscTitle :=
  foldl (fun title '(stream_number, stream_data) =>
           update_stream title stream_number stream_data)
    title (enumerate (Streams title_data)).

(** The columns both branches of [update_titles] assign, each with its
    key and its default. *)
Definition columns_of (title_data : gmap string Value) : TitleColumns :=
  mkTitleColumns
    (dict_get title_data "Name" (VStr "Unknown"))
    (dict_get title_data "ChapterCount" (VInt 1))
    (dict_get title_data "Duration" (VDuration 0))
    (dict_get title_data "DiscSize" (VStr "Unknown"))
    (dict_get title_data "DiscSizeBytes" (VInt 0))
    (dict_get title_data "SourceFileName" (VStr "Unknown"))
    (dict_get title_data "SegmentsCount" (VInt 1))
    (dict_get title_data "SegmentsMap" (VStr ""))
    (dict_get title_data "OutputFileName" (VStr "Unknown"))
    (dict_get title_data "MetadataLanguageCode" (VStr "UNK"))
    (dict_get title_data "MetadataLanguageName" (VStr "Unknown"))
    (dict_get title_data "TreeInfo" (VStr "Unknown"))
    (dict_get title_data "PanelTitle" (VStr "Unknown"))
    (dict_get title_data "OrderWeight" (VInt 0)).

(** One turn of the loop of [update_titles] on the collection
    [disc.titles] of the disc [disc_id]. *)
Definition update_title (disc_id : Z) (existing_titles : list DiscTitle)
    (title_number : nat) (title_data : TitleDict) : list DiscTitle :=
  let values := columns_of (attrs_of_title title_data) in
  if (length existing_titles <=? title_number)%nat then
    let title :=
      mkDiscTitle disc_id (Z.of_nat title_number) values [] in
    existing_titles ++ [update_streams title title_data]
  else
    alter (fun title =>
             update_streams
               (mkDiscTitle (title_disc_id title)
                  (Database.title_number title) values (streams title))
               title_data)
      title_number existing_titles.

Definition update_titles (disc_id : Z) (existing_titles : list DiscTitle)
    (disc_data : InfoDict) : list DiscTitle :=
  foldl (fun titles '(title_number, title_data) =>
           update_title disc_id titles title_number title_data)
    existing_titles (enumerate (Titles disc_data)).

End Ripper.

(** ** cdrom.py: the loading of the table *)

Module CdromTable.
Local Open Scope list_scope.

(** The classes of the patterns on ASCII text: a word character (a
    letter, a digit or the underscore), a decimal digit, and a character
    of the class of the values of the hexadecimal and of the binary
    pattern.  (On a [str], [re] also counts letters and digits outside
    ASCII; the lines are taken to be ASCII.) *)
Definition is_word (c : ascii) : bool :=
  let n := Str.code c in
  ((48 <=? n) && (n <=? 57)) || ((65 <=? n) && (n <=? 90)) || (n =? 95)
  || ((97 <=? n) && (n <=? 122)).

Definition is_nonword (c : ascii) : bool := negb (is_word c).

Definition is_hexdigit (c : ascii) : bool :=
  let n := Str.code c in
  ((48 <=? n) && (n <=? 57)) || ((97 <=? n) && (n <=? 102))
  || ((65 <=? n) && (n <=? 70)).

(** The longest prefix of characters of a class, and the rest. *)
Fixpoint span (p : ascii -> bool) (s : string) : string * string :=
  match s with
  | EmptyString => (EmptyString, EmptyString)
  | String c s' =>
      if p c then
        let '(taken, rest) := span p s' in (String c taken, rest)
      else (EmptyString, s)
  end.

(** A repetition [+] of a class: one character or more, as many as
    there are. *)
Definition some_of (p : ascii -> bool) (s : string)
  : option (string * string) :=
  match span p s with
  | (EmptyString, _) => None
  | (taken, rest) => Some (taken, rest)
  end.

(** A literal at the start: what follows it. *)
Fixpoint literal (text s : string) : option string :=
  match text, s with
  | EmptyString, _ => Some s
  | String a text', String c s' =>
      if Ascii.eqb a c then literal text' s' else None
  | String _ _, EmptyString => None
  end.

(** The part the three patterns share, matched at the start of the
    line: the define keyword, a gap of non-word characters, the key, a
    second gap.  Each repetition takes all the characters of its class;
    a shorter match never helps, since what follows a repetition starts
    with a character of the other class. *)
Definition define_key (line : string) : option (string * string) :=
  rest ← literal "#define" line;
  '(_, rest) ← some_of is_nonword rest;
  '(key, rest) ← some_of is_word rest;
  '(_, rest) ← some_of is_nonword rest;
  Some (key, rest).

(** [pattern.match(line)] for the three patterns: the groups key and
    value. *)
Definition hex_pattern (line : string) : option (string * string) :=
  '(key, rest) ← define_key line;
  rest ← literal "0x" rest;
  '(value, _) ← some_of is_hexdigit rest;
  Some (key, value).

Definition binary_pattern (line : string) : option (string * string) :=
  '(key, rest) ← define_key line;
  rest ← literal "0b" rest;
  '(value, _) ← some_of is_hexdigit rest;
  Some (key, value).

Definition decimal_pattern (line : string) : option (string * string) :=
  '(key, rest) ← define_key line;
  '(value, _) ← some_of Num.is_digit rest;
  Some (key, value).

(** The dictionary that [load_ioctl] creates and binds to the name
    [ioctl_values], and the globals of the module that are bound to an
    int: at first the ten constants, then also every key that [add_ioctl]
    has set.  The other globals of the module are the names the loader
    itself looks up, [loader_names]: such a name is bound to what the
    module defines (or, for [int] and [globals], to nothing, so that the
    builtin is found) until a line of the file defines it as a constant;
    from then on it is bound to an int. *)
Record Tables : Type := mkTables {
  ioctl_values : gmap string Z;
  globals : gmap string Z
}.

Definition loader_names : list string :=
  ["hex_pattern"; "binary_pattern"; "decimal_pattern"; "add_ioctl"; "int";
   "ioctl_values"; "globals"].

Definition rebound (t : Tables) (name : string) : bool :=
  bool_decide (is_Some (globals t !! name)).

(** The built-in table. *)
Definition fallback : gmap string Z :=
  list_to_map
    [("CDROMEJECT", Cdrom.CDROMEJECT);
     ("CDROMCLOSETRAY", Cdrom.CDROMCLOSETRAY);
     ("CDROM_DRIVE_STATUS", Cdrom.CDROM_DRIVE_STATUS);
     ("CDROM_DISC_STATUS", Cdrom.CDROM_DISC_STATUS);
     ("CDROM_LOCKDOOR", Cdrom.CDROM_LOCKDOOR);
     ("CDS_NO_INFO", Cdrom.CDS_NO_INFO);
     ("CDS_NO_DISC", Cdrom.CDS_NO_DISC);
     ("CDS_TRAY_OPEN", Cdrom.CDS_TRAY_OPEN);
     ("CDS_DRIVE_NOT_READY", Cdrom.CDS_DRIVE_NOT_READY);
     ("CDS_DISC_OK", Cdrom.CDS_DISC_OK)].

(** [add_ioctl]: [ioctl_values[key] = value], a TypeError when the name
    [ioctl_values] is bound to an int by now; then
    [globals()[key] = value], a TypeError when the name [globals] is. *)
Definition add_ioctl (key : string) (value : Z) (t : Tables)
  : Tables * option Exn :=
  if rebound t "ioctl_values" then (t, Some TypeError)
  else
    let t := mkTables (<[key := value]> (ioctl_values t)) (globals t) in
    if rebound t "globals" then (t, Some TypeError)
    else (mkTables (ioctl_values t) (<[key := value]> (globals t)), None).

(** [pattern.match(line)] through the global name of the pattern: an
    AttributeError when the name is bound to an int. *)
Definition match_pattern (t : Tables) (name : string)
    (pattern : string -> option (string * string)) (line : string)
  : Exc (option (string * string)) :=
  if rebound t name then Raise AttributeError else Ret (pattern line).

(** [add_ioctl(key, int(value, base))]: the number is computed first (a
    TypeError when the name [int] is bound to an int, a ValueError when
    the text does not read), then [add_ioctl] is called (a TypeError when
    that name is bound to an int). *)
Definition call_add_ioctl (t : Tables) (key : string)
    (number : string -> Exc Z) (value : string) : Tables * option Exn :=
  if rebound t "int" then (t, Some TypeError)
  else
    match number value with
    | Raise e => (t, Some e)
    | Ret n =>
        if rebound t "add_ioctl" then (t, Some TypeError)
        else add_ioctl key n t
    end.

(** One turn of the loop over the lines of the file: the first pattern
    that matches decides. *)
Definition load_line (t : Tables) (line : string) : Tables * option Exn :=
  match match_pattern t "hex_pattern" hex_pattern line with
  | Raise e => (t, Some e)
  | Ret (Some (key, value)) => call_add_ioctl t key (Radix.int 16) value
  | Ret None =>
      match match_pattern t "binary_pattern" binary_pattern line with
      | Raise e => (t, Some e)
      | Ret (Some (key, value)) => call_add_ioctl t key (Radix.int 2) value
      | Ret None =>
          match match_pattern t "decimal_pattern" decimal_pattern line with
          | Raise e => (t, Some e)
          | Ret (Some (key, value)) => call_add_ioctl t key Num.int value
          | Ret None => (t, None)
          end
      end
  end.

(** [ioctl_values = {}] and the loop [for line in f] of [load_ioctl],
    on the lines of the file (each with its line end).  The result
    carries the exception that left the loop, if one did.  The
    enumeration [ioctl] that [load_ioctl] builds after the loop is not
    part of the embedding. *)
Fixpoint load_lines (lines : list string) (t : Tables)
  : Tables * option Exn :=
  match lines with
  | [] => (t, None)
  | line :: lines' =>
      match load_line t line with
      | (t, Some e) => (t, Some e)
      | (t, None) => load_lines lines' t
      end
  end.

Definition load_loop (lines : list string) (t : Tables)
  : Tables * option Exn :=
  load_lines lines (mkTables ∅ (delete "ioctl_values" (globals t))).

End CdromTable.

(** ** Inputs used in the examples *)

Module Samples.
Import Events Sources.

(** One double quote and one line feed. *)
Definition DQUOTE : string := String "034" EmptyString.
Definition LF : string := String "010" EmptyString.

Definition quoted (s : string) : string := (DQUOTE ++ s ++ DQUOTE)%string.

(** [MSG:1,0,0,DQUOTE Hello world DQUOTE,0]. *)
Definition hello_line : string :=
  ("MSG:1,0,0," ++ quoted "Hello world" ++ ",0")%string.

Definition sr0 : Source := mkSource "dev" "/dev/sr0" 0 [].

Definition line (s : string) : Read := ReadLine (s ++ LF)%string.

(** Tool output with an info line of attribute id 999 between two title
    counts; with a PRGV line of limit 0 between two title counts. *)
Definition unknown_attribute_reads : list Read :=
  [line "TCOUT:1"; line "CINFO:999,0,x"; line "TCOUT:2"].
Definition zero_limit_reads : list Read :=
  [line "TCOUT:1"; line "PRGV:1,2,0"; line "TCOUT:2"].

(** Tool output with a duration of a thousand million days; with a PRGV
    line of limit 0 whose current is no number. *)
Definition overlong_duration_reads : list Read :=
  [line "TCOUT:1"; line "TINFO:0,9,0,24000000000:0:0"; line "TCOUT:2"].
Definition zero_limit_no_current_reads : list Read :=
  [line "TCOUT:1"; line "PRGV:x,2,0"; line "TCOUT:2"].

(** Tool output with a byte that is no UTF-8 between two title counts. *)
Definition undecodable_reads : list Read :=
  [line "TCOUT:1"; line (String "255" EmptyString); line "TCOUT:2"].

(** A tool that starts and behaves as [process]; a tool that cannot be
    started ([ENOENT]). *)
Definition tool (process : Process) : Spawn := fun _ => Ret process.
Definition ENOENT : Z := 2.
Definition no_tool : Spawn := fun _ => Raise (OSError ENOENT).

End Samples.

(** ** Vocabulary of the properties *)

Module EventsSpec.
Import Events.

(** The class of an event. *)
Inductive Class : Type :=
| CUnknown | CStart | CStop | CMessage | CProgressCurrent | CProgressTotal
| CProgressValue | CDriveScan | CTitleCount | CDiscInfo | CTitleInfo
| CStreamInfo.

Definition class_of (e : Event) : Class :=
  match e with
  | UnknownEvent _ => CUnknown
  | StartEvent _ => CStart
  | StopEvent _ => CStop
  | MessageEvent _ _ _ _ _ _ => CMessage
  | ProgressCurrentEvent _ _ _ => CProgressCurrent
  | ProgressTotalEvent _ _ _ => CProgressTotal
  | ProgressValueEvent _ _ _ _ _ => CProgressValue
  | DriveScanEvent _ _ _ _ _ _ _ => CDriveScan
  | TitleCountEvent _ => CTitleCount
  | DiscInfoEvent _ => CDiscInfo
  | TitleInfoEvent _ _ => CTitleInfo
  | StreamInfoEvent _ _ _ => CStreamInfo
  end.

(** The event classes and their [__init__]. *)
Definition init_of (c : Class) : option (list string -> Exc Event) :=
  match c with
  | CUnknown => Some UnknownEvent_init
  | CMessage => Some MessageEvent_init
  | CProgressCurrent => Some ProgressCurrentEvent_init
  | CProgressTotal => Some ProgressTotalEvent_init
  | CProgressValue => Some ProgressValueEvent_init
  | CDriveScan => Some DriveScanEvent_init
  | CTitleCount => Some TitleCountEvent_init
  | CDiscInfo => Some DiscInfoEvent_init
  | CTitleInfo => Some TitleInfoEvent_init
  | CStreamInfo => Some StreamInfoEvent_init
  | CStart | CStop => None
  end.

(** The fields [InfoEvent.__init__] receives from an info line: the
    attribute id, the code and the pieces of the value.  A TINFO line has
    its title number before them, a SINFO line its title and stream
    numbers. *)
Definition info_params (raw_string : string)
  : option (string * string * list string) :=
  let message_type := message_type raw_string in
  let params := raw_params raw_string in
  if String.eqb message_type "CINFO" then
    match params with
    | item_id :: code :: values => Some (item_id, code, values)
    | _ => None
    end
  else if String.eqb message_type "TINFO" then
    match params with
    | _ :: item_id :: code :: values => Some (item_id, code, values)
    | _ => None
    end
  else if String.eqb message_type "SINFO" then
    match params with
    | _ :: _ :: item_id :: code :: values => Some (item_id, code, values)
    | _ => None
    end
  else None.

(** The text of the value, as [InfoEvent.__init__] joins it. *)
Definition raw_value_of (values : list string) : string :=
  Str.strip_quotes (Str.join "," (Str.strip_quotes <$> values)).

(** What is wrong with the text of a duration, and the exception that
    belongs to it.  The text is not made of three pieces between colons;
    or the hours or the minutes are no int, or the seconds are no float,
    or they are a NaN: a ValueError.  Or all three read, and the seconds
    are infinite, or the total (rounded to whole microseconds) is beyond
    the 999999999 days a timedelta holds: an OverflowError. *)
Inductive duration_fault (raw_value : string) : Exn -> Prop :=
| not_three_pieces :
    length (Str.split ":" raw_value) <> 3%nat ->
    duration_fault raw_value ValueError
| malformed_hours (hours minutes seconds : string) :
    Str.split ":" raw_value = [hours; minutes; seconds] ->
    raises (Num.int hours) ->
    duration_fault raw_value ValueError
| malformed_minutes (hours minutes seconds : string) :
    Str.split ":" raw_value = [hours; minutes; seconds] ->
    raises (Num.int minutes) ->
    duration_fault raw_value ValueError
| malformed_seconds (hours minutes seconds : string) :
    Str.split ":" raw_value = [hours; minutes; seconds] ->
    raises (Num.float seconds) ->
    duration_fault raw_value ValueError
| nan_seconds (hours minutes seconds : string) :
    Str.split ":" raw_value = [hours; minutes; seconds] ->
    Num.float seconds = Ret Num.NaN ->
    duration_fault raw_value ValueError
| infinite_seconds (hours minutes seconds : string) (h m : Z)
    (negative : bool) :
    Str.split ":" raw_value = [hours; minutes; seconds] ->
    Num.int hours = Ret h ->
    Num.int minutes = Ret m ->
    Num.float seconds = Ret (Num.Inf negative) ->
    duration_fault raw_value OverflowError
| out_of_range (hours minutes seconds : string) (h m : Z) (s : Q) :
    Str.split ":" raw_value = [hours; minutes; seconds] ->
    Num.int hours = Ret h ->
    Num.int minutes = Ret m ->
    Num.float seconds = Ret (Num.Finite s) ->
    Num.in_delta_range (Num.delta_microseconds h m s) = false ->
    duration_fault raw_value OverflowError.

(** What is wrong with the fields of an info line, and the exception that
    belongs to it: the attribute id is no member of the enumeration; or
    the attribute is int-valued and its value is no int; or the attribute
    is Duration and its value has a fault of a duration (whose exception
    it is, when the code of the line reads as an int; the ValueError of
    the code comes first when it does not). *)
Inductive info_fault (item_id code : string) (values : list string)
  : Exn -> Prop :=
| unknown_attribute (n : Z) :
    Num.int item_id = Ret n ->
    ItemAttribute_of_value n = None ->
    info_fault item_id code values ValueError
| malformed_int (n : Z) (a : ItemAttribute) :
    Num.int item_id = Ret n ->
    ItemAttribute_of_value n = Some a ->
    int_valued a = true ->
    raises (Num.int (raw_value_of values)) ->
    info_fault item_id code values ValueError
| malformed_duration (n c : Z) (e : Exn) :
    Num.int item_id = Ret n ->
    ItemAttribute_of_value n = Some Duration ->
    Num.int code = Ret c ->
    duration_fault (raw_value_of values) e ->
    info_fault item_id code values e
| malformed_duration_and_code (n : Z) (e : Exn) :
    Num.int item_id = Ret n ->
    ItemAttribute_of_value n = Some Duration ->
    raises (Num.int code) ->
    duration_fault (raw_value_of values) e ->
    info_fault item_id code values ValueError.

(** An info line with a fault, and the exception of the fault. *)
Definition faulty_info_line (raw_string : string) (e : Exn) : Prop :=
  exists item_id code values,
    info_params raw_string = Some (item_id, code, values) /\
    info_fault item_id code values e.

(** A PRGV line with the three fields [current], [total] and a limit that
    reads as the int 0. *)
Definition zero_limit_line (raw_string current total : string) : Prop :=
  message_type raw_string = "PRGV" /\
  exists limit,
    raw_params raw_string = [current; total; limit] /\
    Num.int limit = Ret 0.

Definition reads_as_int (s : string) : bool :=
  match Num.int s with
  | Ret _ => true
  | Raise _ => false
  end.

(** The exception of such a line: the ZeroDivisionError of the division
    when current and total read as ints, the ValueError of [int]
    otherwise. *)
Definition zero_limit_exception (current total : string) : Exn :=
  if reads_as_int current && reads_as_int total then ZeroDivisionError
  else ValueError.

(** The attributes of an event as Python objects: a text is a [str], a
    number an [int], and [==] never makes a text equal to a number. *)
Inductive Object : Type :=
| OInt (n : Z)
| OStr (s : string)
| OList (l : list string).

Definition py_eq (a b : Object) : bool :=
  match a, b with
  | OInt n, OInt m => n =? m
  | OStr s, OStr t => String.eqb s t
  | OList l, OList k => bool_decide (l = k)
  | _, _ => false
  end.

(** [event.name] for the attributes [MessageEvent.__init__] sets. *)
Definition message_attribute (event : Event) (name : string)
  : option Object :=
  match event with
  | MessageEvent code flags count message format_code parameters =>
      if String.eqb name "code" then Some (OStr code)
      else if String.eqb name "flags" then Some (OStr flags)
      else if String.eqb name "count" then Some (OStr count)
      else if String.eqb name "message" then Some (OStr message)
      else if String.eqb name "format_code" then Some (OStr format_code)
      else if String.eqb name "parameters" then Some (OList parameters)
      else None
  | _ => None
  end.

End EventsSpec.

Module SourcesSpec.
Import Events Sources.
Local Open Scope list_scope.

(** A read that the loop of [run_command] gets past: a timeout, or a line
    that is decoded and on which [get_event] does not raise. *)
Definition decodes (r : Read) : bool :=
  match r with
  | ReadTimeout => true
  | ReadLine byte_line =>
      match line_event byte_line with
      | Raise _ => false
      | Ret _ => true
      end
  end.

(** The events of the lines read, those that decode to an event. *)
Definition decoded (rs : list Read) : list Item :=
  omap (fun r =>
          match r with
          | ReadTimeout => None
          | ReadLine byte_line =>
              match line_event byte_line with
              | Ret (Some event) => Some (Some event)
              | _ => None
              end
          end) rs.

(** Reads of ASCII lines only. *)
Definition ascii_read (r : Read) : bool :=
  match r with
  | ReadTimeout => true
  | ReadLine byte_line => Str.is_ascii byte_line
  end.

(** The same for the lines drained after the exit: a line that decodes,
    and what the drain loop pushes for the lines ([None] included). *)
Definition line_decodes (line : string) : bool :=
  match get_event (Str.rstrip_crlf line) with
  | Raise _ => false
  | Ret _ => true
  end.

Definition drained (lines : list string) : list Item :=
  omap (fun line =>
          match get_event (Str.rstrip_crlf line) with
          | Ret item => Some item
          | Raise _ => None
          end) lines.

(** Appending to the queue and to the history. *)
Definition pushed (items : list Item) (st : Source * list Item)
  : Source * list Item :=
  (mkSource (source_type st.1) (source_string st.1) (command_counter st.1)
     (event_queue st.1 ++ items),
   st.2 ++ items).

(** A source after [run_command] has put [items] on its queue. *)
Definition after_run (self : Source) (items : list Item) : Source :=
  mkSource (source_type self) (source_string self)
    (command_counter self + 1) (event_queue self ++ items).

(** Calls of [run_command] one after the other, whatever they return. *)
Definition run_many (calls : list (Spawn * list string)) (self : Source)
  : Source :=
  foldl (fun self call => (run_command call.1 call.2 self).1) self calls.

(** An item as the decoder hands it over: [None], or an event that is
    neither a Start nor a Stop. *)
Definition from_decoder (item : Item) : Prop :=
  forall n, item <> Some (StartEvent n) /\ item <> Some (StopEvent n).

End SourcesSpec.

Module DriveSpec.
Import Drive.
Local Open Scope list_scope.

(** The hardware control calls and the request each one passes to
    [run_ioctl]. *)
Inductive HardwareCall : Type :=
| StatusQuery
| Eject
| CloseTray
| DoorLock (locked : bool).

Definition perform (fuel : nat) (dev : Device) (cursor : nat)
    (call : HardwareCall) : option (Outcome Z) :=
  match call with
  | StatusQuery => get_status fuel dev cursor
  | Eject => run_ioctl fuel dev cursor Cdrom.CDROMEJECT 0
  | CloseTray => close_tray fuel dev cursor
  | DoorLock locked => set_door_lock fuel dev cursor locked
  end.

Definition request_of (call : HardwareCall) : Z * Z :=
  match call with
  | StatusQuery => (Cdrom.CDROM_DRIVE_STATUS, 0)
  | Eject => (Cdrom.CDROMEJECT, 0)
  | CloseTray => (Cdrom.CDROMCLOSETRAY, 0)
  | DoorLock locked => (Cdrom.CDROM_LOCKDOOR, if locked then 1 else 0)
  end.

(** [k] busy attempts, each followed by its sleep. *)
Definition busy_rounds (k : nat) (fd request arg : Z) : list Effect :=
  mjoin (replicate k [Ioctl fd request arg; Sleep BUSY_DELAY]).

(** A device that is opened with descriptor 3, is busy twice, and then
    answers 4 (disc ok). *)
Definition busy_twice : Device :=
  fun n =>
    match n with
    | 0%nat => Returns 3
    | 1%nat | 2%nat => Fails EBUSY
    | _ => Returns Cdrom.CDS_DISC_OK
    end.

(** [errno.ENOMEDIUM]. *)
Definition ENOMEDIUM : Z := 123.

(** A device that is opened with descriptor 3, is busy once, and then
    reports that it holds no medium. *)
Definition busy_then_no_medium : Device :=
  fun n =>
    match n with
    | 0%nat => Returns 3
    | 1%nat => Fails EBUSY
    | _ => Fails ENOMEDIUM
    end.

(** A device that is busy when it is opened, and free from then on: the
    second call would open it with descriptor 3 and the third would
    answer 4 (disc ok). *)
Definition busy_at_open : Device :=
  fun n =>
    match n with
    | 0%nat => Fails EBUSY
    | 1%nat => Returns 3
    | _ => Returns Cdrom.CDS_DISC_OK
    end.

End DriveSpec.

Module HistorySpec.
Import Events Sources.
Local Open Scope list_scope.

(** What one item of a history writes: a DiscInfo event writes the value
    of its attribute at top level, a TitleInfo event under its title, a
    StreamInfo event under its stream of its title. *)
Definition disc_write (name : string) (item : Item) : option Value :=
  match item with
  | Some (DiscInfoEvent i) =>
      if decide (item_name i = name) then Some (value i) else None
  | _ => None
  end.

Definition title_write (t : Z) (name : string) (item : Item) : option Value :=
  match item with
  | Some (TitleInfoEvent i t') =>
      if decide (t' = t /\ item_name i = name) then Some (value i) else None
  | _ => None
  end.

Definition stream_write (t s : Z) (name : string) (item : Item)
  : option Value :=
  match item with
  | Some (StreamInfoEvent i t' s') =>
      if decide (t' = t /\ s' = s /\ item_name i = name)
      then Some (value i) else None
  | _ => None
  end.

(** The title an item belongs to; the stream of title [t] it belongs to. *)
Definition title_number_of (item : Item) : option Z :=
  match item with
  | Some (TitleInfoEvent _ t) => Some t
  | Some (StreamInfoEvent _ t _) => Some t
  | _ => None
  end.

Definition stream_number_of (t : Z) (item : Item) : option Z :=
  match item with
  | Some (StreamInfoEvent _ t' s) => if decide (t' = t) then Some s else None
  | _ => None
  end.

(** Over a history, in arrival order. *)
Definition disc_writes (history : list Item) (name : string) : list Value :=
  omap (disc_write name) history.
Definition title_writes (history : list Item) (t : Z) (name : string)
  : list Value :=
  omap (title_write t name) history.
Definition stream_writes (history : list Item) (t s : Z) (name : string)
  : list Value :=
  omap (stream_write t s name) history.
Definition title_numbers (history : list Item) : list Z :=
  omap title_number_of history.
Definition stream_numbers (history : list Item) (t : Z) : list Z :=
  omap (stream_number_of t) history.

(** A dictionary of attributes holds, for each name, the value written
    last. *)
Definition holds_last (d : gmap string Value) (writes : string -> list Value)
  : Prop :=
  forall name, d !! name = last (writes name).

(** [indices] lists the numbers that occur, each once, in ascending
    order. *)
Definition ascending_index (indices numbers : list Z) : Prop :=
  StronglySorted Z.lt indices /\ forall n, n ∈ indices <-> n ∈ numbers.

(** The entry of [Titles] for title [t]: its attributes, and its streams
    in ascending order of stream number, each with its attributes. *)
Definition title_entry (history : list Item) (t : Z) (entry : TitleDict)
  : Prop :=
  holds_last (attrs_of_title entry) (title_writes history t) /\
  exists s_indices,
    ascending_index s_indices (stream_numbers history t) /\
    Forall2 (fun s stream => holds_last stream (stream_writes history t s))
      s_indices (Streams entry).

(** The working dictionary entry of a title and of a stream, with the
    defaults of the two [.get] calls. *)
Definition title_at (info : Info) (t : Z) : Title :=
  default new_title (info_titles info !! t).
Definition stream_at (title : Title) (s : Z) : gmap string Value :=
  default ∅ (title_streams title !! s).

(** The working dictionary after the loop over [history]. *)
Definition collected (info : Info) (history : list Item) : Prop :=
  holds_last (info_attrs info) (disc_writes history) /\
  (forall t, is_Some (info_titles info !! t) <-> t ∈ title_numbers history) /\
  (forall t, holds_last (title_attrs (title_at info t))
               (title_writes history t)) /\
  (forall t s, is_Some (title_streams (title_at info t) !! s)
               <-> s ∈ stream_numbers history t) /\
  (forall t s, holds_last (stream_at (title_at info t) s)
                 (stream_writes history t s)).

(** The items [history_to_dict] looks at. *)
Definition is_info (item : Item) : bool :=
  match item with
  | Some (DiscInfoEvent _)
  | Some (TitleInfoEvent _ _)
  | Some (StreamInfoEvent _ _ _) => true
  | _ => false
  end.

(** An info event of the attribute Name. *)
Definition name_info (text : string) : InfoEvent :=
  mkInfo Name 0 [text] text (VStr text).

(** A disc name, the name of title 0, and the name of stream 0 of
    title 0. *)
Definition three_names (disc title stream : string) : list Item :=
  [Some (DiscInfoEvent (name_info disc));
   Some (TitleInfoEvent (name_info title) 0);
   Some (StreamInfoEvent (name_info stream) 0 0)].

End HistorySpec.

Module DecoderSpec.
Import Events EventsSpec.

(** The class [get_event] picks for a message type. *)
Definition class_of_tag (message_type : string) : Class :=
  if String.eqb message_type "MSG" then CMessage
  else if String.eqb message_type "PRGC" then CProgressCurrent
  else if String.eqb message_type "PRGT" then CProgressTotal
  else if String.eqb message_type "PRGV" then CProgressValue
  else if String.eqb message_type "DRV" then CDriveScan
  else if String.eqb message_type "TCOUT" then CTitleCount
  else if String.eqb message_type "CINFO" then CDiscInfo
  else if String.eqb message_type "TINFO" then CTitleInfo
  else if String.eqb message_type "SINFO" then CStreamInfo
  else CUnknown.



(** The text [s] has no character [c]. *)
Fixpoint free_of (c : ascii) (s : string) : bool :=
  match s with
  | EmptyString => true
  | String d s' => negb (Ascii.eqb d c) && free_of c s'
  end.

End DecoderSpec.

Module RunSpec.
Import Events Sources SourcesSpec.
Local Open Scope list_scope.

(** The command numbers of the Start events among some items. *)
Definition start_numbers (items : list Item) : list Z :=
  omap (fun item =>
          match item with
          | Some (StartEvent n) => Some n
          | _ => None
          end) items.

(** The reads without the timeouts. *)
Definition is_timeout (r : Read) : bool :=
  match r with
  | ReadTimeout => true
  | ReadLine _ => false
  end.

Definition without_timeouts (rs : list Read) : list Read :=
  List.filter (fun r => negb (is_timeout r)) rs.

(** A line that [strip()] does not empty, once its line end is removed. *)
Definition not_blank (line : string) : bool :=
  negb (String.eqb (Str.strip_space (Str.rstrip_crlf line)) "").

(** What the successive calls of [stdout.readline()] return for an output
    [s] that is read to its end: each line with its LF, and the rest
    after the last LF when there is one. *)
Definition is_lf (c : ascii) : bool := Ascii.eqb c "010"%char.

Fixpoint readlines_from (cur : string) (s : string) : list string :=
  match s with
  | EmptyString =>
      match cur with
      | EmptyString => []
      | _ => [cur]
      end
  | String c s' =>
      if is_lf c then (cur ++ String c EmptyString)%string
                        :: readlines_from EmptyString s'
      else readlines_from (cur ++ String c EmptyString) s'
  end.

Definition readlines : string -> list string := readlines_from EmptyString.

(** A text whose only line boundary is LF: it has no CR, VT, FF, FS, GS
    or RS. *)
Fixpoint lf_only (s : string) : bool :=
  match s with
  | EmptyString => true
  | String c s' => (negb (Str.is_linebreak c) || is_lf c) && lf_only s'
  end.

End RunSpec.


Module InfoSpec.
Import Events Sources.
Local Open Scope list_scope.

(** A key that is the name of a member of [ItemAttribute]. *)
Definition is_attribute_name (key : string) : Prop :=
  exists a, ItemAttribute_name a = key.

(** Every key of a dictionary of attributes is such a name. *)
Definition keys_named (d : gmap string Value) : Prop :=
  forall key, is_Some (d !! key) -> is_attribute_name key.

(** The numbers that occur are exactly 0, ..., n - 1. *)
Definition numbered_from_zero (numbers : list Z) (n : nat) : Prop :=
  forall t, t ∈ numbers <-> 0 <= t < Z.of_nat n.

End InfoSpec.

Module PollSpec.
Import Drive.
Local Open Scope list_scope.

(** [n] polls in a row that answer no, each followed by the sleep of
    the polling period: the cursor and the effects afterwards. *)
Fixpoint idle_polls (n fuel : nat) (polling_period : Q) (dev : Device)
    (cursor : nat) (states : States) (invert : bool)
  : option (nat * list Effect) :=
  match n with
  | O => Some (cursor, [])
  | S n' =>
      match is_in_state fuel dev cursor states invert with
      | Some (Ret false, cursor, effects) =>
          match idle_polls n' fuel polling_period dev cursor states invert
          with
          | Some (cursor, effects') =>
              Some (cursor, effects ++ Sleep polling_period :: effects')
          | None => None
          end
      | _ => None
      end
  end.

(** The ioctl requests among some effects, each with its argument. *)
Definition ioctls (effects : list Effect) : list (Z * Z) :=
  omap (fun effect =>
          match effect with
          | Ioctl _ request arg => Some (request, arg)
          | _ => None
          end) effects.

Definition UNLOCK : Z * Z := (Cdrom.CDROM_LOCKDOOR, 0).
Definition EJECT : Z * Z := (Cdrom.CDROMEJECT, 0).
Definition STATUS : Z * Z := (Cdrom.CDROM_DRIVE_STATUS, 0).
Definition CLOSETRAY : Z * Z := (Cdrom.CDROMCLOSETRAY, 0).

(** A device that opens with descriptor 3 at every call, and whose
    status is disc ok, then tray open, then no disc. *)
Definition tray_moves : Device :=
  fun n =>
    match n with
    | 1%nat => Returns Cdrom.CDS_DISC_OK
    | 3%nat => Returns Cdrom.CDS_TRAY_OPEN
    | 5%nat => Returns Cdrom.CDS_NO_DISC
    | _ => Returns 3
    end.

End PollSpec.

Module MqttSpec.
Import MqttWrapper.
Local Open Scope list_scope.

(** The messages taken from the queue, and the messages the broker has
    accepted, in the order of the actions. *)
Definition taken (actions : list Action) : list Message :=
  omap (fun action =>
          match action with
          | Get m => Some m
          | _ => None
          end) actions.

Definition published (actions : list Action) : list Message :=
  omap (fun action =>
          match action with
          | Publish m true => Some m
          | _ => None
          end) actions.

(** The message the worker holds, as a list. *)
Definition held (w : Worker) : list Message := option_list (current w).

(** The number of failures after which the first message is given up. *)
Definition first_budget (retries : Z) : nat := Z.to_nat (Z.max retries 1).

(** Some messages put on the queue one after the other. *)
Definition enqueue_all (message_queue : list Message)
    (messages : list Message) : list Message :=
  foldl (fun queue m => enqueue_message queue (topic m) (payload m) (kwargs m))
    message_queue messages.

End MqttSpec.

Module TextSpec.

(** Every character of the text satisfies [p]. *)
Fixpoint all_chars (p : ascii -> bool) (s : string) : bool :=
  match s with
  | EmptyString => true
  | String c s' => p c && all_chars p s'
  end.

(** The text is empty or starts with a character that does not satisfy
    [p]. *)
Definition starts_without (p : ascii -> bool) (s : string) : bool :=
  match s with
  | EmptyString => true
  | String c _ => negb (p c)
  end.

(** A text of hexadecimal digits only. *)
Definition hex_text (s : string) : bool := all_chars CdromTable.is_hexdigit s.

End TextSpec.

Module RipperSpec.
Import Events Sources Ripper TextSpec.
Local Open Scope list_scope.

(** One turn of a loop over [enumerate] that writes by position: append
    when the index is past the end of the collection, else change the
    row at the index. *)
Definition upsert {R D : Type} (new : nat -> D -> R) (modify : D -> R -> R)
    (rows : list R) (item : nat * D) : list R :=
  if (length rows <=? item.1)%nat then rows ++ [new item.1 item.2]
  else alter (modify item.2) item.1 rows.

(** The range of a signed integer of 64 bits. *)
Definition fits_int64 (n : Z) : Prop := - 2 ^ 63 <= n < 2 ^ 63.

(** The messages of the Message events among some items, and the pairs
    of fractions of the ProgressValue events, in order. *)
Definition messages (items : list Item) : list string :=
  omap (fun item =>
          match item with
          | Some (MessageEvent _ _ _ message _ _) => Some message
          | _ => None
          end) items.

Definition fractions (items : list Item) : list (Q * Q) :=
  omap (fun item =>
          match item with
          | Some (ProgressValueEvent _ _ _ current_fraction total_fraction) =>
              Some (current_fraction, total_fraction)
          | _ => None
          end) items.

(** The same of the calls made: the messages published, and the two
    fractions of every progress published. *)
Definition published_messages (calls : list Call) : list string :=
  omap (fun call =>
          match call with
          | PublishMessage message => Some message
          | _ => None
          end) calls.

Definition published_fractions (calls : list Call) : list (Q * Q) :=
  omap (fun call =>
          match call with
          | PublishProgress p =>
              Some (bar_progress (current p), bar_progress (total p))
          | _ => None
          end) calls.

(** An item that is not a Stop event. *)
Definition not_stop (item : Item) : Prop :=
  forall n, item <> Some (StopEvent n).

(** The row a title of the scan is written to: the new row of the
    values, or the existing row with the values in its columns; then its
    streams are brought up to date. *)
Definition written_title (disc_id : Z) (existing : option Database.DiscTitle)
    (title_number : nat) (title_data : TitleDict) : Database.DiscTitle :=
  let values := columns_of (attrs_of_title title_data) in
  match existing with
  | None =>
      update_streams
        (Database.mkDiscTitle disc_id (Z.of_nat title_number) values [])
        title_data
  | Some title =>
      update_streams
        (Database.mkDiscTitle (Database.title_disc_id title)
           (Database.title_number title) values (Database.streams title))
        title_data
  end.

(** The same for a stream of the title [owner]. *)
Definition written_stream (owner : Database.DiscTitle)
    (existing : option Database.DiscStream) (stream_number : nat)
    (stream_data : gmap string Value) : Database.DiscStream :=
  let name := dict_get stream_data "Name" (VStr "Unknown") in
  match existing with
  | None =>
      Database.mkDiscStream (Database.title_disc_id owner)
        (Database.title_number owner) (Z.of_nat stream_number) name
  | Some stream =>
      Database.mkDiscStream (Database.stream_disc_id stream)
        (Database.stream_title_number stream)
        (Database.stream_number stream) name
  end.

(** A title that says its size: the attribute DiskSize of title 0. *)
Definition sized_title : list Item :=
  [Some (TitleInfoEvent
           (mkInfo DiskSize 0 ["4.3 GB"] "4.3 GB" (VStr "4.3 GB")) 0);
   Some (TitleInfoEvent
           (mkInfo DiskSizeBytes 0 ["4300000000"] "4300000000"
              (VInt 4300000000)) 0)].

End RipperSpec.

Module CdromSpec.
Import CdromTable TextSpec.

(** A line of a header: the define keyword, a gap, the key, a second
    gap, and the text of the number with what follows it. *)
Definition define_line (gap1 key gap2 number : string) : string :=
  ("#define" ++ gap1 ++ key ++ gap2 ++ number)%string.

(** A gap: one or more characters, none of them a word character. *)
Definition is_gap (s : string) : Prop :=
  s <> "" /\ all_chars is_nonword s = true.

(** A text of one or more characters of a class. *)
Definition some_chars (p : ascii -> bool) (s : string) : Prop :=
  s <> "" /\ all_chars p s = true.

(** No name that the loader looks up is bound to an int: the loader is
    as the module defines it. *)
Definition names_intact (t : Tables) : bool :=
  forallb (fun name => negb (rebound t name)) loader_names.

(** The key a line defines, by the first pattern that matches it. *)
Definition defined_key (line : string) : option string :=
  match hex_pattern line with
  | Some (key, _) => Some key
  | None =>
      match binary_pattern line with
      | Some (key, _) => Some key
      | None =>
          match decimal_pattern line with
          | Some (key, _) => Some key
          | None => None
          end
      end
  end.

(** A line that defines none of the names of the loader. *)
Definition keeps_loader (line : string) : bool :=
  match defined_key line with
  | Some key => negb (bool_decide (key ∈ loader_names))
  | None => true
  end.

(** The key set to a value in the table and among the constants. *)
Definition set_constant (key : string) (value : Z) (t : Tables) : Tables :=
  mkTables (<[key := value]> (ioctl_values t)) (<[key := value]> (globals t)).

(** A header with the eject request, a comment and the status of a disc
    that is ready; a header that defines the name [globals]. *)
Definition sample_header : list string :=
  ["#define CDROMEJECT 0x5309" ++ String "010" "";
   "/* drive status */" ++ String "010" "";
   "#define CDS_DISC_OK 4" ++ String "010" ""]%string.

Definition rebinding_header : list string :=
  ["#define A 1" ++ String "010" "";
   "#define globals 5" ++ String "010" "";
   "#define B 2" ++ String "010" "";
   "#define C 3" ++ String "010" ""]%string.

(** The module as it is before [load_ioctl] is called. *)
Definition initial_tables : Tables := mkTables fallback fallback.

(** What the loop keeps true of the two tables: a constant of a key of
    the table has the value of the table, any other constant the value
    of [old]; the keys of the table are words. *)
Definition tables_agree (old : gmap string Z) (t : Tables) : Prop :=
  (forall key, globals t !! key
               = match ioctl_values t !! key with
                 | Some v => Some v
                 | None => old !! key
                 end) /\
  (forall key, is_Some (ioctl_values t !! key) -> some_chars is_word key).

End CdromSpec.
(** * Properties *)

(** ** The decoder *)

Module EventsFacts.
Import Events EventsSpec Samples.

(** Unfolding the monad of [Exc]. *)
Ltac exc_unfold :=
  unfold mbind, mret, fmap, Exc_bind, Exc_ret, Exc_fmap, bind, opt_or in *.

Ltac exc_case :=
  match goal with
  | H : context [match ?m with Ret _ => _ | Raise _ => _ end] |- _ =>
      let E := fresh "E" in
      destruct m eqn:E; cbn beta iota in H; try discriminate H
  | H : context [match ?m with Some _ => _ | None => _ end] |- _ =>
      let E := fresh "E" in
      destruct m eqn:E; cbn beta iota in H; try discriminate H
  end.

Ltac exc_inv := exc_unfold; repeat exc_case.

Ltac list_shape :=
  repeat match goal with
         | H : context [match ?ps with [] => _ | _ :: _ => _ end] |- _ =>
             is_var ps; destruct ps; cbn beta iota in H; try discriminate H
         end.

Lemma fmap_Some_Ret (m : Exc Event) (o : option Event) :
  Some <$> m = Ret o -> exists e, o = Some e /\ m = Ret e.
Proof. destruct m; exc_unfold; intros H; inversion H; eauto. Qed.

Lemma fmap_Some_Raise (m : Exc Event) (x : Exn) :
  Some <$> m = Raise x <-> m = Raise x.
Proof. destruct m; exc_unfold; split; intros H; inversion H; eauto. Qed.

Ltac dispatch_by :=
  right;
  first [ by eexists CMessage, _ | by eexists CProgressCurrent, _
        | by eexists CProgressTotal, _ | by eexists CProgressValue, _
        | by eexists CDriveScan, _ | by eexists CTitleCount, _
        | by eexists CDiscInfo, _ | by eexists CTitleInfo, _
        | by eexists CStreamInfo, _ | by eexists CUnknown, _ ].

(** [get_event] either returns [None] or calls [parse] of one class. *)
Lemma get_event_dispatch (raw_string : string) :
  get_event raw_string = Ret None \/
  exists c cls, init_of c = Some cls /\
    get_event raw_string = Some <$> parse cls raw_string.
Proof.
  unfold get_event.
  repeat (destruct (String.eqb _ _); [dispatch_by |]).
  destruct (_ <=? _)%nat; [by left | dispatch_by].
Qed.

(** Each [__init__] builds an event of its own class. *)
Lemma init_class (c : Class) cls (params : list string) (e : Event) :
  init_of c = Some cls -> cls params = Ret e -> class_of e = c.
Proof.
  destruct c; simpl; intros [= <-];
    unfold UnknownEvent_init, MessageEvent_init, ProgressCurrentEvent_init,
      ProgressTotalEvent_init, ProgressValueEvent_init, DriveScanEvent_init,
      TitleCountEvent_init, DiscInfoEvent_init, TitleInfoEvent_init,
      StreamInfoEvent_init;
    intros H.
  all: list_shape; exc_inv; by inversion H.
Qed.

Lemma get_event_class (raw_string : string) (e : Event) :
  get_event raw_string = Ret (Some e) ->
  exists cls, init_of (class_of e) = Some cls /\
    cls (raw_params raw_string) = Ret e.
Proof.
  intros H.
  destruct (get_event_dispatch raw_string) as [E | (c & cls & Hc & E)].
  - congruence.
  - rewrite E in H. apply fmap_Some_Ret in H as (e' & [= <-] & H).
    unfold parse in H. rewrite (init_class _ _ _ _ Hc H). eauto.
Qed.

(** The decoder never builds a Start or a Stop event. *)
Lemma get_event_not_boundary (raw_string : string) (e : Event) :
  get_event raw_string = Ret (Some e) ->
  forall n, e <> StartEvent n /\ e <> StopEvent n.
Proof.
  intros H n. apply get_event_class in H as (cls & Hc & _).
  split; intros ->; discriminate Hc.
Qed.

(** An info line: a failing [InfoEvent.__init__] is the failure of
    [get_event]. *)
Lemma info_params_raise (raw_string item_id code : string)
    (values : list string) (e : Exn) :
  info_params raw_string = Some (item_id, code, values) ->
  InfoEvent_init item_id code values = Raise e ->
  get_event raw_string = Raise e.
Proof.
  unfold info_params, get_event, parse.
  set (params := raw_params raw_string). clearbody params. intros H Hi.
  destruct (String.eqb (message_type raw_string) "CINFO") eqn:Ec.
  { apply String.eqb_eq in Ec. rewrite Ec. simpl.
    apply fmap_Some_Raise. unfold DiscInfoEvent_init.
    list_shape. inversion H; subst. by rewrite Hi. }
  destruct (String.eqb (message_type raw_string) "TINFO") eqn:Et.
  { apply String.eqb_eq in Et. rewrite Et. simpl.
    apply fmap_Some_Raise. unfold TitleInfoEvent_init.
    list_shape. inversion H; subst. by rewrite Hi. }
  destruct (String.eqb (message_type raw_string) "SINFO") eqn:Es;
    [| discriminate].
  apply String.eqb_eq in Es. rewrite Es. simpl.
  apply fmap_Some_Raise. unfold StreamInfoEvent_init.
  list_shape. inversion H; subst. by rewrite Hi.
Qed.

(** The exceptions of the number builtins. *)
Lemma opt_or_raises {A : Type} (e e' : Exn) (o : option A) :
  opt_or e o = Raise e' -> e' = e.
Proof. destruct o; intros H; by inversion H. Qed.

Lemma int_raises (s : string) (e : Exn) :
  Num.int s = Raise e -> e = ValueError.
Proof. apply opt_or_raises. Qed.

Lemma float_raises (s : string) (e : Exn) :
  Num.float s = Raise e -> e = ValueError.
Proof.
  unfold Num.float. destruct (Str.strip Num.is_int_space s) as [|c r]; simpl.
  - intros Hx; by inversion Hx.
  - repeat case_match; intros Hx; by inversion Hx.
Qed.



Lemma int_raises_ValueError (s : string) :
  raises (Num.int s) -> Num.int s = Raise ValueError.
Proof. intros [e He]. by rewrite He, (int_raises _ _ He). Qed.

Lemma float_raises_ValueError (s : string) :
  raises (Num.float s) -> Num.float s = Raise ValueError.
Proof. intros [e He]. by rewrite He, (float_raises _ _ He). Qed.

(** The text of a duration with a fault: [duration_value] raises the
    exception of the fault. *)
Lemma duration_fault_raises (raw_value : string) (e : Exn) :
  duration_fault raw_value e -> duration_value raw_value = Raise e.
Proof.
  unfold duration_value.
  intros [ Hl | h m s -> Hh | h m s -> Hm | h m s -> Hs | h m s -> Hs
         | h m s hv mv negative -> Hh Hm Hs | h m s hv mv q -> Hh Hm Hs Hr ];
    exc_unfold.
  - by destruct (Str.split ":" raw_value) as [|? [|? [|? [|]]]].
  - by rewrite (int_raises_ValueError _ Hh).
  - destruct (Num.int h) eqn:Eh; [|by rewrite (int_raises _ _ Eh)].
    by rewrite (int_raises_ValueError _ Hm).
  - destruct (Num.int h) eqn:Eh; [|by rewrite (int_raises _ _ Eh)].
    destruct (Num.int m) eqn:Em; [|by rewrite (int_raises _ _ Em)].
    by rewrite (float_raises_ValueError _ Hs).
  - destruct (Num.int h) eqn:Eh; [|by rewrite (int_raises _ _ Eh)].
    destruct (Num.int m) eqn:Em; [|by rewrite (int_raises _ _ Em)].
    by rewrite Hs.
  - by rewrite Hh, Hm, Hs.
  - rewrite Hh, Hm, Hs. unfold Num.timedelta. by rewrite Hr.
Qed.

Lemma duration_fault_kind (raw_value : string) (e : Exn) :
  duration_fault raw_value e -> e = ValueError \/ e = OverflowError.
Proof. intros []; auto. Qed.

(** [InfoEvent.__init__] raises the exception of the fault. *)
Lemma info_fault_raises (item_id code : string) (values : list string)
    (e : Exn) :
  info_fault item_id code values e ->
  InfoEvent_init item_id code values = Raise e.
Proof.
  unfold InfoEvent_init.
  intros [n Hn Ha | n a Hn Ha Hi He | n c e' Hn Ha Hc Hd | n e' Hn Ha Hc Hd];
    unfold raw_value_of in *; rewrite Hn; exc_unfold; rewrite Ha.
  - done.
  - destruct (Num.int code) eqn:Ec; [|by rewrite (int_raises _ _ Ec)].
    unfold coerce_value. rewrite Hi. exc_unfold.
    by rewrite (int_raises_ValueError _ He).
  - rewrite Hc. unfold coerce_value. simpl.
    by rewrite (duration_fault_raises _ _ Hd).
  - by rewrite (int_raises_ValueError _ Hc).
Qed.

Lemma info_fault_kind (item_id code : string) (values : list string)
    (e : Exn) :
  info_fault item_id code values e -> e = ValueError \/ e = OverflowError.
Proof. intros []; eauto using duration_fault_kind. Qed.

Lemma faulty_info_line_raises (raw_string : string) (e : Exn) :
  faulty_info_line raw_string e ->
  get_event raw_string = Raise e /\ (e = ValueError \/ e = OverflowError).
Proof.
  intros (item_id & code & values & Hp & Hf).
  eauto using info_params_raise, info_fault_raises, info_fault_kind.
Qed.

(** A PRGV line with limit 0. *)
Lemma zero_limit_line_raises (raw_string current total : string) :
  zero_limit_line raw_string current total ->
  get_event raw_string = Raise (zero_limit_exception current total).
Proof.
  intros (Ht & l & Hp & Hl).
  unfold get_event, parse. rewrite Ht, Hp. simpl.
  unfold ProgressValueEvent_init, zero_limit_exception, reads_as_int.
  exc_unfold.
  destruct (Num.int current) eqn:Ec; [|by rewrite (int_raises _ _ Ec)].
  destruct (Num.int total) eqn:Et; [|by rewrite (int_raises _ _ Et)].
  rewrite Hl. unfold Num.truediv. by simpl.
Qed.

(** A ProgressValue event out of the decoder. *)
Lemma get_event_progress_value (raw_string : string)
    (current total limit : Z) (current_fraction total_fraction : Q) :
  get_event raw_string =
    Ret (Some (ProgressValueEvent current total limit
                 current_fraction total_fraction)) ->
  limit <> 0 /\
  current_fraction = Qred (inject_Z current / inject_Z limit) /\
  total_fraction = Qred (inject_Z total / inject_Z limit).
Proof.
  intros H. apply get_event_class in H as (cls & [= <-] & H).
  set (params := raw_params raw_string) in H. clearbody params.
  unfold ProgressValueEvent_init in H. list_shape. exc_unfold.
  repeat exc_case. inversion H; subst. unfold Num.truediv in *.
  destruct (Z.eqb_spec limit 0); [discriminate|].
  repeat match goal with
         | H1 : (if ?b then _ else _) = Ret _ |- _ =>
             destruct b; [discriminate H1 | inversion H1; clear H1]
         end.
  done.
Qed.

(** Blank lines.  A text that [strip()] empties consists of white space
    only; it has no colon and no letter, so its message type is empty and
    [get_event] returns [None]. *)
Lemma rstrip_empty (p : ascii -> bool) (s : string) :
  Str.rstrip p s = "" -> Str.lstrip p s = "".
Proof.
  induction s as [|c s IH]; simpl; [done|].
  destruct (Str.rstrip p s); [|done].
  destruct (p c); [|done]. intros _. by apply IH.
Qed.

Lemma strip_empty (p : ascii -> bool) (s : string) :
  Str.strip p s = "" -> Str.lstrip p s = "".
Proof.
  unfold Str.strip. intros H. apply rstrip_empty in H.
  induction s as [|c s IH]; simpl in *; [done|].
  destruct (p c) eqn:Ep; [by apply IH|].
  simpl in H. by rewrite Ep in H.
Qed.

Lemma blank_split1 (s : string) :
  Str.lstrip Str.is_space s = "" -> Str.split1 ":" s = [s].
Proof.
  induction s as [|c s IH]; simpl; [done|].
  destruct (Str.is_space c) eqn:Ec; [|done]. intros H.
  destruct (Ascii.eqb_spec c ":") as [->|_]; [done|].
  by rewrite IH.
Qed.

Lemma blank_upper (s : string) :
  Str.lstrip Str.is_space s = "" -> Str.upper s = s.
Proof.
  induction s as [|c s IH]; simpl; [done|].
  destruct (Str.is_space c) eqn:Ec; [|done]. intros H.
  unfold Str.upper in *. simpl. rewrite IH by done. f_equal.
  unfold Str.upper_char, Str.is_space in *.
  destruct (Z.leb_spec 97 (Str.code c)); [|done].
  destruct (Z.leb_spec (Str.code c) 13), (Z.leb_spec (Str.code c) 32);
    simpl in Ec; rewrite ?andb_false_r in Ec; try discriminate; lia.
Qed.

Lemma get_event_blank (raw_string : string) :
  Str.strip_space raw_string = "" -> get_event raw_string = Ret None.
Proof.
  intros H. pose proof (strip_empty _ _ H) as Hl.
  unfold get_event, message_type.
  rewrite (blank_split1 _ Hl). simpl. rewrite (blank_upper _ Hl).
  fold (Str.strip_space raw_string). by rewrite H.
Qed.

(** The decoder on the sample lines of the protocol. *)
Example decode_progress_value :
  get_event "PRGV:500,1000,2000"
  = Ret (Some (ProgressValueEvent 500 1000 2000 (1 # 4) (1 # 2))).
Proof. reflexivity. Qed.

Example decode_duration :
  get_event ("TINFO:3,9,0," ++ quoted "1:02:03.5")
  = Ret (Some (TitleInfoEvent
                 (mkInfo Duration 0 ["1:02:03.5"] "1:02:03.5"
                    (VDuration (7447 # 2))) 3)).
Proof. reflexivity. Qed.

Example decode_blank :
  get_event "" = Ret None /\ get_event "   " = Ret None.
Proof. split; reflexivity. Qed.

Example decode_unknown :
  get_event "hello, world" = Ret (Some (UnknownEvent ["hello"; " world"])).
Proof. reflexivity. Qed.

(** A line of a known tag with the wrong number of fields is a
    TypeError of the call [cls( *raw_params)]. *)
Example decode_wrong_arity :
  get_event "PRGV:1,2" = Raise TypeError /\
  get_event "TCOUT:1,2" = Raise TypeError.
Proof. split; reflexivity. Qed.

(** *** Claims about the decoder *)

(** C6, as the claim states it, fails.  On the line
    MSG:1,0,0,DQUOTE Hello world DQUOTE,0 the code, the flags and the count
    of the event are the texts 1, 0 and 0 of the line, not the numbers:
    [MessageEvent.__init__] stores the three fields as it gets them, and
    Python's [==] does not make the text 1 equal to the int 1. *)
Lemma hello_message_fields_are_text :
  exists event,
    get_event hello_line = Ret (Some event) /\
    message_attribute event "code" = Some (OStr "1") /\
    message_attribute event "flags" = Some (OStr "0") /\
    message_attribute event "count" = Some (OStr "0") /\
    py_eq (OStr "1") (OInt 1) = false /\
    py_eq (OStr "0") (OInt 0) = false /\
    message_attribute event "code" <> Some (OInt 1) /\
    message_attribute event "flags" <> Some (OInt 0) /\
    message_attribute event "count" <> Some (OInt 0).
Proof. eexists. split; [reflexivity|]. by repeat split. Qed.

(** C6, amended.  [get_event] on the line
    MSG:1,0,0,DQUOTE Hello world DQUOTE,0 returns a Message event whose
    code, flags and count are the texts 1, 0 and 0, whose message is the
    text Hello world with the surrounding quotes stripped, whose
    format_code is the text 0, and whose list of parameters is empty. *)
Theorem decode_hello_message :
  hello_line
  = ("MSG:1,0,0," ++ String "034" "Hello world" ++ String "034" ",0")%string /\
  exists event,
    get_event hello_line = Ret (Some event) /\
    event = MessageEvent "1" "0" "0" "Hello world" "0" [] /\
    message_attribute event "code" = Some (OStr "1") /\
    message_attribute event "flags" = Some (OStr "0") /\
    message_attribute event "count" = Some (OStr "0") /\
    message_attribute event "message" = Some (OStr "Hello world") /\
    message_attribute event "format_code" = Some (OStr "0") /\
    message_attribute event "parameters" = Some (OList []).
Proof. split; [reflexivity|]. eexists. by repeat split. Qed.

(** C5, as the claim states it, fails: the line PRGV:5,7,2 decodes without
    error to a ProgressValue event with current = 5 and total = 7 above
    limit = 2, and PRGV:-1,2,3 to one with a negative current. *)
Lemma progress_value_out_of_bounds :
  get_event "PRGV:5,7,2"
  = Ret (Some (ProgressValueEvent 5 7 2 (5 # 2) (7 # 2))) /\
  ~ (0 <= 5 <= 2) /\ ~ (0 <= 7 <= 2) /\
  get_event "PRGV:-1,2,3"
  = Ret (Some (ProgressValueEvent (-1) 2 3 (-1 # 3) (2 # 3))) /\
  ~ (0 <= -1 <= 3).
Proof. repeat split; lia. Qed.

(** C5, amended.  For every ProgressValue event the decoder emits, limit
    is not 0 and is the common scale of both fractions:
    current_fraction = current / limit and total_fraction = total / limit.
    (No bound relates current and total to limit.) *)
Theorem progress_value_scale (raw_string : string)
    (current total limit : Z) (current_fraction total_fraction : Q) :
  get_event raw_string =
    Ret (Some (ProgressValueEvent current total limit
                 current_fraction total_fraction)) ->
  limit <> 0 /\
  (current_fraction == inject_Z current / inject_Z limit)%Q /\
  (total_fraction == inject_Z total / inject_Z limit)%Q.
Proof.
  intros H. apply get_event_progress_value in H as (Hl & -> & ->).
  split; [done|]. split; apply Qred_correct.
Qed.

Lemma progress_value_scale_witness :
  2000 <> 0 /\
  ((1 # 4) == inject_Z 500 / inject_Z 2000)%Q /\
  ((1 # 2) == inject_Z 1000 / inject_Z 2000)%Q.
Proof.
  apply (progress_value_scale "PRGV:500,1000,2000" 500 1000 2000).
  reflexivity.
Defined.

End EventsFacts.

(** ** The command runner *)

Module SourcesFacts.
Import Events Sources EventsSpec SourcesSpec EventsFacts Samples.
Local Open Scope list_scope.

Lemma emit_pushed (item : Item) (st : Source * list Item) :
  emit item st = pushed [item] st.
Proof. by destruct st. Qed.

Lemma pushed_nil (st : Source * list Item) : pushed [] st = st.
Proof. destruct st as [[] h]. unfold pushed. simpl. by rewrite !app_nil_r. Qed.

Lemma pushed_pushed (xs ys : list Item) (st : Source * list Item) :
  pushed ys (pushed xs st) = pushed (xs ++ ys) st.
Proof. unfold pushed. simpl. by rewrite !app_assoc. Qed.

(** ASCII bytes are well-formed UTF-8, and decode to themselves. *)
Lemma is_ascii_valid_utf8 (s : string) :
  Str.is_ascii s = true -> Str.valid_utf8 s = true.
Proof.
  induction s as [|c s IH]; [done|]. simpl.
  intros [Hc Hs]%andb_prop. unfold Str.is_ascii_char in Hc. rewrite Hc.
  by apply IH.
Qed.

Lemma decode_utf8_ascii (s : string) :
  Str.is_ascii s = true -> Str.decode_utf8 s = Ret s.
Proof.
  intros H. unfold Str.decode_utf8. by rewrite is_ascii_valid_utf8.
Qed.

Lemma decode_utf8_inv (bytes text : string) :
  Str.decode_utf8 bytes = Ret text ->
  text = bytes /\ Str.valid_utf8 bytes = true.
Proof.
  unfold Str.decode_utf8. destruct (Str.valid_utf8 bytes); [|done].
  by intros [= <-].
Qed.

(** On an ASCII line, [line_event] is [get_event] on the line without its
    line end. *)
Lemma line_event_ascii (byte_line : string) :
  Str.is_ascii byte_line = true ->
  line_event byte_line = get_event (Str.rstrip_crlf byte_line).
Proof.
  intros H. unfold line_event. by rewrite decode_utf8_ascii.
Qed.

Lemma line_event_inv (byte_line : string) (item : option Event) :
  line_event byte_line = Ret item ->
  get_event (Str.rstrip_crlf byte_line) = Ret item.
Proof.
  unfold line_event. destruct (Str.decode_utf8 byte_line) as [line|] eqn:E;
    [|done].
  apply decode_utf8_inv in E as [-> _]. done.
Qed.

(** While every read decodes, the loop pushes the decoded events. *)
Lemma read_loop_decodes (rs : list Read) (st : Source * list Item) :
  forallb decodes rs = true ->
  read_loop rs st = (pushed (decoded rs) st, None).
Proof.
  revert st. induction rs as [|[|byte_line] rs IH]; intros st H; simpl in *.
  - by rewrite pushed_nil.
  - by apply IH.
  - unfold decoded. simpl.
    destruct (line_event byte_line) as [[event|]|];
      [| | discriminate ].
    + rewrite IH by done. by rewrite emit_pushed, pushed_pushed.
    + by apply IH.
Qed.

(** The loop stops at the first line that cannot be decoded or on which
    [get_event] raises. *)
Lemma read_loop_raise (pre post : list Read) (byte_line : string) (e : Exn)
    (st : Source * list Item) :
  forallb decodes pre = true ->
  line_event byte_line = Raise e ->
  read_loop (pre ++ ReadLine byte_line :: post) st
  = (pushed (decoded pre) st, Some e).
Proof.
  revert st. induction pre as [|[|l] pre IH]; intros st H He; simpl in *.
  - by rewrite He, pushed_nil.
  - by apply IH.
  - unfold decoded. simpl.
    destruct (line_event l) as [[event|]|];
      [| | discriminate ].
    + rewrite IH by done. by rewrite emit_pushed, pushed_pushed.
    + by apply IH.
Qed.

(** The exception leaves [run_command]: nothing of [post] is decoded, and
    the queue holds the Start event and the events decoded before. *)
Lemma run_command_raise (os : Spawn) (args : list string) (self : Source)
    (process : Process) (pre post : list Read) (byte_line : string)
    (e : Exn) :
  os (PROGRAM :: args) = Ret process ->
  reads process = pre ++ ReadLine byte_line :: post ->
  forallb decodes pre = true ->
  line_event byte_line = Raise e ->
  run_command os args self
  = (after_run self (Some (StartEvent (command_counter self)) :: decoded pre),
     Raise e).
Proof.
  intros Hos Hr Hpre He. unfold run_command. rewrite Hos, Hr.
  rewrite (read_loop_raise _ _ _ _ _ Hpre He). destruct self. simpl.
  unfold after_run. simpl. by rewrite <- app_assoc.
Qed.

(** The drain loop pushes whatever [get_event] returns, and stops at the
    first line on which it raises. *)
Lemma drain_decodes (lines : list string) (st : Source * list Item) :
  forallb line_decodes lines = true ->
  drain lines st = (pushed (drained lines) st, None).
Proof.
  revert st. induction lines as [|l lines IH]; intros st H; simpl in *.
  - by rewrite pushed_nil.
  - unfold drained, line_decodes in *. simpl.
    destruct (get_event (Str.rstrip_crlf l)) as [item|]; [|discriminate].
    rewrite IH by done. by rewrite emit_pushed, pushed_pushed.
Qed.

Lemma drain_raise (pre post : list string) (line : string) (e : Exn)
    (st : Source * list Item) :
  forallb line_decodes pre = true ->
  get_event (Str.rstrip_crlf line) = Raise e ->
  drain (pre ++ line :: post) st = (pushed (drained pre) st, Some e).
Proof.
  revert st. induction pre as [|l pre IH]; intros st H He; simpl in *.
  - by rewrite He, pushed_nil.
  - unfold drained, line_decodes in *. simpl.
    destruct (get_event (Str.rstrip_crlf l)) as [item|]; [|discriminate].
    rewrite IH by done. by rewrite emit_pushed, pushed_pushed.
Qed.

(** A run in which every line decodes: the history is the Start event,
    the events of the lines read, whatever the drained lines gave, and the
    Stop event; the queue has received the same items. *)
Lemma run_command_completes (os : Spawn) (args : list string) (self : Source)
    (process : Process) :
  os (PROGRAM :: args) = Ret process ->
  forallb decodes (reads process) = true ->
  Str.valid_utf8 (remaining process) = true ->
  forallb line_decodes (Str.splitlines (remaining process)) = true ->
  let n := command_counter self in
  let history :=
    Some (StartEvent n) :: decoded (reads process)
      ++ drained (Str.splitlines (remaining process))
      ++ [Some (StopEvent n)] in
  run_command os args self = (after_run self history, Ret (n, history)).
Proof.
  intros Hos Hr Hv Hd. unfold run_command, Str.decode_utf8. rewrite Hos, Hv.
  rewrite (read_loop_decodes _ _ Hr), (drain_decodes _ _ Hd).
  rewrite !emit_pushed, !pushed_pushed. destruct self.
  unfold pushed, after_run. simpl. by rewrite <- ?app_assoc.
Qed.

(** The same exception out of the drain loop. *)
Lemma run_command_raise_in_drain (os : Spawn) (args : list string)
    (self : Source) (process : Process) (pre post : list string)
    (line : string) (e : Exn) :
  os (PROGRAM :: args) = Ret process ->
  forallb decodes (reads process) = true ->
  Str.valid_utf8 (remaining process) = true ->
  Str.splitlines (remaining process) = pre ++ line :: post ->
  forallb line_decodes pre = true ->
  get_event (Str.rstrip_crlf line) = Raise e ->
  run_command os args self
  = (after_run self
       (Some (StartEvent (command_counter self))
          :: decoded (reads process) ++ drained pre),
     Raise e).
Proof.
  intros Hos Hr Hv Hs Hpre He. unfold run_command, Str.decode_utf8.
  rewrite Hos, Hv, Hs.
  rewrite (read_loop_decodes _ _ Hr), (drain_raise _ _ _ _ _ Hpre He).
  rewrite !emit_pushed, !pushed_pushed. destruct self.
  unfold pushed, after_run. simpl. by rewrite <- ?app_assoc.
Qed.

(** A blank line among the drained lines is pushed as [None]; a blank
    line among the lines read is not. *)
Lemma drained_blank (lines : list string) (line : string) :
  line ∈ lines ->
  Str.strip_space (Str.rstrip_crlf line) = "" ->
  None ∈ drained lines.
Proof.
  intros Hin Hb. unfold drained. apply list_elem_of_omap.
  exists line. split; [done|]. by rewrite (get_event_blank _ Hb).
Qed.

Lemma decoded_no_none (rs : list Read) : None ∉ decoded rs.
Proof.
  unfold decoded. intros (r & _ & H)%list_elem_of_omap.
  destruct r; [done|]. by destruct (line_event _) as [[]|].
Qed.

Lemma decoded_from_decoder (rs : list Read) :
  Forall from_decoder (decoded rs).
Proof.
  induction rs as [|[|byte_line] rs IH]; unfold decoded; simpl;
    [constructor | done |].
  destruct (line_event _) as [[event|]|] eqn:E; try done.
  constructor; [|done]. intros n. apply line_event_inv in E.
  destruct (get_event_not_boundary _ _ E n). split; congruence.
Qed.

(** What the two loops put on the queue comes from the decoder. *)
Lemma read_loop_items (rs : list Read) (st st' : Source * list Item)
    (r : option Exn) :
  read_loop rs st = (st', r) ->
  exists items, st' = pushed items st /\ Forall from_decoder items.
Proof.
  revert st. induction rs as [|[|byte_line] rs IH]; intros st H; simpl in H.
  - inversion H; subst. exists []. by rewrite pushed_nil.
  - by apply IH.
  - destruct (line_event _) as [[event|]|] eqn:E.
    + apply IH in H as (items & -> & Hi). exists (Some event :: items).
      rewrite emit_pushed, pushed_pushed. split; [done|].
      constructor; [|done]. intros n. apply line_event_inv in E.
      destruct (get_event_not_boundary _ _ E n). split; congruence.
    + by apply IH.
    + inversion H; subst. exists []. by rewrite pushed_nil.
Qed.

Lemma drain_items (lines : list string) (st st' : Source * list Item)
    (r : option Exn) :
  drain lines st = (st', r) ->
  exists items, st' = pushed items st /\ Forall from_decoder items.
Proof.
  revert st. induction lines as [|line lines IH]; intros st H; simpl in H.
  - inversion H; subst. exists []. by rewrite pushed_nil.
  - destruct (get_event _) as [item|] eqn:E.
    + apply IH in H as (items & -> & Hi). exists (item :: items).
      rewrite emit_pushed, pushed_pushed. split; [done|].
      constructor; [|done]. intros n. destruct item as [event|]; [|done].
      destruct (get_event_not_boundary _ _ E n). split; congruence.
    + inversion H; subst. exists []. by rewrite pushed_nil.
Qed.

Ltac stop_cases Hin Hn :=
  repeat first [ apply elem_of_app in Hn as [Hn|Hn]
               | apply elem_of_cons in Hn as [Hn|Hn]
               | apply elem_of_nil in Hn ];
  try done; try (inversion Hn; done);
  try (exfalso; eapply Hin; [| exact Hn]; assumption).

(** One call: the counter moves up by one, and every Stop event put on
    the queue carries the number the call was given. *)
Lemma run_command_items (os : Spawn) (args : list string) (self : Source) :
  exists items,
    (run_command os args self).1 = after_run self items /\
    forall n, Some (StopEvent n) ∈ items -> n = command_counter self.
Proof.
  unfold run_command.
  set (st0 := emit _ _).
  assert (Hst0 : st0 = pushed [Some (StartEvent (command_counter self))]
            (mkSource (source_type self) (source_string self)
               (command_counter self + 1) (event_queue self), [])).
  { unfold st0. by rewrite emit_pushed. }
  clearbody st0.
  assert (Hin : forall items n, Forall from_decoder items ->
                  Some (StopEvent n) ∈ items -> False).
  { intros items n Hf Hn. rewrite Forall_forall in Hf.
    by destruct (Hf _ Hn n). }
  destruct (os _) as [process|e].
  { destruct (read_loop _ st0) as [st1 r1] eqn:E1.
    apply read_loop_items in E1 as (i1 & -> & H1).
    destruct r1 as [e|].
    { subst st0. unfold pushed, after_run. simpl. rewrite <- ?app_assoc.
      eexists; split; [done|]. intros n Hn. stop_cases Hin Hn. }
    destruct (Str.decode_utf8 _) as [stdout|e].
    2:{ subst st0. unfold pushed, after_run. simpl. rewrite <- ?app_assoc.
        eexists; split; [done|]. intros n Hn. stop_cases Hin Hn. }
    destruct (drain _ _) as [st2 r2] eqn:E2.
    apply drain_items in E2 as (i2 & -> & H2).
    destruct r2 as [e|].
    { subst st0. unfold pushed, after_run. simpl. rewrite <- ?app_assoc.
      eexists; split; [done|]. intros n Hn. stop_cases Hin Hn. }
    subst st0. rewrite emit_pushed. unfold pushed, after_run. simpl.
    rewrite <- ?app_assoc.
    eexists; split; [done|]. intros n Hn. stop_cases Hin Hn. }
  subst st0. unfold pushed, after_run. simpl.
  eexists; split; [done|]. intros n Hn. stop_cases Hin Hn.
Qed.

(** Later calls never put a Stop event of an earlier number on the queue. *)
Lemma run_many_items (calls : list (Spawn * list string)) (self : Source) :
  exists items,
    event_queue (run_many calls self) = event_queue self ++ items /\
    command_counter self <= command_counter (run_many calls self) /\
    forall n, Some (StopEvent n) ∈ items -> command_counter self <= n.
Proof.
  revert self. induction calls as [|[os args] calls IH]; intros self.
  - exists []. simpl. rewrite app_nil_r. split; [done|]. split; [lia|].
    intros n Hn. by apply elem_of_nil in Hn.
  - simpl. destruct (run_command_items os args self) as (i1 & E1 & H1).
    destruct (IH (run_command os args self).1) as (i2 & E2 & Hc & H2).
    rewrite E1 in *. simpl in *. exists (i1 ++ i2).
    rewrite E2, app_assoc. split; [done|]. split; [lia|].
    intros n [Hn | Hn]%elem_of_app.
    + apply H1 in Hn. lia.
    + apply H2 in Hn. lia.
Qed.

(** *** Claims about [run_command] *)

(** C1, as the claim states it, fails.  The tool prints a title count, an
    info line with the attribute id 999, and another title count: the
    ValueError of the second line leaves [run_command]; the third line is
    never decoded and no Stop event is put on the queue.  A malformed int
    (ChapterCount) and a malformed duration raise alike. *)
Lemma unknown_attribute_aborts_run :
  run_command (tool (mkProcess unknown_attribute_reads "")) [] sr0
  = (mkSource "dev" "/dev/sr0" 1
       [Some (StartEvent 0); Some (TitleCountEvent "1")],
     Raise ValueError) /\
  ~ (exists result,
        (run_command (tool (mkProcess unknown_attribute_reads "")) [] sr0).2
        = Ret result) /\
  get_event "TCOUT:2" = Ret (Some (TitleCountEvent "2")) /\
  get_event "CINFO:999,0,x" = Raise ValueError /\
  get_event "TINFO:0,8,0,many" = Raise ValueError /\
  get_event "TINFO:0,9,0,1:02" = Raise ValueError.
Proof. repeat split. by intros [result H]. Qed.

(** C1, amended.  For every ASCII info line (CINFO/TINFO/SINFO) whose
    attribute id is outside the ItemAttribute enumeration, or whose
    int-valued or duration-valued field is malformed, [get_event] raises
    the exception of the fault and builds no event: a ValueError, except
    for a duration whose three pieces read and whose seconds are infinite
    or whose total is out of a timedelta's range, which is an
    OverflowError (when the code of the line reads as an int).
    [run_command] does not catch it: when the line is read, the exception
    leaves [run_command], the lines after it are not decoded, and the
    queue holds the Start event and the events decoded before, without a
    Stop event. *)
Theorem faulty_info_line_aborts_run (os : Spawn) (args : list string)
    (self : Source) (process : Process) (pre post : list Read)
    (byte_line : string) (e : Exn) :
  os (PROGRAM :: args) = Ret process ->
  reads process = pre ++ ReadLine byte_line :: post ->
  forallb ascii_read pre = true ->
  forallb decodes pre = true ->
  Str.is_ascii byte_line = true ->
  faulty_info_line (Str.rstrip_crlf byte_line) e ->
  (e = ValueError \/ e = OverflowError) /\
  get_event (Str.rstrip_crlf byte_line) = Raise e /\
  run_command os args self
  = (after_run self
       (Some (StartEvent (command_counter self)) :: decoded pre),
     Raise e) /\
  forall n, Some (StopEvent n) ∉ decoded pre.
Proof.
  intros Hos Hr _ Hpre Ha Hf.
  destruct (faulty_info_line_raises _ _ Hf) as [He Hx].
  do 2 (split; [done|]). split.
  - eapply run_command_raise; [done.. |]. by rewrite line_event_ascii.
  - intros n Hn. pose proof (decoded_from_decoder pre) as Hd.
    rewrite Forall_forall in Hd. by destruct (Hd _ Hn n).
Qed.

Lemma faulty_info_line_aborts_run_witness :
  ((ValueError = ValueError \/ ValueError = OverflowError) /\
   get_event (Str.rstrip_crlf ("CINFO:999,0,x" ++ LF)) = Raise ValueError /\
   run_command (tool (mkProcess unknown_attribute_reads "")) [] sr0
   = (after_run sr0
        (Some (StartEvent (command_counter sr0))
           :: decoded [line "TCOUT:1"]),
      Raise ValueError) /\
   forall n, Some (StopEvent n) ∉ decoded [line "TCOUT:1"]) /\
  ((OverflowError = ValueError \/ OverflowError = OverflowError) /\
   get_event (Str.rstrip_crlf ("TINFO:0,9,0,24000000000:0:0" ++ LF))
   = Raise OverflowError /\
   run_command (tool (mkProcess overlong_duration_reads "")) [] sr0
   = (after_run sr0
        (Some (StartEvent (command_counter sr0))
           :: decoded [line "TCOUT:1"]),
      Raise OverflowError) /\
   forall n, Some (StopEvent n) ∉ decoded [line "TCOUT:1"]).
Proof.
  split.
  - apply (faulty_info_line_aborts_run
             (tool (mkProcess unknown_attribute_reads "")) [] sr0
             (mkProcess unknown_attribute_reads "")
             [line "TCOUT:1"] [line "TCOUT:2"] ("CINFO:999,0,x" ++ LF)
             ValueError).
    + reflexivity.
    + reflexivity.
    + reflexivity.
    + reflexivity.
    + reflexivity.
    + exists "999", "0", ["x"]. split; [reflexivity|].
      apply (unknown_attribute _ _ _ 999); reflexivity.
  - apply (faulty_info_line_aborts_run
             (tool (mkProcess overlong_duration_reads "")) [] sr0
             (mkProcess overlong_duration_reads "")
             [line "TCOUT:1"] [line "TCOUT:2"]
             ("TINFO:0,9,0,24000000000:0:0" ++ LF) OverflowError).
    + reflexivity.
    + reflexivity.
    + reflexivity.
    + reflexivity.
    + reflexivity.
    + exists "9", "0", ["24000000000:0:0"]. split; [reflexivity|].
      apply (malformed_duration _ _ _ 9 0); [reflexivity.. |].
      apply (out_of_range _ "24000000000" "0" "0" 24000000000 0 0);
        reflexivity.
Defined.

(** C2, as the claim states it, fails: on PRGV:1,2,0 [get_event] raises
    the ZeroDivisionError of the division itself, and that exception
    leaves [run_command] as it does for any other exception of the
    decoder. *)
Lemma zero_limit_division_error :
  get_event "PRGV:1,2,0" = Raise ZeroDivisionError /\
  run_command (tool (mkProcess zero_limit_reads "")) [] sr0
  = (mkSource "dev" "/dev/sr0" 1
       [Some (StartEvent 0); Some (TitleCountEvent "1")],
     Raise ZeroDivisionError) /\
  ~ (exists result,
        (run_command (tool (mkProcess zero_limit_reads "")) [] sr0).2
        = Ret result).
Proof. repeat split. by intros [result H]. Qed.

(** C2, amended.  For every ASCII PRGV line with three fields whose
    third field (limit) reads as 0, [get_event] raises and builds no event
    (so no ProgressValue event and no NaN fraction): the exception is
    Python's own ZeroDivisionError when current and total read as ints,
    and the ValueError of [int] when one of them does not.  [run_command]
    does not catch it: when the line is read the exception leaves
    [run_command], with no Stop event on the queue. *)
Theorem zero_limit_line_aborts_run (os : Spawn) (args : list string)
    (self : Source) (process : Process) (pre post : list Read)
    (byte_line current total : string) :
  os (PROGRAM :: args) = Ret process ->
  reads process = pre ++ ReadLine byte_line :: post ->
  forallb ascii_read pre = true ->
  forallb decodes pre = true ->
  Str.is_ascii byte_line = true ->
  zero_limit_line (Str.rstrip_crlf byte_line) current total ->
  let e := if reads_as_int current && reads_as_int total
           then ZeroDivisionError else ValueError in
  get_event (Str.rstrip_crlf byte_line) = Raise e /\
  run_command os args self
  = (after_run self
       (Some (StartEvent (command_counter self)) :: decoded pre),
     Raise e) /\
  forall n, Some (StopEvent n) ∉ decoded pre.
Proof.
  intros Hos Hr _ Hpre Ha Hz e.
  pose proof (zero_limit_line_raises _ _ _ Hz) as He.
  split; [done|]. split.
  - eapply run_command_raise; [done.. |]. by rewrite line_event_ascii.
  - intros n Hn. pose proof (decoded_from_decoder pre) as Hf.
    rewrite Forall_forall in Hf. by destruct (Hf _ Hn n).
Qed.

Lemma zero_limit_line_aborts_run_witness :
  (get_event (Str.rstrip_crlf ("PRGV:1,2,0" ++ LF)) = Raise ZeroDivisionError /\
   run_command (tool (mkProcess zero_limit_reads "")) [] sr0
   = (after_run sr0
        (Some (StartEvent (command_counter sr0))
           :: decoded [line "TCOUT:1"]),
      Raise ZeroDivisionError) /\
   forall n, Some (StopEvent n) ∉ decoded [line "TCOUT:1"]) /\
  (get_event (Str.rstrip_crlf ("PRGV:x,2,0" ++ LF)) = Raise ValueError /\
   run_command (tool (mkProcess zero_limit_no_current_reads "")) [] sr0
   = (after_run sr0
        (Some (StartEvent (command_counter sr0))
           :: decoded [line "TCOUT:1"]),
      Raise ValueError) /\
   forall n, Some (StopEvent n) ∉ decoded [line "TCOUT:1"]).
Proof.
  split.
  - apply (zero_limit_line_aborts_run
             (tool (mkProcess zero_limit_reads "")) [] sr0
             (mkProcess zero_limit_reads "")
             [line "TCOUT:1"] [line "TCOUT:2"] ("PRGV:1,2,0" ++ LF)
             "1" "2").
    + reflexivity.
    + reflexivity.
    + reflexivity.
    + reflexivity.
    + reflexivity.
    + split; [reflexivity|]. exists "0". split; reflexivity.
  - apply (zero_limit_line_aborts_run
             (tool (mkProcess zero_limit_no_current_reads "")) [] sr0
             (mkProcess zero_limit_no_current_reads "")
             [line "TCOUT:1"] [line "TCOUT:2"] ("PRGV:x,2,0" ++ LF)
             "x" "2").
    + reflexivity.
    + reflexivity.
    + reflexivity.
    + reflexivity.
    + reflexivity.
    + split; [reflexivity|]. exists "0". split; reflexivity.
Defined.

(** C4.  The code departs from the claim.  A blank line still buffered
    when the process has exited is pushed as [None] on the queue and
    appended as [None] to the history, between the Start and the Stop
    event; the same blank line read before the exit is skipped. *)
Theorem drain_pushes_none (args : list string) (self : Source) :
  let n := command_counter self in
  run_command (tool (mkProcess [] LF)) args self
  = (after_run self [Some (StartEvent n); None; Some (StopEvent n)],
     Ret (n, [Some (StartEvent n); None; Some (StopEvent n)])) /\
  run_command (tool (mkProcess [ReadLine LF] "")) args self
  = (after_run self [Some (StartEvent n); Some (StopEvent n)],
     Ret (n, [Some (StartEvent n); Some (StopEvent n)])).
Proof.
  destruct self. unfold run_command, after_run. simpl.
  by rewrite <- !app_assoc.
Qed.

(** C9.  When the tool cannot be spawned, the error leaves [run_command]
    after the Start event of the new command number has been put on the
    queue and the command counter has been incremented; no Stop event of
    that number is put on the queue, neither by this call nor by any
    later call of [run_command]. *)
Theorem spawn_failure_leaves_start (os : Spawn) (args : list string)
    (self : Source) (e : Exn) :
  os (PROGRAM :: args) = Raise e ->
  let n := command_counter self in
  let self' := (run_command os args self).1 in
  (run_command os args self).2 = Raise e /\
  event_queue self' = event_queue self ++ [Some (StartEvent n)] /\
  command_counter self' = n + 1 /\
  forall calls, exists later,
    event_queue (run_many calls self') = event_queue self' ++ later /\
    Some (StopEvent n) ∉ later.
Proof.
  intros Hos. unfold run_command. rewrite Hos. simpl.
  do 3 (split; [done|]). intros calls.
  set (n := command_counter self).
  destruct (run_many_items calls
              (mkSource (source_type self) (source_string self) (n + 1)
                 (event_queue self ++ [Some (StartEvent n)])))
    as (later & Hq & _ & Hs).
  exists later. split; [done|]. intros Hn. apply Hs in Hn. simpl in Hn. lia.
Qed.

Lemma spawn_failure_leaves_start_witness :
  let n := command_counter sr0 in
  let self' := (run_command no_tool ["info"] sr0).1 in
  (run_command no_tool ["info"] sr0).2 = Raise (OSError ENOENT) /\
  event_queue self' = event_queue sr0 ++ [Some (StartEvent n)] /\
  command_counter self' = n + 1 /\
  forall calls, exists later,
    event_queue (run_many calls self') = event_queue self' ++ later /\
    Some (StopEvent n) ∉ later.
Proof.
  apply (spawn_failure_leaves_start no_tool ["info"] sr0 (OSError ENOENT)).
  reflexivity.
Defined.

End SourcesFacts.

(** ** The drive controller *)

Module DriveFacts.
Import Drive DriveSpec.
Local Open Scope list_scope.

Lemma busy_rounds_S (k : nat) (fd request arg : Z) :
  busy_rounds (S k) fd request arg
  = [Ioctl fd request arg; Sleep BUSY_DELAY] ++ busy_rounds k fd request arg.
Proof. reflexivity. Qed.

(** [k] busy answers take [k] turns of the loop. *)
Lemma ioctl_loop_busy (k fuel : nat) (dev : Device) (cursor : nat)
    (fd request arg : Z) (effects : list Effect) :
  (forall i, (i < k)%nat -> dev (cursor + i)%nat = Fails EBUSY) ->
  ioctl_loop (k + fuel) dev cursor fd request arg effects
  = ioctl_loop fuel dev (cursor + k) fd request arg
      (effects ++ busy_rounds k fd request arg).
Proof.
  revert cursor effects. induction k as [|k IH]; intros cursor effects Hbusy.
  - simpl. by rewrite Nat.add_0_r, app_nil_r.
  - simpl. pose proof (Hbusy 0%nat ltac:(lia)) as H0.
    rewrite Nat.add_0_r in H0. rewrite H0. simpl.
    rewrite IH.
    + rewrite busy_rounds_S, <- app_assoc. f_equal. lia.
    + intros i Hi. rewrite <- (Hbusy (S i)) by lia. f_equal. lia.
Qed.

Lemma ioctl_loop_still_busy (k fuel : nat) (dev : Device) (cursor : nat)
    (fd request arg : Z) (effects : list Effect) :
  (forall i, (i < k)%nat -> dev (cursor + i)%nat = Fails EBUSY) ->
  (fuel <= k)%nat ->
  ioctl_loop fuel dev cursor fd request arg effects = None.
Proof.
  revert k cursor effects. induction fuel as [|fuel IH];
    intros k cursor effects Hbusy Hle; [done|].
  simpl. pose proof (Hbusy 0%nat ltac:(lia)) as H0.
  rewrite Nat.add_0_r in H0. rewrite H0. simpl.
  apply (IH (k - 1)%nat); [|lia].
  intros i Hi. rewrite <- (Hbusy (S i)) by lia. f_equal. lia.
Qed.

Lemma perform_run_ioctl (fuel : nat) (dev : Device) (cursor : nat)
    (call : HardwareCall) :
  perform fuel dev cursor call
  = run_ioctl fuel dev cursor (request_of call).1 (request_of call).2.
Proof. by destruct call. Qed.

(** [os.open] stands outside the retry loop: when it fails, with
    whatever errno, the OSError leaves [run_ioctl] and no ioctl is made. *)
Lemma open_failure_propagates (fuel : nat) (dev : Device) (cursor : nat)
    (call : HardwareCall) (errno : Z) :
  dev cursor = Fails errno ->
  perform fuel dev cursor call = Some (Raise (OSError errno), S cursor, [Open]).
Proof.
  intros H. rewrite perform_run_ioctl. unfold run_ioctl. by rewrite H.
Qed.

(** C8, as the claim states it, fails.  A device that is busy when
    [run_ioctl] opens it: the OSError with errno EBUSY of [os.open] leaves
    the call at once, for each of the four hardware calls, without a
    sleep and without a second attempt, although the device would have
    answered the next call. *)
Lemma busy_at_open_is_fatal :
  perform 10 busy_at_open 0 StatusQuery
  = Some (Raise (OSError EBUSY), 1%nat, [Open]) /\
  perform 10 busy_at_open 0 Eject
  = Some (Raise (OSError EBUSY), 1%nat, [Open]) /\
  perform 10 busy_at_open 0 CloseTray
  = Some (Raise (OSError EBUSY), 1%nat, [Open]) /\
  perform 10 busy_at_open 0 (DoorLock true)
  = Some (Raise (OSError EBUSY), 1%nat, [Open]) /\
  busy_at_open 1%nat = Returns 3 /\
  busy_at_open 2%nat = Returns Cdrom.CDS_DISC_OK /\
  perform 10 busy_at_open 1 StatusQuery
  = Some (Ret Cdrom.CDS_DISC_OK, 3%nat,
          [Open; Ioctl 3 Cdrom.CDROM_DRIVE_STATUS 0; Close 3]).
Proof. by repeat split. Qed.

(** C8, amended.  Every hardware control call (status query, eject,
    close tray, door lock) goes through [run_ioctl], which opens the
    device and then repeats the ioctl.  An error of the opening, device
    busy included, is fatal: the OSError leaves the call and no ioctl is
    made.  Once the device is open, a busy answer to the ioctl is retried,
    each time after a sleep of 0.1 s = 100 ms, and the loop never gives
    up: after [k] busy answers the call returns the value of the first
    answer that succeeds, or raises the OSError of the first answer that
    fails otherwise, which then leaves [run_ioctl] (the descriptor is not
    closed on that path). *)
Theorem busy_ioctl_retried_other_errors_fatal (dev : Device) (cursor : nat)
    (call : HardwareCall) :
  let request := (request_of call).1 in
  let arg := (request_of call).2 in
  (forall errno fuel,
     dev cursor = Fails errno ->
     perform fuel dev cursor call
     = Some (Raise (OSError errno), S cursor, [Open])) /\
  (forall fd k,
     dev cursor = Returns fd ->
     (forall i, (i < k)%nat -> dev (S cursor + i)%nat = Fails EBUSY) ->
     let rounds := busy_rounds k fd request arg in
     (forall fuel, (fuel <= k)%nat -> perform fuel dev cursor call = None) /\
     (forall result fuel,
        dev (S cursor + k)%nat = Returns result -> (k < fuel)%nat ->
        perform fuel dev cursor call
        = Some (Ret result, S (S cursor + k),
                [Open] ++ rounds ++ [Ioctl fd request arg; Close fd])) /\
     (forall errno fuel,
        dev (S cursor + k)%nat = Fails errno -> errno <> EBUSY ->
        (k < fuel)%nat ->
        perform fuel dev cursor call
        = Some (Raise (OSError errno), S (S cursor + k),
                [Open] ++ rounds ++ [Ioctl fd request arg]))) /\
  (BUSY_DELAY * inject_Z 1000 == inject_Z 100)%Q.
Proof.
  intros request arg. split; [|split; [|reflexivity]].
  { intros errno fuel H. by apply open_failure_propagates. }
  intros fd k Hopen Hbusy rounds.
  split; [|split].
  - intros fuel Hle. rewrite perform_run_ioctl. unfold run_ioctl.
    rewrite Hopen. by apply (ioctl_loop_still_busy k).
  - intros result fuel Hres Hlt. rewrite perform_run_ioctl. unfold run_ioctl.
    rewrite Hopen. replace fuel with (k + S (fuel - S k))%nat by lia.
    rewrite ioctl_loop_busy by done. simpl in *. by rewrite Hres.
  - intros errno fuel Herr Hne Hlt. rewrite perform_run_ioctl.
    unfold run_ioctl.
    rewrite Hopen. replace fuel with (k + S (fuel - S k))%nat by lia.
    rewrite ioctl_loop_busy by done. simpl in *. rewrite Herr.
    by destruct (Z.eqb_spec errno EBUSY).
Qed.

(** The three ways out, on three devices: busy twice and then a status;
    busy once and then another error; busy at the opening. *)
Lemma busy_ioctl_retried_other_errors_fatal_witness :
  (perform 2 busy_twice 0 StatusQuery = None /\
   perform 3 busy_twice 0 StatusQuery
   = Some (Ret Cdrom.CDS_DISC_OK, 4%nat,
           [Open; Ioctl 3 Cdrom.CDROM_DRIVE_STATUS 0; Sleep BUSY_DELAY;
            Ioctl 3 Cdrom.CDROM_DRIVE_STATUS 0; Sleep BUSY_DELAY;
            Ioctl 3 Cdrom.CDROM_DRIVE_STATUS 0; Close 3])) /\
  perform 2 busy_then_no_medium 0 Eject
  = Some (Raise (OSError ENOMEDIUM), 3%nat,
          [Open; Ioctl 3 Cdrom.CDROMEJECT 0; Sleep BUSY_DELAY;
           Ioctl 3 Cdrom.CDROMEJECT 0]) /\
  perform 5 busy_at_open 0 (DoorLock true)
  = Some (Raise (OSError EBUSY), 1%nat, [Open]).
Proof.
  split; [split|split].
  - apply (proj1 (proj2 (busy_ioctl_retried_other_errors_fatal busy_twice 0
                           StatusQuery)) 3 2%nat).
    + reflexivity.
    + intros [|[|i]] Hi; [reflexivity | reflexivity | lia].
    + lia.
  - apply (proj1 (proj2 (busy_ioctl_retried_other_errors_fatal busy_twice 0
                           StatusQuery)) 3 2%nat).
    + reflexivity.
    + intros [|[|i]] Hi; [reflexivity | reflexivity | lia].
    + reflexivity.
    + lia.
  - apply (proj1 (proj2 (busy_ioctl_retried_other_errors_fatal
                           busy_then_no_medium 0 Eject)) 3 1%nat).
    + reflexivity.
    + intros [|i] Hi; [reflexivity | lia].
    + reflexivity.
    + discriminate.
    + lia.
  - apply (proj1 (busy_ioctl_retried_other_errors_fatal busy_at_open 0
                    (DoorLock true))).
    reflexivity.
Defined.

(** C10.  [is_in_state] with a bare status [s] behaves as with the
    singleton set of [s], for every invert flag and every behaviour of the
    device; on a sampled status both answer whether it equals [s], xor
    invert. *)
Theorem bare_status_as_singleton (fuel : nat) (dev : Device) (cursor : nat)
    (s : Z) (invert : bool) :
  is_in_state fuel dev cursor (Bare s) invert
  = is_in_state fuel dev cursor (SetOf {[ s ]}) invert /\
  forall status cursor' effects,
    get_status fuel dev cursor = Some (Ret status, cursor', effects) ->
    is_in_state fuel dev cursor (Bare s) invert
    = Some (Ret (xorb (status =? s) invert), cursor', effects).
Proof.
  split; [done|]. intros status cursor' effects H.
  unfold is_in_state. rewrite H. simpl. do 3 f_equal.
  destruct (Z.eqb_spec status s) as [->|Hne].
  - rewrite bool_decide_eq_true_2; [done | set_solver].
  - rewrite bool_decide_eq_false_2; [done | set_solver].
Qed.

Lemma bare_status_as_singleton_witness :
  is_in_state 3 busy_twice 0 (Bare Cdrom.CDS_DISC_OK) false
  = Some (Ret (xorb (Cdrom.CDS_DISC_OK =? Cdrom.CDS_DISC_OK) false), 4%nat,
          [Open] ++ busy_rounds 2 3 Cdrom.CDROM_DRIVE_STATUS 0
            ++ [Ioctl 3 Cdrom.CDROM_DRIVE_STATUS 0; Close 3]).
Proof.
  apply (bare_status_as_singleton 3 busy_twice 0 Cdrom.CDS_DISC_OK false).
  reflexivity.
Defined.

End DriveFacts.

(** ** The publisher *)

Module MqttFacts.
Import MqttWrapper.
Local Open Scope list_scope.

(** Whatever the configured budget: once the counter is at most 1, a
    failed connection gives up the current message and takes the next
    one, and leaves the counter at most 0, so that the next message is in
    the same position. *)
Lemma spent_budget_drops_at_once (retries : Z) (retry_delay : Q)
    (m m' : Message) (remaining : Z) (rest : list Message) :
  remaining <= 1 ->
  step retries retry_delay (mkWorker false (Some m) remaining (m' :: rest))
    false
  = (mkWorker false (Some m') (remaining - 1) rest,
     [Connect false; Get m'; Sleep retry_delay]) /\
  remaining - 1 <= 1.
Proof.
  intros H. unfold step, on_error. simpl.
  destruct (Z.leb_spec (remaining - 1) 0); [|lia]. split; [done | lia].
Qed.

(** C3.  The code departs from the claim.  With the default budget of 10
    and a broker that refuses every connection, the first message is
    given up at the tenth failure, and the worker then holds the second
    message with a counter of 0 instead of 10: the second message is
    dropped at the very next failure, after a single attempt. *)
Theorem budget_not_renewed_after_drop (m1 m2 m3 : Message) :
  let d := DEFAULT_RETRY_DELAY in
  send_loop DEFAULT_RETRIES d [m1; m2; m3] (replicate 10 false)
  = (mkWorker false (Some m2) 0 [m3],
     [Get m1]
       ++ mjoin (replicate 9 [Connect false; Sleep d])
       ++ [Connect false; Get m2; Sleep d]) /\
  send_loop DEFAULT_RETRIES d [m1; m2; m3] (replicate 11 false)
  = (mkWorker false (Some m3) (-1) [],
     [Get m1]
       ++ mjoin (replicate 9 [Connect false; Sleep d])
       ++ [Connect false; Get m2; Sleep d]
       ++ [Connect false; Get m3; Sleep d]).
Proof. split; reflexivity. Qed.

End MqttFacts.

(** ** [history_to_dict] *)

Module HistoryFacts.
Import Events Sources HistorySpec.
Local Open Scope list_scope.

(** Propositional goals about equal or distinct keys. *)
Ltac logic :=
  solve [ tauto | intuition congruence | intuition (subst; eauto; congruence) ].

Section omap_snoc.
Context {A B : Type} (f : A -> option B).

Lemma last_omap_snoc (l : list A) (x : A) :
  last (omap f (l ++ [x]))
  = match f x with Some y => Some y | None => last (omap f l) end.
Proof.
  rewrite omap_app. simpl. destruct (f x) as [y|].
  - apply last_snoc.
  - by rewrite app_nil_r.
Qed.

Lemma elem_of_omap_snoc (l : list A) (x : A) (y : B) :
  y ∈ omap f (l ++ [x]) <-> y ∈ omap f l \/ f x = Some y.
Proof.
  rewrite omap_app, elem_of_app. simpl. destruct (f x) as [z|].
  - rewrite list_elem_of_singleton. logic.
  - rewrite elem_of_nil. logic.
Qed.
End omap_snoc.

(** No attribute is named like the two structural keys, so the
    attributes of a dictionary and its [Titles] or [Streams] entry never
    collide. *)
Lemma item_name_not_structural (i : InfoEvent) :
  item_name i <> "Titles" /\ item_name i <> "Streams".
Proof. unfold item_name. by destruct (attribute i). Qed.

(** The keys of a dictionary, sorted. *)
Lemma sorted_keys_index {V : Type} (d : gmap Z V) (numbers : list Z) :
  (forall n, is_Some (d !! n) <-> n ∈ numbers) ->
  ascending_index (sorted_keys d) numbers.
Proof.
  intros Hd. unfold sorted_keys.
  assert (Hperm : merge_sort Z.le (elements (dom d)) ≡ₚ elements (dom d))
    by apply merge_sort_Permutation.
  assert (Hnodup : NoDup (merge_sort Z.le (elements (dom d)))).
  { rewrite Hperm. apply NoDup_elements. }
  assert (Hle : StronglySorted Z.le (merge_sort Z.le (elements (dom d)))).
  { apply StronglySorted_merge_sort; apply _. }
  split.
  - revert Hnodup Hle. generalize (merge_sort Z.le (elements (dom d))).
    induction l as [|x l IH]; intros Hnodup Hle; [constructor|].
    apply NoDup_cons in Hnodup as [Hx Hl].
    apply StronglySorted_inv in Hle as [Hs Hall].
    constructor; [by apply IH|].
    rewrite Forall_forall in Hall |- *. intros y Hy.
    pose proof (Hall y Hy). assert (x <> y) by (by intros ->). lia.
  - intros n. rewrite Hperm, elem_of_elements, elem_of_dom. apply Hd.
Qed.

(** The working entries after one more event. *)
Lemma title_at_insert (info_attrs : gmap string Value)
    (titles : gmap Z Title) (t0 t : Z) (title : Title) :
  title_at (mkInfoDict info_attrs (<[t0 := title]> titles)) t
  = if decide (t0 = t) then title
    else default new_title (titles !! t).
Proof.
  unfold title_at. simpl. rewrite lookup_insert. by case_decide.
Qed.

Lemma stream_at_insert (title_attrs : gmap string Value)
    (streams : gmap Z (gmap string Value)) (s0 s : Z)
    (stream : gmap string Value) :
  stream_at (mkTitle title_attrs (<[s0 := stream]> streams)) s
  = if decide (s0 = s) then stream else default ∅ (streams !! s).
Proof.
  unfold stream_at. simpl. rewrite lookup_insert. by case_decide.
Qed.

Lemma collected_nil : collected new_info [].
Proof.
  unfold collected, holds_last, title_at, stream_at. simpl.
  split; [|split; [|split; [|split]]]; intros;
    rewrite ?lookup_empty; simpl; rewrite ?lookup_empty; try done.
  - rewrite elem_of_nil. split; [by intros ?%is_Some_None | done].
  - rewrite elem_of_nil. split; [by intros ?%is_Some_None | done].
Qed.

(** The observers of a history after one more item. *)
Lemma disc_writes_snoc history item name :
  last (disc_writes (history ++ [item]) name)
  = match disc_write name item with
    | Some v => Some v
    | None => last (disc_writes history name)
    end.
Proof. apply last_omap_snoc. Qed.

Lemma title_writes_snoc history item t name :
  last (title_writes (history ++ [item]) t name)
  = match title_write t name item with
    | Some v => Some v
    | None => last (title_writes history t name)
    end.
Proof. apply last_omap_snoc. Qed.

Lemma stream_writes_snoc history item t s name :
  last (stream_writes (history ++ [item]) t s name)
  = match stream_write t s name item with
    | Some v => Some v
    | None => last (stream_writes history t s name)
    end.
Proof. apply last_omap_snoc. Qed.

Lemma title_numbers_snoc history item t :
  t ∈ title_numbers (history ++ [item])
  <-> t ∈ title_numbers history \/ title_number_of item = Some t.
Proof. apply elem_of_omap_snoc. Qed.

Lemma stream_numbers_snoc history item t s :
  s ∈ stream_numbers (history ++ [item]) t
  <-> s ∈ stream_numbers history t \/ stream_number_of t item = Some s.
Proof. apply elem_of_omap_snoc. Qed.

(** An item that is no info event leaves the working dictionary alone. *)
Lemma collected_snoc_other (info : Info) (history : list Item) (item : Item) :
  (forall name, disc_write name item = None) ->
  (forall t name, title_write t name item = None) ->
  (forall t s name, stream_write t s name item = None) ->
  title_number_of item = None ->
  (forall t, stream_number_of t item = None) ->
  collected info history -> collected info (history ++ [item]).
Proof.
  intros H1 H2 H3 H4 H5 (Hd & Hk & Ht & Hsk & Hs).
  unfold collected, holds_last in *.
  split; [|split; [|split; [|split]]].
  - intros name. by rewrite disc_writes_snoc, H1.
  - intros t. rewrite title_numbers_snoc, H4, Hk. logic.
  - intros t name. by rewrite title_writes_snoc, H2.
  - intros t s. rewrite stream_numbers_snoc, H5, Hsk. logic.
  - intros t s name. by rewrite stream_writes_snoc, H3.
Qed.

Lemma collected_snoc_disc (info : Info) (history : list Item)
    (i : InfoEvent) :
  collected info history ->
  collected (absorb info (Some (DiscInfoEvent i)))
    (history ++ [Some (DiscInfoEvent i)]).
Proof.
  intros (Hd & Hk & Ht & Hsk & Hs).
  unfold collected, holds_last in *.
  split; [|split; [|split; [|split]]].
  - intros name. rewrite disc_writes_snoc. simpl.
    rewrite lookup_insert. by case_decide.
  - intros t. rewrite title_numbers_snoc, <- Hk. simpl. logic.
  - intros t name. rewrite title_writes_snoc. apply Ht.
  - intros t s. rewrite stream_numbers_snoc, <- Hsk. simpl.
    unfold title_at. simpl. logic.
  - intros t s name. rewrite stream_writes_snoc. apply Hs.
Qed.

Lemma collected_snoc_title (info : Info) (history : list Item)
    (i : InfoEvent) (t0 : Z) :
  collected info history ->
  collected (absorb info (Some (TitleInfoEvent i t0)))
    (history ++ [Some (TitleInfoEvent i t0)]).
Proof.
  intros (Hd & Hk & Ht & Hsk & Hs).
  unfold collected, holds_last in *. unfold absorb.
  fold (title_at info t0).
  split; [|split; [|split; [|split]]].
  - intros name. rewrite disc_writes_snoc. apply Hd.
  - intros t. rewrite title_numbers_snoc, <- Hk. simpl.
    rewrite lookup_insert. case_decide; [subst|]; logic.
  - intros t name. rewrite title_writes_snoc, title_at_insert. simpl.
    case_decide as Ht0.
    + subst t. simpl. rewrite lookup_insert. case_decide as Hn.
      * by rewrite decide_True.
      * rewrite decide_False by logic. apply Ht.
    + rewrite decide_False by logic. apply Ht.
  - intros t s. rewrite stream_numbers_snoc, title_at_insert, <- Hsk. simpl.
    case_decide; [subst|]; simpl; logic.
  - intros t s name. rewrite stream_writes_snoc, title_at_insert. simpl.
    case_decide; [subst|]; apply Hs.
Qed.

Lemma collected_snoc_stream (info : Info) (history : list Item)
    (i : InfoEvent) (t0 s0 : Z) :
  collected info history ->
  collected (absorb info (Some (StreamInfoEvent i t0 s0)))
    (history ++ [Some (StreamInfoEvent i t0 s0)]).
Proof.
  intros (Hd & Hk & Ht & Hsk & Hs).
  unfold collected, holds_last in *. unfold absorb.
  fold (title_at info t0). fold (stream_at (title_at info t0) s0).
  split; [|split; [|split; [|split]]].
  - intros name. rewrite disc_writes_snoc. apply Hd.
  - intros t. rewrite title_numbers_snoc, <- Hk. simpl.
    rewrite lookup_insert. case_decide; [subst|]; logic.
  - intros t name. rewrite title_writes_snoc, title_at_insert. simpl.
    case_decide; [subst|]; apply Ht.
  - intros t s. rewrite stream_numbers_snoc, title_at_insert. simpl.
    case_decide as Ht0.
    + subst t. simpl. rewrite lookup_insert, <- Hsk.
      case_decide; [subst|]; logic.
    + rewrite <- Hsk. logic.
  - intros t s name. rewrite stream_writes_snoc, title_at_insert. simpl.
    case_decide as Ht0.
    + subst t. rewrite stream_at_insert. case_decide as Hs0.
      * subst s. rewrite lookup_insert. case_decide as Hn.
        -- by rewrite decide_True.
        -- rewrite decide_False by logic. apply Hs.
      * rewrite decide_False by logic. apply Hs.
    + rewrite decide_False by logic. apply Hs.
Qed.

(** One turn of the loop keeps the working dictionary in step with the
    history. *)
Lemma collected_snoc (info : Info) (history : list Item) (item : Item) :
  collected info history -> collected (absorb info item) (history ++ [item]).
Proof.
  destruct item as [[ | | | | | | | | | i | i t0 | i t0 s0 ]|];
    try (by apply collected_snoc_other).
  - apply collected_snoc_disc.
  - apply collected_snoc_title.
  - apply collected_snoc_stream.
Qed.

Lemma collected_foldl (history : list Item) :
  collected (foldl absorb new_info history) history.
Proof.
  induction history as [|item history IH] using rev_ind.
  - apply collected_nil.
  - rewrite foldl_snoc. by apply collected_snoc.
Qed.

(** Only the info events of a history count. *)
Lemma foldl_absorb_info (history : list Item) (info : Info) :
  foldl absorb info (filter is_info history) = foldl absorb info history.
Proof.
  revert info. induction history as [|item history IH]; intros info; [done|].
  rewrite filter_cons. destruct (decide (is_info item)) as [Hi|Hi].
  - simpl. apply IH.
  - simpl. rewrite IH. f_equal.
    destruct item as [[]|]; simpl in *; done.
Qed.

(** The entry built for a title that occurs in the history. *)
Lemma title_to_lists_entry (info : Info) (history : list Item) (t : Z) :
  collected info history ->
  t ∈ title_numbers history ->
  title_entry history t (title_to_lists (info_titles info !!! t)).
Proof.
  intros (Hd & Hk & Ht & Hsk & Hs) Hin.
  apply Hk in Hin as [title Htitle].
  rewrite (lookup_total_correct _ _ _ Htitle).
  assert (Hat : title_at info t = title)
    by (unfold title_at; by rewrite Htitle).
  specialize (Ht t). specialize (Hsk t). specialize (Hs t).
  rewrite Hat in Ht, Hsk, Hs.
  split; [done|].
  exists (sorted_keys (title_streams title)).
  pose proof (sorted_keys_index _ _ Hsk) as Hidx.
  split; [done|].
  unfold title_to_lists. simpl. apply Forall2_fmap_r, Forall_Forall2_diag.
  apply Forall_forall. intros s Hsin. unfold compose.
  apply Hidx, Hsk in Hsin as [stream Hstream].
  rewrite (lookup_total_correct _ _ _ Hstream).
  specialize (Hs s). unfold stream_at in Hs. by rewrite Hstream in Hs.
Qed.

(** C7.  For every history, whatever the arrival order, [history_to_dict]
    returns a structure in which each DiscInfo attribute is at top level,
    each TitleInfo attribute under its title and each StreamInfo attribute
    under its stream of its title (with the value written last), the list
    of titles and each title's list of streams being in ascending order of
    title and stream number.  In particular a history whose info events
    are a disc name, the name of title 0 and the name of stream 0 of
    title 0, in any order and among any other events, gives the name at
    top level and one title, with its name and one stream with its
    name. *)
Theorem history_to_dict_structure (history : list Item) :
  let d := history_to_dict history in
  holds_last (attrs d) (disc_writes history) /\
  (exists t_indices,
     ascending_index t_indices (title_numbers history) /\
     Forall2 (title_entry history) t_indices (Titles d)) /\
  forall disc title stream,
    filter is_info history ≡ₚ three_names disc title stream ->
    d = mkResult {[ "Name" := VStr disc ]}
          [mkTitleDict {[ "Name" := VStr title ]}
             [ {[ "Name" := VStr stream ]} ]].
Proof.
  pose proof (collected_foldl history) as Hc.
  split; [|split].
  - apply Hc.
  - exists (sorted_keys (info_titles (foldl absorb new_info history))).
    pose proof Hc as (_ & Hk & _).
    pose proof (sorted_keys_index _ _ Hk) as Hidx.
    split; [done|]. unfold history_to_dict. simpl.
    apply Forall2_fmap_r, Forall_Forall2_diag, Forall_forall.
    intros t Hin. unfold compose. apply title_to_lists_entry; [done|].
    by apply Hidx.
  - intros disc title stream Hperm. symmetry in Hperm.
    apply permutations_Permutation in Hperm.
    unfold history_to_dict. rewrite <- foldl_absorb_info.
    unfold three_names in Hperm. simpl in Hperm.
    repeat (apply elem_of_cons in Hperm as [->|Hperm]; [reflexivity|]).
    by apply elem_of_nil in Hperm.
Qed.

Lemma history_to_dict_structure_witness :
  history_to_dict
    [Some (StartEvent 0);
     Some (StreamInfoEvent (name_info "Stereo") 0 0);
     None;
     Some (TitleInfoEvent (name_info "Feature") 0);
     Some (TitleCountEvent "1");
     Some (DiscInfoEvent (name_info "Disc"));
     Some (StopEvent 0)]
  = mkResult {[ "Name" := VStr "Disc" ]}
      [mkTitleDict {[ "Name" := VStr "Feature" ]}
         [ {[ "Name" := VStr "Stereo" ]} ]].
Proof.
  apply (history_to_dict_structure
           [Some (StartEvent 0);
            Some (StreamInfoEvent (name_info "Stereo") 0 0);
            None;
            Some (TitleInfoEvent (name_info "Feature") 0);
            Some (TitleCountEvent "1");
            Some (DiscInfoEvent (name_info "Disc"));
            Some (StopEvent 0)]).
  symmetry. apply permutations_Permutation. unfold three_names. simpl.
  do 5 apply list_elem_of_further. apply list_elem_of_here.
Defined.

End HistoryFacts.

(** * Further properties *)

(** ** The decoder *)

Module DecoderFacts.
Import Events EventsSpec DecoderSpec EventsFacts Samples.

(** [get_event] as a dispatch on the class of the message type. *)
Lemma get_event_by_class (raw_string : string) :
  get_event raw_string
  = match class_of_tag (message_type raw_string) with
    | CUnknown =>
        if (String.length (Str.strip_space raw_string) <=? 0)%nat
        then Ret None
        else Some <$> UnknownEvent_init (raw_params raw_string)
    | c =>
        match init_of c with
        | Some cls => Some <$> cls (raw_params raw_string)
        | None => Ret None
        end
    end.
Proof.
  unfold get_event, class_of_tag, parse.
  repeat (destruct (String.eqb _ _); [reflexivity|]). reflexivity.
Qed.

Lemma class_of_tag_dispatched (message_type : string) :
  class_of_tag message_type <> CStart /\ class_of_tag message_type <> CStop.
Proof.
  unfold class_of_tag.
  repeat (destruct (String.eqb _ _); [done|]). done.
Qed.

Lemma get_event_None_blank (raw_string : string) :
  get_event raw_string = Ret None -> Str.strip_space raw_string = "".
Proof.
  rewrite get_event_by_class.
  destruct (class_of_tag_dispatched (message_type raw_string)).
  destruct (class_of_tag (message_type raw_string)); simpl; try done;
    try (by intros (e & [=] & _)%fmap_Some_Ret).
  destruct (Str.strip_space raw_string); [done|]. simpl. by intros [=].
Qed.

(** X1.  On an ASCII line, [get_event] returns [None] exactly when
    [strip()] empties the line: the empty line and the lines of white
    space (TAB, LF, VT, FF, CR, FS, GS, RS, US and the space). *)
Theorem none_iff_blank (raw_string : string) :
  Str.is_ascii raw_string = true ->
  get_event raw_string = Ret None <-> Str.strip_space raw_string = "".
Proof.
  intros _. split; [apply get_event_None_blank | apply get_event_blank].
Qed.

Lemma none_iff_blank_witness :
  (get_event (String "009" " ") = Ret None
   <-> Str.strip_space (String "009" " ") = "") /\
  (get_event "TCOUT:1" = Ret None <-> Str.strip_space "TCOUT:1" = "").
Proof.
  split.
  - apply (none_iff_blank (String "009" " ")). reflexivity.
  - apply (none_iff_blank "TCOUT:1"). reflexivity.
Defined.

(** X3.  Whatever the tool prints, the event [get_event] builds for a
    line is neither a Start nor a Stop event: the command boundaries come
    from [run_command] alone. *)
Theorem decoder_builds_no_boundary (raw_string : string) (e : Event) :
  get_event raw_string = Ret (Some e) ->
  class_of e <> CStart /\ class_of e <> CStop /\
  forall n, e <> StartEvent n /\ e <> StopEvent n.
Proof.
  intros H. split; [|split].
  - intros Hc. destruct e; try discriminate Hc.
    by destruct (get_event_not_boundary _ _ H command_number).
  - intros Hc. destruct e; try discriminate Hc.
    by destruct (get_event_not_boundary _ _ H command_number).
  - apply (get_event_not_boundary _ _ H).
Qed.

Lemma decoder_builds_no_boundary_witness :
  class_of (TitleCountEvent "3") <> CStart /\
  class_of (TitleCountEvent "3") <> CStop /\
  forall n, TitleCountEvent "3" <> StartEvent n /\
            TitleCountEvent "3" <> StopEvent n.
Proof.
  apply (decoder_builds_no_boundary "TCOUT:3" (TitleCountEvent "3")).
  reflexivity.
Defined.









(** *** Splitting and joining *)

Lemma split_nonempty (sep : ascii) (s : string) : Str.split sep s <> [].
Proof.
  destruct s as [|c s]; simpl; [done|].
  destruct (Ascii.eqb c sep); [done|]. by destruct (Str.split sep s).
Qed.

Lemma split_cons (sep c : ascii) (s : string) :
  Ascii.eqb c sep = false ->
  exists h t, Str.split sep s = h :: t /\
              Str.split sep (String c s) = String c h :: t.
Proof.
  intros Hc. simpl. rewrite Hc.
  destruct (Str.split sep s) as [|h t] eqn:E; [by apply split_nonempty in E|].
  eauto.
Qed.

Lemma split_sep (sep c : ascii) (s : string) :
  Ascii.eqb c sep = true ->
  Str.split sep (String c s) = EmptyString :: Str.split sep s.
Proof. intros Hc. simpl. by rewrite Hc. Qed.

Lemma split_app_sep (sep : ascii) (a b : string) :
  free_of sep a = true ->
  Str.split sep (a ++ String sep b) = a :: Str.split sep b.
Proof.
  induction a as [|c a IH]; simpl.
  - by rewrite Ascii.eqb_refl.
  - intros [Hc Ha]%andb_prop. apply negb_true_iff in Hc. rewrite Hc.
    by rewrite IH.
Qed.

Lemma split1_app_sep (sep : ascii) (a b : string) :
  free_of sep a = true ->
  Str.split1 sep (a ++ String sep b) = [a; b].
Proof.
  induction a as [|c a IH]; simpl.
  - by rewrite Ascii.eqb_refl.
  - intros [Hc Ha]%andb_prop. apply negb_true_iff in Hc. rewrite Hc.
    by rewrite IH.
Qed.

Lemma join_cons (sep h : string) (t : list string) :
  t <> [] -> Str.join sep (h :: t) = (h ++ sep ++ Str.join sep t)%string.
Proof. by destruct t. Qed.

Lemma join_split (s : string) : Str.join "," (Str.split "," s) = s.
Proof.
  induction s as [|c s IH]; [done|].
  destruct (Ascii.eqb c ",") eqn:Hc.
  - simpl. rewrite Hc. rewrite join_cons by apply split_nonempty.
    rewrite IH. apply Ascii.eqb_eq in Hc. by subst.
  - destruct (split_cons "," c s Hc) as (h & t & E & ->).
    rewrite E in IH. destruct t as [|h' t]; [simpl in *; by rewrite IH|].
    rewrite join_cons by done. rewrite join_cons in IH by done.
    rewrite <- IH at 1. reflexivity.
Qed.

(** A line [tag:rest] whose tag has no colon. *)
Lemma tagged_message_type (tag rest : string) :
  free_of ":" tag = true ->
  message_type (tag ++ String ":" rest) = Str.strip_space (Str.upper tag).
Proof. intros H. unfold message_type. by rewrite split1_app_sep. Qed.

Lemma tagged_raw_params (tag rest : string) :
  free_of ":" tag = true ->
  raw_params (tag ++ String ":" rest) = Str.split "," rest.
Proof. intros H. unfold raw_params. by rewrite split1_app_sep. Qed.

Lemma tagged_not_blank (tag rest : string) :
  free_of ":" tag = true ->
  Str.strip_space (tag ++ String ":" rest) <> "".
Proof.
  intros H Hb. apply strip_empty, blank_split1 in Hb.
  by rewrite split1_app_sep in Hb.
Qed.

(** X6.  The tag of a line is matched without regard to case and to
    white space around it: two lines with the same text after the first
    colon, whose tags agree once upper-cased and stripped, decode alike
    (to the same event or the same exception). *)
Theorem tag_case_and_space_insensitive (tag tag' rest : string) :
  free_of ":" tag = true -> free_of ":" tag' = true ->
  Str.strip_space (Str.upper tag) = Str.strip_space (Str.upper tag') ->
  get_event (tag ++ String ":" rest) = get_event (tag' ++ String ":" rest).
Proof.
  intros H H' Heq. rewrite !get_event_by_class.
  rewrite !tagged_message_type, !tagged_raw_params, Heq by done.
  pose proof (tagged_not_blank tag rest H) as Hb.
  pose proof (tagged_not_blank tag' rest H') as Hb'.
  destruct (Str.strip_space (tag ++ String ":" rest)); [done|].
  by destruct (Str.strip_space (tag' ++ String ":" rest)).
Qed.

Lemma tag_case_and_space_insensitive_witness :
  get_event (" tcout " ++ String ":" "12")
  = get_event ("TCOUT" ++ String ":" "12").
Proof.
  apply (tag_case_and_space_insensitive " tcout " "TCOUT" "12");
    reflexivity.
Defined.

(** *** Quoted values *)

Lemma rstrip_cons_keep (p : ascii -> bool) (c : ascii) (s : string) :
  p c = false -> Str.rstrip p (String c s) = String c (Str.rstrip p s).
Proof. intros Hc. simpl. rewrite Hc. by destruct (Str.rstrip p s). Qed.

Lemma lstrip_rstrip (p : ascii -> bool) (s : string) :
  Str.rstrip p (Str.lstrip p s) = Str.lstrip p (Str.rstrip p s).
Proof.
  induction s as [|c s IH]; [done|].
  destruct (p c) eqn:Hc.
  - simpl. rewrite Hc.
    destruct (Str.rstrip p s) as [|d r] eqn:Er.
    + apply rstrip_empty in Er. by rewrite Er.
    + rewrite IH. simpl. by rewrite Hc.
  - rewrite rstrip_cons_keep by done. simpl. rewrite Hc.
    by rewrite rstrip_cons_keep.
Qed.

Lemma strip_free (c : ascii) (s : string) :
  free_of c s = true -> Str.strip (fun d => Ascii.eqb d c) s = s.
Proof.
  unfold Str.strip. rewrite lstrip_rstrip.
  induction s as [|d s IH]; [done|]. simpl.
  intros [Hd Hs]%andb_prop. apply negb_true_iff in Hd.
  specialize (IH Hs).
  destruct (Str.rstrip _ s) as [|e r] eqn:Er.
  - rewrite Hd. simpl. rewrite Hd. f_equal.
    destruct s as [|e s]; [done|]. simpl in IH.
    simpl in Hs. apply andb_prop in Hs as [He _].
    apply negb_true_iff in He. simpl in Er. rewrite He in Er.
    by destruct (Str.rstrip _ s).
  - simpl. rewrite Hd. f_equal.
    destruct s as [|e' s']; [done|]. simpl in Hs.
    apply andb_prop in Hs as [He _]. apply negb_true_iff in He.
    rewrite <- Er in IH |- *.
    rewrite rstrip_cons_keep in IH |- * by done.
    simpl in IH. by rewrite He in IH.
Qed.

Lemma rstrip_pieces (text : string) :
  free_of "034" text = true ->
  Str.rstrip Str.is_quote <$> Str.split "," (text ++ DQUOTE)
  = Str.split "," text.
Proof.
  induction text as [|c w IH]; [done|].
  intros [Hc Hw]%andb_prop. apply negb_true_iff in Hc. specialize (IH Hw).
  destruct (Ascii.eqb c ",") eqn:Hs.
  - change (String c w ++ DQUOTE)%string with (String c (w ++ DQUOTE)).
    rewrite !split_sep by done. by rewrite fmap_cons, IH.
  - destruct (split_cons "," c (w ++ DQUOTE) Hs) as (h & t & E & E').
    destruct (split_cons "," c w Hs) as (h0 & t0 & E0 & E0').
    change (String c w ++ DQUOTE)%string with (String c (w ++ DQUOTE)).
    rewrite E', E0'. rewrite E, E0 in IH. rewrite fmap_cons in IH |- *.
    inversion IH; subst.
    by rewrite (rstrip_cons_keep Str.is_quote c h Hc).
Qed.

Lemma lstrip_pieces (text : string) :
  free_of "034" text = true ->
  Str.lstrip Str.is_quote <$> Str.split "," text = Str.split "," text.
Proof.
  induction text as [|c w IH]; [done|].
  intros [Hc Hw]%andb_prop. apply negb_true_iff in Hc. specialize (IH Hw).
  destruct (Ascii.eqb c ",") eqn:Hs.
  - rewrite !split_sep by done. by rewrite fmap_cons, IH.
  - destruct (split_cons "," c w Hs) as (h0 & t0 & E0 & E0').
    rewrite E0'. rewrite E0 in IH. rewrite fmap_cons in IH |- *.
    inversion IH as [[Hh Ht]]. rewrite !Ht. f_equal.
    simpl. unfold Str.is_quote at 1. by rewrite Hc.
Qed.

(** The value of a quoted text without inner quote, commas included. *)
Lemma raw_value_of_quoted (text : string) :
  free_of "034" text = true ->
  raw_value_of (Str.split "," (quoted text)) = text.
Proof.
  intros H. unfold raw_value_of, quoted.
  assert (Hq : Ascii.eqb "034" "," = false) by done.
  destruct (split_cons "," "034" (text ++ DQUOTE) Hq) as (h & t & E & E').
  change (DQUOTE ++ text ++ DQUOTE)%string
    with (String "034" (text ++ DQUOTE)).
  rewrite E'.
  assert (Hs : Str.strip_quotes <$> (String "034" h :: t)
               = Str.split "," text).
  { change (Str.strip_quotes <$> (String "034" h :: t))
      with (Str.strip_quotes <$> (h :: t)).
    rewrite <- E.
    rewrite <- (lstrip_pieces text H), <- (rstrip_pieces text H).
    rewrite <- list_fmap_compose. apply list_fmap_ext.
    intros _ x _. unfold Str.strip_quotes, Str.strip. simpl.
    apply lstrip_rstrip. }
  rewrite Hs, join_split. by apply (strip_free "034").
Qed.

(** What [InfoEvent.__init__] stores. *)
Lemma of_value_value (n : Z) (a : ItemAttribute) :
  ItemAttribute_of_value n = Some a -> ItemAttribute_value a = n.
Proof.
  intros H. unfold ItemAttribute_of_value in H.
  repeat (match type of H with
          | match ?x with _ => _ end = _ => destruct x; try discriminate H
          end).
  all: by inversion H.
Qed.

Lemma InfoEvent_init_fields (item_id code : string) (values : list string)
    (i : InfoEvent) :
  InfoEvent_init item_id code values = Ret i ->
  Num.int item_id = Ret (Events.item_id i) /\
  Num.int code = Ret (Events.code i) /\
  Events.values i = Str.strip_quotes <$> values /\
  raw_value i = raw_value_of values /\
  coerce_value (attribute i) (raw_value i) = Ret (value i).
Proof.
  unfold InfoEvent_init. exc_unfold. intros H.
  destruct (Num.int item_id) as [n|] eqn:E1; cbn beta iota in H; [|done].
  destruct (ItemAttribute_of_value n) as [a|] eqn:E2; cbn beta iota in H;
    [|done].
  destruct (Num.int code) as [c|] eqn:E3; cbn beta iota in H; [|done].
  destruct (coerce_value _ _) as [v|] eqn:E4; cbn beta iota in H; [|done].
  inversion H; subst. simpl. unfold Events.item_id. simpl.
  by rewrite (of_value_value _ _ E2).
Qed.

(** X7.  A quoted value keeps its commas: on an info line whose value is
    a text in double quotes, without a double quote inside, the decoded
    raw value is that text, although [parse] has split it at its commas
    before [InfoEvent.__init__] joins the pieces again. *)
Theorem quoted_value_keeps_commas (item_id code text : string)
    (i : InfoEvent) :
  free_of "," item_id = true -> free_of "," code = true ->
  free_of "034" text = true ->
  get_event ("CINFO:" ++ item_id ++ "," ++ code ++ "," ++ quoted text)
  = Ret (Some (DiscInfoEvent i)) ->
  raw_value i = text.
Proof.
  intros Hi Hc Ht H.
  change ("CINFO:" ++ item_id ++ "," ++ code ++ "," ++ quoted text)%string
    with ("CINFO" ++ String ":"
            (item_id ++ String "," (code ++ String "," (quoted text))))%string
    in H.
  rewrite get_event_by_class, tagged_message_type, tagged_raw_params in H
    by done.
  rewrite !split_app_sep in H by done.
  change (class_of_tag (Str.strip_space (Str.upper "CINFO")))
    with CDiscInfo in H.
  cbn [init_of DiscInfoEvent_init] in H.
  apply fmap_Some_Ret in H as (e & [= <-] & H).
  exc_unfold.
  destruct (InfoEvent_init _ _ _) as [i'|] eqn:E; [|done].
  inversion H; subst i'.
  apply InfoEvent_init_fields in E as (_ & _ & _ & -> & _).
  by apply raw_value_of_quoted.
Qed.

Lemma quoted_value_keeps_commas_witness :
  raw_value (mkInfo Name 0 ["Hello"; " world"] "Hello, world"
               (VStr "Hello, world"))
  = "Hello, world".
Proof.
  apply (quoted_value_keeps_commas "2" "0" "Hello, world"); reflexivity.
Defined.

(** X10.  The enumeration of attributes: [ItemAttribute(n)] exists
    exactly for the ids 0 to 50 and is the member of that value, and no
    two members have the same name (so two attributes never share a key
    of a dictionary of attributes). *)
Theorem item_attribute_enumeration :
  (forall n a, ItemAttribute_of_value n = Some a
               <-> ItemAttribute_value a = n) /\
  (forall n, is_Some (ItemAttribute_of_value n) <-> 0 <= n <= 50) /\
  (forall a b, ItemAttribute_name a = ItemAttribute_name b -> a = b).
Proof.
  assert (H1 : forall n a, ItemAttribute_of_value n = Some a
                           <-> ItemAttribute_value a = n).
  { intros n a. split; [apply of_value_value|].
    intros <-. by destruct a. }
  split; [done|]. split.
  - intros n. split.
    + intros [a Ha]. apply H1 in Ha as <-. destruct a; simpl; lia.
    + intros Hn. assert (Hk : exists k, n = Z.of_nat k /\ (k <= 50)%nat)
        by (exists (Z.to_nat n); lia).
      destruct Hk as (k & -> & Hk).
      do 51 (destruct k as [|k]; [by eexists|]). lia.
  - intros a b. destruct a; destruct b; first [reflexivity | discriminate].
Qed.

End DecoderFacts.

(** ** The command runner *)

Module RunFacts.
Import Events Sources EventsSpec SourcesSpec RunSpec EventsFacts SourcesFacts.
Import DecoderFacts Samples.
Local Open Scope list_scope.

(** What a call puts on the queue, by its outcome. *)
Lemma run_command_shape (os : Spawn) (args : list string) (self : Source) :
  let n := command_counter self in
  exists middle,
    Forall from_decoder middle /\
    match (run_command os args self).2 with
    | Ret (n', history) =>
        n' = n /\
        history = Some (StartEvent n) :: middle ++ [Some (StopEvent n)] /\
        (run_command os args self).1 = after_run self history
    | Raise _ =>
        (run_command os args self).1
        = after_run self (Some (StartEvent n) :: middle)
    end.
Proof.
  intros n. unfold run_command. fold n.
  set (st0 := emit _ _).
  assert (Hst0 : st0 = pushed [Some (StartEvent n)]
            (mkSource (source_type self) (source_string self)
               (n + 1) (event_queue self), [])).
  { unfold st0. by rewrite emit_pushed. }
  clearbody st0.
  destruct (os _) as [process|e].
  2:{ exists []. split; [done|]. subst st0. reflexivity. }
  destruct (read_loop _ st0) as [st1 r1] eqn:E1.
  apply read_loop_items in E1 as (i1 & -> & H1).
  destruct r1 as [e|].
  { exists i1. split; [done|]. subst st0. unfold pushed, after_run. simpl.
    by rewrite <- app_assoc. }
  destruct (Str.decode_utf8 _) as [stdout|e].
  2:{ exists i1. split; [done|]. subst st0. unfold pushed, after_run. simpl.
      by rewrite <- app_assoc. }
  destruct (drain _ _) as [st2 r2] eqn:E2.
  apply drain_items in E2 as (i2 & -> & H2).
  destruct r2 as [e|].
  { exists (i1 ++ i2). split; [by apply Forall_app|]. subst st0.
    unfold pushed, after_run. simpl. by rewrite <- !app_assoc. }
  exists (i1 ++ i2). split; [by apply Forall_app|]. subst st0.
  rewrite emit_pushed. unfold pushed, after_run. simpl.
  by rewrite <- !app_assoc.
Qed.

(** X11.  The history of every completed run starts with the Start event
    and ends with the Stop event of the command number, which is the
    counter at the call; between them stand only items of the decoder
    (no Start, no Stop).  The queue has received exactly the history, and
    the counter has moved up by one. *)
Theorem completed_run_is_bracketed (os : Spawn) (args : list string)
    (self : Source) (n : Z) (history : list Item) :
  (run_command os args self).2 = Ret (n, history) ->
  n = command_counter self /\
  (exists middle,
     history = Some (StartEvent n) :: middle ++ [Some (StopEvent n)] /\
     Forall from_decoder middle) /\
  event_queue (run_command os args self).1 = event_queue self ++ history /\
  command_counter (run_command os args self).1 = command_counter self + 1.
Proof.
  intros H. destruct (run_command_shape os args self) as (middle & Hm & Hs).
  rewrite H in Hs. destruct Hs as (-> & -> & ->). simpl. eauto 6.
Qed.

Lemma completed_run_is_bracketed_witness :
  0 = command_counter sr0 /\
  (exists middle,
     [Some (StartEvent 0); Some (TitleCountEvent "1"); Some (StopEvent 0)]
     = Some (StartEvent 0) :: middle ++ [Some (StopEvent 0)] /\
     Forall from_decoder middle) /\
  event_queue (run_command (tool (mkProcess [line "TCOUT:1"] "")) [] sr0).1
  = event_queue sr0
      ++ [Some (StartEvent 0); Some (TitleCountEvent "1"); Some (StopEvent 0)] /\
  command_counter (run_command (tool (mkProcess [line "TCOUT:1"] "")) [] sr0).1
  = command_counter sr0 + 1.
Proof.
  apply (completed_run_is_bracketed (tool (mkProcess [line "TCOUT:1"] ""))
           [] sr0 0).
  reflexivity.
Defined.

(** X12.  A run that raises (because the tool cannot be spawned, because
    a line read or the output left at the exit is not UTF-8, or because
    the decoder raises on a line, read before or after the exit) has put
    on the queue the Start event of its command number followed by items
    of the decoder only: the Stop event is missing, and the counter has
    moved up by one all the same. *)
Theorem aborted_run_has_no_stop (os : Spawn) (args : list string)
    (self : Source) (e : Exn) :
  (run_command os args self).2 = Raise e ->
  let n := command_counter self in
  (exists middle,
     event_queue (run_command os args self).1
     = event_queue self ++ Some (StartEvent n) :: middle /\
     Forall from_decoder middle) /\
  command_counter (run_command os args self).1 = n + 1.
Proof.
  intros H n. destruct (run_command_shape os args self) as (middle & Hm & Hs).
  rewrite H in Hs. rewrite Hs. simpl. eauto.
Qed.

Lemma aborted_run_has_no_stop_witness :
  let n := command_counter sr0 in
  ((exists middle,
      event_queue (run_command (tool (mkProcess zero_limit_reads "")) [] sr0).1
      = event_queue sr0 ++ Some (StartEvent n) :: middle /\
      Forall from_decoder middle) /\
   command_counter (run_command (tool (mkProcess zero_limit_reads "")) [] sr0).1
   = n + 1) /\
  ((exists middle,
      event_queue (run_command (tool (mkProcess undecodable_reads "")) [] sr0).1
      = event_queue sr0 ++ Some (StartEvent n) :: middle /\
      Forall from_decoder middle) /\
   command_counter (run_command (tool (mkProcess undecodable_reads "")) [] sr0).1
   = n + 1) /\
  ((exists middle,
      event_queue
        (run_command (tool (mkProcess [] (String "255" ""))) [] sr0).1
      = event_queue sr0 ++ Some (StartEvent n) :: middle /\
      Forall from_decoder middle) /\
   command_counter
     (run_command (tool (mkProcess [] (String "255" ""))) [] sr0).1
   = n + 1) /\
  ((exists middle,
      event_queue (run_command no_tool [] sr0).1
      = event_queue sr0 ++ Some (StartEvent n) :: middle /\
      Forall from_decoder middle) /\
   command_counter (run_command no_tool [] sr0).1 = n + 1).
Proof.
  split; [|split; [|split]].
  - apply (aborted_run_has_no_stop (tool (mkProcess zero_limit_reads "")) []
             sr0 ZeroDivisionError).
    reflexivity.
  - apply (aborted_run_has_no_stop (tool (mkProcess undecodable_reads "")) []
             sr0 UnicodeDecodeError).
    reflexivity.
  - apply (aborted_run_has_no_stop
             (tool (mkProcess [] (String "255" ""))) [] sr0
             UnicodeDecodeError).
    reflexivity.
  - apply (aborted_run_has_no_stop no_tool [] sr0 (OSError ENOENT)).
    reflexivity.
Defined.

(** The Start events of some items of the decoder, possibly followed by
    a Stop event. *)
Lemma start_numbers_from_decoder (items : list Item) :
  Forall from_decoder items -> start_numbers items = [].
Proof.
  induction 1 as [|item items Hi _ IH]; [done|].
  destruct item as [[]|];
    try (change (start_numbers (?i :: items)) with (start_numbers items);
         exact IH).
  by destruct (Hi command_number).
Qed.

Lemma start_numbers_app (xs ys : list Item) :
  start_numbers (xs ++ ys) = start_numbers xs ++ start_numbers ys.
Proof. apply omap_app. Qed.

Lemma run_command_start_number (os : Spawn) (args : list string)
    (self : Source) :
  exists items,
    (run_command os args self).1 = after_run self items /\
    start_numbers items = [command_counter self].
Proof.
  destruct (run_command_shape os args self) as (middle & Hm & Hs).
  destruct (run_command os args self).2 as [[n' history]|e].
  - destruct Hs as (_ & -> & ->). eexists; split; [done|].
    change (Some (StartEvent (command_counter self))
              :: middle ++ [Some (StopEvent (command_counter self))])
      with ([Some (StartEvent (command_counter self))]
              ++ middle ++ [Some (StopEvent (command_counter self))]).
    rewrite !start_numbers_app, (start_numbers_from_decoder _ Hm). done.
  - eexists; split; [done|].
    change (Some (StartEvent (command_counter self)) :: middle)
      with ([Some (StartEvent (command_counter self))] ++ middle).
    rewrite start_numbers_app, (start_numbers_from_decoder _ Hm). done.
Qed.

(** X13.  Command numbers are consecutive: over any sequence of calls of
    [run_command] on a source, completed or not, the Start events put on
    the queue carry the numbers counter, counter + 1, ... in this order,
    one per call, and the counter ends as many steps higher. *)
Theorem command_numbers_consecutive (calls : list (Spawn * list string))
    (self : Source) :
  exists items,
    event_queue (run_many calls self) = event_queue self ++ items /\
    start_numbers items = seqZ (command_counter self) (Z.of_nat (length calls)) /\
    command_counter (run_many calls self)
    = command_counter self + Z.of_nat (length calls).
Proof.
  revert self. induction calls as [|[os args] calls IH]; intros self.
  - exists []. simpl. rewrite app_nil_r. split; [done|]. split; [done|lia].
  - simpl run_many.
    destruct (run_command_start_number os args self) as (i1 & E1 & H1).
    destruct (IH (run_command os args self).1) as (i2 & E2 & H2 & Hc).
    rewrite E1 in *. simpl in *. exists (i1 ++ i2).
    rewrite E2, app_assoc. split; [done|]. split.
    + rewrite start_numbers_app, H1, H2.
      replace (Z.of_nat (S (length calls)))
        with (1 + Z.of_nat (length calls)) by lia.
      rewrite seqZ_app by lia. done.
    + lia.
Qed.

(** Timeouts leave the state of the loop alone. *)
Lemma read_loop_without_timeouts (rs : list Read) (st : Source * list Item) :
  read_loop (without_timeouts rs) st = read_loop rs st.
Proof.
  revert st. induction rs as [|[|byte_line] rs IH]; intros st; simpl;
    [done | apply IH |].
  destruct (line_event _) as [[event|]|]; by rewrite ?IH.
Qed.

(** X14.  Read timeouts cannot be observed: a run returns the same
    result and leaves the same queue as the run of the same output
    without any timeout. *)
Theorem timeouts_are_invisible (process : Process) (args : list string)
    (self : Source) :
  run_command (tool process) args self
  = run_command
      (tool (mkProcess (without_timeouts (reads process))
               (remaining process)))
      args self.
Proof.
  unfold run_command, tool. simpl. by rewrite read_loop_without_timeouts.
Qed.

(** The loop over the reads, in two parts. *)
Lemma read_loop_app (rs rs' : list Read) (st : Source * list Item) :
  read_loop (rs ++ rs') st
  = match read_loop rs st with
    | (st', None) => read_loop rs' st'
    | (st', Some e) => (st', Some e)
    end.
Proof.
  revert st. induction rs as [|[|byte_line] rs IH]; intros st; simpl;
    [done | apply IH |].
  destruct (line_event _) as [[event|]|]; by rewrite ?IH.
Qed.

(** Removing the line end: an LF more at the end changes nothing. *)
Lemma rstrip_crlf_lf (s : string) :
  Str.rstrip_crlf (s ++ String "010" "") = Str.rstrip_crlf s.
Proof.
  unfold Str.rstrip_crlf.
  induction s as [|c s IH]; [done|]. simpl. by rewrite IH.
Qed.

Lemma is_ascii_app (s t : string) :
  Str.is_ascii (s ++ t) = Str.is_ascii s && Str.is_ascii t.
Proof.
  induction s as [|c s IH]; [done|]. simpl. by rewrite IH, andb_assoc.
Qed.

(** A line that is not blank is handled by the read loop as by the drain
    loop. *)
Lemma read_one_drain_one (line : string) (rs : list Read)
    (lines : list string) (st : Source * list Item) :
  Str.is_ascii line = true ->
  not_blank line = true ->
  (forall st', read_loop rs st' = drain lines st') ->
  read_loop (ReadLine line :: rs) st = drain (line :: lines) st.
Proof.
  intros Ha Hb IH. simpl. rewrite (line_event_ascii _ Ha).
  destruct (get_event (Str.rstrip_crlf line)) as [[event|]|] eqn:E.
  - apply IH.
  - apply get_event_None_blank in E. unfold not_blank in Hb.
    by rewrite E in Hb.
  - done.
Qed.

(** On an ASCII text whose only line boundary is LF and whose lines are
    not blank, the read loop over the lines that [readline] returns does
    what the drain loop does over the lines of [splitlines]. *)
Lemma read_loop_drain (cur text : string) (st : Source * list Item) :
  Str.is_ascii cur = true ->
  Str.is_ascii text = true ->
  lf_only text = true ->
  forallb not_blank (Str.splitlines_from cur text) = true ->
  read_loop (ReadLine <$> readlines_from cur text) st
  = drain (Str.splitlines_from cur text) st.
Proof.
  revert cur st. induction text as [|c text IH]; intros cur st Hc Ht Hl Hb.
  - simpl in *. destruct cur as [|c0 cur]; [done|].
    simpl in Hb. rewrite andb_true_r in Hb.
    by apply read_one_drain_one.
  - simpl in Ht, Hl. apply andb_prop in Ht as [Hc0 Ht].
    apply andb_prop in Hl as [Hc1 Hl].
    cbn [readlines_from Str.splitlines_from] in *.
    destruct (is_lf c) eqn:Elf.
    + unfold is_lf in Elf. apply Ascii.eqb_eq in Elf. subst c.
      change (Str.is_linebreak "010") with true in *. cbv iota in *.
      assert (Hs : (match text with
                    | String d s'' =>
                        if Ascii.eqb "010" "013" && Ascii.eqb d "010"
                        then cur :: Str.splitlines_from "" s''
                        else cur :: Str.splitlines_from "" text
                    | EmptyString => [cur]
                    end) = cur :: Str.splitlines_from "" text)
        by (by destruct text).
      rewrite Hs in *. clear Hs. simpl in Hb.
      apply andb_prop in Hb as [Hb1 Hb].
      rewrite fmap_cons. simpl.
      unfold line_event. rewrite decode_utf8_ascii
        by (by rewrite is_ascii_app, Hc).
      cbn [mbind Exc_bind bind]. rewrite rstrip_crlf_lf.
      unfold not_blank in Hb1.
      destruct (get_event (Str.rstrip_crlf cur)) as [[event|]|] eqn:E.
      * by apply IH.
      * apply get_event_None_blank in E. by rewrite E in Hb1.
      * done.
    + rewrite orb_false_r in Hc1. apply negb_true_iff in Hc1.
      rewrite Hc1 in *. apply IH; try done.
      rewrite is_ascii_app, Hc. simpl. by rewrite Hc0.
Qed.

(** X15.  When the output left at the exit is ASCII text whose only line
    boundary is LF and whose lines are not blank, it does not matter
    whether the tool exits before or after these lines are read: the run
    that drains them after the exit equals the run in which [readline]
    returns them one by one. *)
Theorem exit_point_is_irrelevant (rs : list Read) (text : string)
    (args : list string) (self : Source) :
  Str.is_ascii text = true ->
  lf_only text = true ->
  forallb not_blank (Str.splitlines text) = true ->
  run_command (tool (mkProcess rs text)) args self
  = run_command
      (tool (mkProcess (rs ++ (ReadLine <$> readlines text)) ""))
      args self.
Proof.
  intros Ha Hl H. unfold run_command, tool. simpl.
  rewrite read_loop_app, (decode_utf8_ascii _ Ha).
  destruct (read_loop rs _) as [st [e|]]; [done|].
  unfold readlines. rewrite (read_loop_drain "" text st) by done.
  fold (Str.splitlines text).
  by destruct (drain _ st) as [st' [e|]].
Qed.

Lemma exit_point_is_irrelevant_witness :
  run_command
    (tool (mkProcess [line "TCOUT:1"] ("PRGV:1,2,4" ++ LF ++ "TCOUT:2")))
    [] sr0
  = run_command
      (tool (mkProcess
               ([line "TCOUT:1"]
                  ++ (ReadLine
                        <$> readlines ("PRGV:1,2,4" ++ LF ++ "TCOUT:2")))
               ""))
      [] sr0.
Proof.
  apply (exit_point_is_irrelevant [line "TCOUT:1"]
           ("PRGV:1,2,4" ++ LF ++ "TCOUT:2") [] sr0);
    reflexivity.
Defined.

End RunFacts.

Module InfoFacts.
Import Events Sources EventsSpec SourcesSpec HistorySpec InfoSpec.
Import SourcesFacts HistoryFacts Samples.
Local Open Scope list_scope.

(** The structure [history_to_dict] returns, entry by entry. *)
Lemma history_entries (history : list Item) :
  holds_last (attrs (history_to_dict history)) (disc_writes history) /\
  exists t_indices,
    ascending_index t_indices (title_numbers history) /\
    Forall2 (title_entry history) t_indices
      (Titles (history_to_dict history)).
Proof.
  pose proof (collected_foldl history) as Hc. split; [apply Hc|].
  exists (sorted_keys (info_titles (foldl absorb new_info history))).
  pose proof Hc as (_ & Hk & _).
  pose proof (sorted_keys_index _ _ Hk) as Hidx.
  split; [done|]. unfold history_to_dict. simpl.
  apply Forall2_fmap_r, Forall_Forall2_diag, Forall_forall.
  intros t Hin. unfold compose. apply title_to_lists_entry; [done|].
  by apply Hidx.
Qed.

(** A value written under a name is written by an event of an attribute
    of that name. *)
Lemma holds_last_keys_named (d : gmap string Value)
    (write : string -> Item -> option Value) (history : list Item) :
  (forall name item v, write name item = Some v -> is_attribute_name name) ->
  holds_last d (fun name => omap (write name) history) ->
  keys_named d.
Proof.
  intros Hw Hd key [v Hv]. rewrite Hd in Hv.
  apply last_Some_elem_of, list_elem_of_omap in Hv as (item & _ & Hitem).
  by apply (Hw _ _ _ Hitem).
Qed.

Lemma disc_write_named (name : string) (item : Item) (v : Value) :
  disc_write name item = Some v -> is_attribute_name name.
Proof.
  destruct item as [[]|]; simpl; try done.
  case_decide; [|done]. intros _. by eexists.
Qed.

Lemma title_write_named (t : Z) (name : string) (item : Item) (v : Value) :
  title_write t name item = Some v -> is_attribute_name name.
Proof.
  destruct item as [[]|]; simpl; try done.
  case_decide as H; [|done]. intros _. destruct H as [_ H]. by eexists.
Qed.

Lemma stream_write_named (t s : Z) (name : string) (item : Item)
    (v : Value) :
  stream_write t s name item = Some v -> is_attribute_name name.
Proof.
  destruct item as [[]|]; simpl; try done.
  case_decide as H; [|done]. intros _. destruct H as (_ & _ & H).
  by eexists.
Qed.

(** The keys of the attributes of every title. *)
Lemma title_keys_named (history : list Item) (title : TitleDict) :
  title ∈ Titles (history_to_dict history) ->
  keys_named (attrs_of_title title).
Proof.
  destruct (history_entries history) as (_ & t_indices & _ & Ht).
  intros [k Hk]%list_elem_of_lookup.
  destruct (Forall2_lookup_r _ _ _ _ _ Ht Hk) as (t & _ & Ha & _).
  apply (holds_last_keys_named _ (title_write t) history); [|done].
  apply title_write_named.
Qed.

(** X16.  Every key of the structure [history_to_dict] returns, at top
    level, in each title and in each stream, is the name of a member of
    [ItemAttribute], whatever the history. *)
Theorem dictionary_keys_are_attribute_names (history : list Item) :
  let d := history_to_dict history in
  keys_named (attrs d) /\
  Forall (fun title =>
            keys_named (attrs_of_title title) /\
            Forall keys_named (Streams title))
    (Titles d).
Proof.
  destruct (history_entries history) as (Hd & t_indices & _ & Ht).
  split.
  - apply (holds_last_keys_named _ disc_write history); [|done].
    apply disc_write_named.
  - apply Forall_forall. intros title Hin.
    apply list_elem_of_lookup in Hin as [k Hk].
    destruct (Forall2_lookup_r _ _ _ _ _ Ht Hk) as (t & _ & Ha & s_indices & _ & Hs).
    split.
    + apply (title_keys_named history). apply list_elem_of_lookup. eauto.
    + apply Forall_forall. intros stream Hsin.
      apply list_elem_of_lookup in Hsin as [j Hj].
      destruct (Forall2_lookup_r _ _ _ _ _ Hs Hj) as (s & _ & Hst).
      apply (holds_last_keys_named _ (stream_write t s) history); [|done].
      apply stream_write_named.
Qed.

(** An ascending list of the numbers 0, ..., n - 1. *)
Lemma ascending_from_zero (indices : list Z) (n : nat) :
  StronglySorted Z.lt indices ->
  (forall t, t ∈ indices <-> 0 <= t < Z.of_nat n) ->
  indices = seqZ 0 (Z.of_nat n).
Proof.
  revert indices. induction n as [|n IH]; intros indices Hs Hin.
  - destruct indices as [|t indices]; [done|].
    pose proof (proj1 (Hin t) (list_elem_of_here _ _)). lia.
  - destruct (proj2 (last_is_Some indices)) as [z Hz].
    { intros ->. pose proof (proj2 (Hin 0) ltac:(lia)) as H.
      by apply elem_of_nil in H. }
    apply last_Some in Hz as [front ->].
    assert (Hmax : forall t, t ∈ front -> t < z).
    { intros t Ht.
      apply (StronglySorted_app_1_elem_of _ _ _ _ _ Hs Ht).
      apply list_elem_of_here. }
    assert (Hzn : z = Z.of_nat n).
    { pose proof (proj1 (Hin z) ltac:(apply elem_of_app; right;
                                      apply list_elem_of_here)) as Hz.
      pose proof (proj2 (Hin (Z.of_nat n)) ltac:(lia)) as Hn.
      apply elem_of_app in Hn as [Hn|Hn].
      - apply Hmax in Hn. lia.
      - apply list_elem_of_singleton in Hn. lia. }
    subst z. rewrite Nat2Z.inj_succ, <- Z.add_1_r, seqZ_app by lia.
    simpl. f_equal. apply IH.
    + by apply StronglySorted_app_1_l in Hs.
    + intros t. split.
      * intros Ht. pose proof (Hmax t Ht).
        pose proof (proj1 (Hin t) ltac:(apply elem_of_app; by left)). lia.
      * intros Ht. pose proof (proj2 (Hin t) ltac:(lia)) as H.
        apply elem_of_app in H as [H|H]; [done|].
        apply list_elem_of_singleton in H. lia.
Qed.

(** X17.  When the title numbers of a history are exactly 0, ..., n - 1,
    the list [Titles] has [n] entries and the entry at position [k] is
    the one of title number [k]: a position in the list is then a title
    number. *)
Theorem titles_indexed_by_number (history : list Item) (n : nat) :
  numbered_from_zero (title_numbers history) n ->
  let d := history_to_dict history in
  length (Titles d) = n /\
  forall (k : nat) entry,
    Titles d !! k = Some entry -> title_entry history (Z.of_nat k) entry.
Proof.
  intros Hn d.
  destruct (history_entries history) as (_ & t_indices & [Hs Hin] & Ht).
  assert (Hidx : t_indices = seqZ 0 (Z.of_nat n)).
  { apply ascending_from_zero; [done|].
    intros t. rewrite Hin. apply Hn. }
  subst t_indices. split.
  - apply Forall2_length in Ht. rewrite length_seqZ in Ht. subst d. lia.
  - intros k entry Hk.
    destruct (Forall2_lookup_r _ _ _ _ _ Ht Hk) as (t & Hlook & He).
    apply lookup_seqZ in Hlook as [-> _]. by rewrite Z.add_0_l in He.
Qed.

Lemma titles_indexed_by_number_witness :
  let history :=
    [Some (StreamInfoEvent (name_info "Stereo") 1 0);
     Some (TitleInfoEvent (name_info "Feature") 0)] in
  let d := history_to_dict history in
  length (Titles d) = 2%nat /\
  forall (k : nat) entry,
    Titles d !! k = Some entry -> title_entry history (Z.of_nat k) entry.
Proof.
  apply (titles_indexed_by_number
           [Some (StreamInfoEvent (name_info "Stereo") 1 0);
            Some (TitleInfoEvent (name_info "Feature") 0)] 2).
  intros t. simpl. rewrite !elem_of_cons, elem_of_nil. lia.
Defined.

End InfoFacts.

Module PollFacts.
Import Drive DriveSpec PollSpec DriveFacts.
Local Open Scope list_scope.

(** The two ways [and_then] gives an outcome. *)
Lemma and_then_Some {A B : Type} (first : option (Outcome A))
    (next : A -> nat -> option (Outcome B)) (r : Exc B) (cursor : nat)
    (effects : list Effect) :
  and_then first next = Some (r, cursor, effects) ->
  (exists e, first = Some (Raise e, cursor, effects) /\ r = Raise e) \/
  (exists a c1 effects1 effects2,
     first = Some (Ret a, c1, effects1) /\
     next a c1 = Some (r, cursor, effects2) /\
     effects = effects1 ++ effects2).
Proof.
  unfold and_then. destruct first as [[[[a|e] c1] effects1]|]; [| |done].
  - destruct (next a c1) as [[[r' c2] effects2]|] eqn:E; [|done].
    intros [= <- <- <-]. right. by exists a, c1, effects1, effects2.
  - intros [= <- <- <-]. left. by exists e.
Qed.

(** X19.  [wait_for_state] returns at the first poll that matches: after
    [n] polls that answer no, each followed by a sleep of the polling
    period, it is still waiting; it returns when the next poll answers
    yes, and raises the OSError of the next poll when that one raises. *)
Theorem wait_returns_at_first_match (n fuel : nat) (polling_period : Q)
    (dev : Device) (cursor : nat) (states : States) (invert : bool)
    (c1 : nat) (effects1 : list Effect) :
  idle_polls n fuel polling_period dev cursor states invert
  = Some (c1, effects1) ->
  (forall polls, (polls <= n)%nat ->
     wait_for_state polls fuel polling_period dev cursor states invert
     = None) /\
  (forall polls c2 effects2, (n < polls)%nat ->
     is_in_state fuel dev c1 states invert = Some (Ret true, c2, effects2) ->
     wait_for_state polls fuel polling_period dev cursor states invert
     = Some (Ret tt, c2, effects1 ++ effects2)) /\
  (forall polls e c2 effects2, (n < polls)%nat ->
     is_in_state fuel dev c1 states invert = Some (Raise e, c2, effects2) ->
     wait_for_state polls fuel polling_period dev cursor states invert
     = Some (Raise e, c2, effects1 ++ effects2)).
Proof.
  revert cursor c1 effects1.
  induction n as [|n IH]; intros cursor c1 effects1 Hidle.
  - injection Hidle as <- <-. split; [|split].
    + intros polls Hle. by replace polls with 0%nat by lia.
    + intros [|polls] c2 effects2 Hlt Hyes; [lia|]. simpl.
      rewrite Hyes. simpl. by rewrite app_nil_r.
    + intros [|polls] e c2 effects2 Hlt Hraise; [lia|]. simpl.
      by rewrite Hraise.
  - simpl in Hidle.
    destruct (is_in_state fuel dev cursor states invert)
      as [[[[[|]|e0] c0] effects0]|] eqn:Hpoll; try done.
    destruct (idle_polls n fuel polling_period dev c0 states invert)
      as [[c effects]|] eqn:Hrest; [|done].
    injection Hidle as <- <-.
    destruct (IH _ _ _ Hrest) as (Hnone & Hyes & Hraise).
    split; [|split].
    + intros [|polls] Hle; [done|]. simpl. rewrite Hpoll. simpl.
      by rewrite Hnone by lia.
    + intros [|polls] c2 effects2 Hlt Hy; [lia|]. simpl.
      rewrite Hpoll. simpl. rewrite (Hyes polls c2 effects2) by (lia || done).
      by rewrite <- app_assoc.
    + intros [|polls] e c2 effects2 Hlt Hr; [lia|]. simpl.
      rewrite Hpoll. simpl.
      rewrite (Hraise polls e c2 effects2) by (lia || done).
      by rewrite <- app_assoc.
Qed.

Lemma wait_returns_at_first_match_witness :
  let poll := [Open; Ioctl 3 Cdrom.CDROM_DRIVE_STATUS 0; Close 3] in
  (forall polls, (polls <= 1)%nat ->
     wait_tray_opened polls 1 DEFAULT_POLLING_PERIOD tray_moves 0 = None) /\
  (forall polls c2 effects2, (1 < polls)%nat ->
     is_tray_open 1 tray_moves 2 = Some (Ret true, c2, effects2) ->
     wait_tray_opened polls 1 DEFAULT_POLLING_PERIOD tray_moves 0
     = Some (Ret tt, c2,
             (poll ++ [Sleep DEFAULT_POLLING_PERIOD]) ++ effects2)) /\
  (forall polls e c2 effects2, (1 < polls)%nat ->
     is_tray_open 1 tray_moves 2 = Some (Raise e, c2, effects2) ->
     wait_tray_opened polls 1 DEFAULT_POLLING_PERIOD tray_moves 0
     = Some (Raise e, c2,
             (poll ++ [Sleep DEFAULT_POLLING_PERIOD]) ++ effects2)).
Proof.
  apply (wait_returns_at_first_match 1 1 DEFAULT_POLLING_PERIOD tray_moves
           0 TRAY_OPEN false 2).
  reflexivity.
Defined.

(** The ioctls of a call of [run_ioctl]: the request of the call, once
    or more; at least once when the call returns. *)
Lemma ioctls_app (xs ys : list Effect) :
  ioctls (xs ++ ys) = ioctls xs ++ ioctls ys.
Proof. apply omap_app. Qed.

Lemma ioctl_loop_ioctls (fuel : nat) (dev : Device) (cursor : nat)
    (fd request arg : Z) (effects0 : list Effect) r c effects :
  ioctl_loop fuel dev cursor fd request arg effects0 = Some (r, c, effects) ->
  exists k, ioctls effects = ioctls effects0 ++ replicate (S k) (request, arg).
Proof.
  revert cursor effects0. induction fuel as [|fuel IH];
    intros cursor effects0; [done|]. simpl.
  destruct (dev cursor) as [result|errno].
  - intros [= <- <- <-]. exists 0%nat. by rewrite ioctls_app.
  - destruct (errno =? EBUSY).
    + intros H. apply IH in H as [k ->]. exists (S k).
      rewrite ioctls_app, <- app_assoc. done.
    + intros [= <- <- <-]. exists 0%nat. by rewrite ioctls_app.
Qed.

Lemma run_ioctl_ioctls (fuel : nat) (dev : Device) (cursor : nat)
    (request arg : Z) r c effects :
  run_ioctl fuel dev cursor request arg = Some (r, c, effects) ->
  exists k, ioctls effects = replicate k (request, arg) /\
            (forall result, r = Ret result -> (0 < k)%nat).
Proof.
  unfold run_ioctl. destruct (dev cursor) as [fd|errno].
  - intros H. apply ioctl_loop_ioctls in H as [k ->]. exists (S k).
    split; [done|]. intros; lia.
  - intros [= <- <- <-]. exists 0%nat. split; [done|]. by intros.
Qed.

Lemma is_in_state_ioctls (fuel : nat) (dev : Device) (cursor : nat)
    (states : States) (invert : bool) r c effects :
  is_in_state fuel dev cursor states invert = Some (r, c, effects) ->
  exists k, ioctls effects = replicate k STATUS /\
            (forall b, r = Ret b -> (0 < k)%nat).
Proof.
  unfold is_in_state, get_status.
  destruct (run_ioctl fuel dev cursor Cdrom.CDROM_DRIVE_STATUS 0)
    as [[[[status|e] c0] effects0]|] eqn:E; [| |done];
    intros [= <- <- <-]; apply run_ioctl_ioctls in E as (k & -> & Hk);
    exists k; split; try done; intros; by eapply Hk.
Qed.

Lemma wait_for_state_ioctls (polls fuel : nat) (polling_period : Q)
    (dev : Device) (cursor : nat) (states : States) (invert : bool)
    r c effects :
  wait_for_state polls fuel polling_period dev cursor states invert
  = Some (r, c, effects) ->
  exists k, ioctls effects = replicate k STATUS /\
            (r = Ret tt -> (0 < k)%nat).
Proof.
  revert cursor effects r c. induction polls as [|polls IH];
    intros cursor effects r c; [done|]. simpl.
  intros [(e & H & ->) | (b & c1 & effects1 & effects2 & H & Hnext & ->)]
    %and_then_Some.
  - apply is_in_state_ioctls in H as (k & -> & _). exists k.
    split; [done|]. by intros.
  - apply is_in_state_ioctls in H as (k & Hk & Hpos).
    rewrite ioctls_app, Hk. destruct b.
    + injection Hnext as <- <- <-. exists k. rewrite app_nil_r.
      split; [done|]. intros _. by eapply Hpos.
    + destruct (wait_for_state polls fuel polling_period dev c1 states
                  invert) as [[[r' c'] effects']|] eqn:E; [|done].
      injection Hnext as <- <- <-. apply IH in E as (k' & Hk' & _).
      exists (k + k')%nat.
      change (ioctls (Sleep polling_period :: effects'))
        with (ioctls effects').
      rewrite Hk', replicate_add. split; [done|]. intros _.
      specialize (Hpos false eq_refl). lia.
Qed.

Lemma open_tray_ioctls (fuel : nat) (dev : Device) (cursor : nat)
    r c effects :
  open_tray fuel dev cursor = Some (r, c, effects) ->
  exists a b,
    ioctls effects = replicate a UNLOCK ++ replicate b EJECT /\
    ((0 < b)%nat -> (0 < a)%nat) /\
    (forall result, r = Ret result -> (0 < b)%nat).
Proof.
  unfold open_tray, unlock_door, set_door_lock.
  destruct (run_ioctl fuel dev cursor Cdrom.CDROM_LOCKDOOR 0)
    as [[[[x|e] c0] effects0]|] eqn:E0; [| |done].
  - destruct (run_ioctl fuel dev c0 Cdrom.CDROMEJECT 0)
      as [[[r1 c1] effects1]|] eqn:E1; [|done].
    intros [= <- <- <-].
    apply run_ioctl_ioctls in E0 as (a & Ha & Hapos).
    apply run_ioctl_ioctls in E1 as (b & Hb & Hbpos).
    exists a, b. rewrite ioctls_app, Ha, Hb. split; [done|].
    split; [intros _; by eapply Hapos | done].
  - intros [= <- <- <-].
    apply run_ioctl_ioctls in E0 as (a & Ha & _).
    exists a, 0%nat. rewrite Ha, app_nil_r.
    split; [done|]. split; [lia | by intros].
Qed.

(** X20.  The requests of [cycle], in order, whatever the device does:
    unlock the door, eject, status polls, then (with autoclose only)
    close the tray, then status polls.  A step is reached only when the
    one before it has been: no eject before an unlock, no poll before an
    eject, no close request before a poll; without autoclose the
    close-tray request is never sent, and the door is never locked. *)
Theorem cycle_request_order (polls fuel : nat) (polling_period : Q)
    (dev : Device) (cursor : nat) (autoclose : bool) r c effects :
  cycle polls fuel polling_period dev cursor autoclose
  = Some (r, c, effects) ->
  exists n_unlock n_eject n_opened n_close n_closed,
    ioctls effects
    = replicate n_unlock UNLOCK ++ replicate n_eject EJECT
        ++ replicate n_opened STATUS ++ replicate n_close CLOSETRAY
        ++ replicate n_closed STATUS /\
    ((0 < n_eject)%nat -> (0 < n_unlock)%nat) /\
    ((0 < n_opened)%nat -> (0 < n_eject)%nat) /\
    ((0 < n_close)%nat -> (0 < n_opened)%nat /\ autoclose = true) /\
    ((0 < n_closed)%nat ->
     (0 < n_opened)%nat /\ (autoclose = true -> (0 < n_close)%nat)) /\
    (r = Ret tt -> (0 < n_closed)%nat).
Proof.
  unfold cycle.
  intros [(e & H & ->) | (x & c1 & effects1 & effects2 & H & Hnext & ->)]
    %and_then_Some.
  { apply open_tray_ioctls in H as (a & b & -> & Hab & _).
    exists a, b, 0%nat, 0%nat, 0%nat. simpl. rewrite app_nil_r.
    repeat split; (lia || done). }
  apply open_tray_ioctls in H as (a & b & Hopen & Hab & Hb).
  specialize (Hb x eq_refl). rewrite ioctls_app, Hopen. clear Hopen.
  apply and_then_Some in Hnext
    as [(e & H & ->) | ([] & c2 & effects3 & effects4 & H & Hnext & ->)].
  { apply wait_for_state_ioctls in H as (k & -> & _).
    exists a, b, k, 0%nat, 0%nat. simpl. rewrite app_nil_r, <- app_assoc.
    repeat split; (lia || done). }
  apply wait_for_state_ioctls in H as (k & Hk & Hkpos).
  specialize (Hkpos eq_refl). rewrite ioctls_app, Hk. clear Hk.
  destruct autoclose.
  - apply and_then_Some in Hnext
      as [(e & H & ->) | (y & c3 & effects5 & effects6 & H & Hnext & ->)].
    + apply run_ioctl_ioctls in H as (d & -> & _).
      exists a, b, k, d, 0%nat. rewrite app_nil_r, <- !app_assoc.
      repeat split; (lia || done).
    + apply run_ioctl_ioctls in H as (d & Hd & Hdpos).
      specialize (Hdpos y eq_refl).
      apply wait_for_state_ioctls in Hnext as (k' & Hk' & Hk'pos).
      exists a, b, k, d, k'. rewrite ioctls_app, Hd, Hk', <- !app_assoc.
      repeat split; (lia || done).
  - apply wait_for_state_ioctls in Hnext as (k' & Hk' & Hk'pos).
    exists a, b, k, 0%nat, k'. rewrite Hk', <- !app_assoc.
    repeat split; (lia || done).
Qed.

Lemma cycle_request_order_witness :
  exists n_unlock n_eject n_opened n_close n_closed,
    ioctls
      ([Open; Ioctl 3 Cdrom.CDROM_LOCKDOOR 0; Close 3;
        Open; Ioctl 3 Cdrom.CDROMEJECT 0; Close 3;
        Open; Ioctl 3 Cdrom.CDROM_DRIVE_STATUS 0; Close 3;
        Sleep DEFAULT_POLLING_PERIOD;
        Open; Ioctl 3 Cdrom.CDROM_DRIVE_STATUS 0; Close 3;
        Sleep DEFAULT_POLLING_PERIOD;
        Open; Ioctl 3 Cdrom.CDROM_DRIVE_STATUS 0; Close 3;
        Open; Ioctl 3 Cdrom.CDROM_DRIVE_STATUS 0; Close 3])
    = replicate n_unlock UNLOCK ++ replicate n_eject EJECT
        ++ replicate n_opened STATUS ++ replicate n_close CLOSETRAY
        ++ replicate n_closed STATUS /\
    ((0 < n_eject)%nat -> (0 < n_unlock)%nat) /\
    ((0 < n_opened)%nat -> (0 < n_eject)%nat) /\
    ((0 < n_close)%nat -> (0 < n_opened)%nat /\ false = true) /\
    ((0 < n_closed)%nat ->
     (0 < n_opened)%nat /\ (false = true -> (0 < n_close)%nat)) /\
    (Ret tt = Ret tt -> (0 < n_closed)%nat).
Proof.
  apply (cycle_request_order 5 1 DEFAULT_POLLING_PERIOD
           (fun n => if Nat.even n then Returns 3
                     else if (n =? 9)%nat then Returns Cdrom.CDS_TRAY_OPEN
                     else Returns Cdrom.CDS_DISC_OK)
           0 false (Ret tt) 12).
  reflexivity.
Defined.

End PollFacts.

Module QueueFacts.
Import MqttWrapper MqttSpec MqttFacts.
Local Open Scope list_scope.

Lemma taken_app (xs ys : list Action) : taken (xs ++ ys) = taken xs ++ taken ys.
Proof. apply omap_app. Qed.

Lemma published_app (xs ys : list Action) :
  published (xs ++ ys) = published xs ++ published ys.
Proof. apply omap_app. Qed.

Lemma enqueue_all_app (message_queue messages : list Message) :
  enqueue_all message_queue messages = message_queue ++ messages.
Proof.
  unfold enqueue_all. revert message_queue.
  induction messages as [|[t p k] messages IH]; intros message_queue.
  - by rewrite app_nil_r.
  - simpl. rewrite IH. unfold enqueue_message. by rewrite <- app_assoc.
Qed.

(** What [get] takes is what the worker then holds. *)
Lemma get_held (connected : bool) (remaining : Z) (queue : list Message) :
  let '(w, actions) := get connected remaining queue in
  taken actions = held w /\ published actions = [] /\
  held w ++ message_queue w = queue.
Proof. by destruct queue. Qed.

Lemma on_error_held (retry_delay : Q) (m : Message) (remaining : Z)
    (queue : list Message) :
  let '(w, actions) := on_error retry_delay m remaining queue in
  published actions = [] /\
  taken actions ++ message_queue w = queue /\
  (held w = [m] /\ taken actions = [] \/ held w = taken actions).
Proof.
  unfold on_error. destruct (remaining - 1 <=? 0).
  - destruct queue as [|m' queue]; simpl; auto.
  - simpl. auto.
Qed.

(** One step: the queue loses what is taken; what is published was
    held, and what is held afterwards was held or has been taken. *)
Lemma step_held (retries : Z) (retry_delay : Q) (w : Worker) (ok : bool) :
  let '(w', actions) := step retries retry_delay w ok in
  taken actions ++ message_queue w' = message_queue w /\
  sublist (published actions ++ held w') (held w ++ taken actions).
Proof.
  unfold step. destruct w as [connected [m|] remaining queue]; simpl;
    [|split; [done | constructor]].
  destruct connected, ok; simpl.
  - pose proof (get_held true retries queue) as H.
    destruct (get true retries queue) as [w' actions].
    destruct H as (Ht & Hp & Hq). simpl. rewrite Ht. split; [done|].
    unfold published in *. simpl. rewrite Hp. done.
  - pose proof (on_error_held retry_delay m remaining queue) as H.
    destruct (on_error retry_delay m remaining queue) as [w' actions].
    destruct H as (Hp & Hq & Hh). simpl. split; [done|].
    unfold published in *. simpl. rewrite Hp. simpl.
    destruct Hh as [[-> ->] | ->]; [done|]. by apply sublist_cons.
  - done.
  - pose proof (on_error_held retry_delay m remaining queue) as H.
    destruct (on_error retry_delay m remaining queue) as [w' actions].
    destruct H as (Hp & Hq & Hh). simpl. split; [done|].
    unfold published in *. simpl. rewrite Hp. simpl.
    destruct Hh as [[-> ->] | ->]; [done|]. by apply sublist_cons.
Qed.

Lemma run_held (retries : Z) (retry_delay : Q) (net : list bool)
    (w : Worker) :
  let '(w', actions) := run retries retry_delay w net in
  taken actions ++ message_queue w' = message_queue w /\
  sublist (published actions) (held w ++ taken actions).
Proof.
  revert w. induction net as [|ok net IH]; intros w; simpl.
  - split; [done|]. apply sublist_nil_l.
  - pose proof (step_held retries retry_delay w ok) as Hs.
    destruct (step retries retry_delay w ok) as [w1 actions1].
    specialize (IH w1).
    destruct (run retries retry_delay w1 net) as [w2 actions2].
    destruct Hs as [Hq1 Hs1], IH as [Hq2 Hs2].
    rewrite taken_app, published_app. split.
    + by rewrite <- app_assoc, Hq2.
    + transitivity (published actions1 ++ held w1 ++ taken actions2).
      * by apply sublist_app.
      * rewrite !app_assoc. by apply sublist_app.
Qed.

(** X21.  Whatever the broker answers, the worker takes the messages
    from the front of the queue in their order (what it has taken and
    what is left make up the queue), and the messages the broker has
    accepted are among the taken ones, in the same order: nothing that
    was not enqueued is published, and no message is published twice or
    out of order. *)
Theorem published_in_queue_order (retries : Z) (retry_delay : Q)
    (messages : list Message) (net : list bool) :
  let result :=
    send_loop retries retry_delay (enqueue_all [] messages) net in
  taken result.2 ++ message_queue result.1 = messages /\
  sublist (published result.2) (taken result.2) /\
  sublist (published result.2) messages.
Proof.
  rewrite enqueue_all_app. simpl. unfold send_loop.
  pose proof (get_held false retries messages) as Hg.
  destruct (get false retries messages) as [w0 actions0].
  pose proof (run_held retries retry_delay net w0) as Hr.
  destruct (run retries retry_delay w0 net) as [w actions].
  destruct Hg as (Ht & Hp & Hq), Hr as [Hq' Hs]. simpl.
  rewrite taken_app, published_app, Hp, Ht. simpl.
  assert (Hall : (held w0 ++ taken actions) ++ message_queue w = messages)
    by (by rewrite <- app_assoc, Hq').
  split; [done|]. split; [done|].
  rewrite <- Hall. by apply sublist_inserts_r.
Qed.

(** A worker suspended on the empty queue does nothing more. *)
Lemma run_suspended (retries : Z) (retry_delay : Q) (w : Worker)
    (net : list bool) :
  current w = None -> run retries retry_delay w net = (w, []).
Proof.
  intros H. induction net as [|ok net IH]; [done|].
  simpl. unfold step. rewrite H, IH. done.
Qed.

(** On a broker that accepts everything. *)
Lemma run_healthy (retries : Z) (retry_delay : Q) (m : Message)
    (rest : list Message) (remaining : Z) (k : nat) :
  (length rest < k)%nat ->
  run retries retry_delay (mkWorker true (Some m) remaining rest)
    (replicate k true)
  = (mkWorker true None retries [],
     Publish m true
       :: flat_map (fun m' => [Get m'; Publish m' true]) rest).
Proof.
  revert m remaining k. induction rest as [|m' rest IH];
    intros m remaining [|k] Hk; simpl in Hk; try lia.
  - simpl. by rewrite run_suspended.
  - simpl. rewrite IH by lia. done.
Qed.

(** X22.  On a broker that accepts every operation, the worker connects
    once and publishes every message of the queue once, in the order of
    the queue, whatever the budget; it ends connected, waiting on the
    empty queue. *)
Theorem healthy_broker_publishes_all (retries : Z) (retry_delay : Q)
    (m : Message) (rest : list Message) (k : nat) :
  (S (length rest) < k)%nat ->
  send_loop retries retry_delay (m :: rest) (replicate k true)
  = (mkWorker true None retries [],
     Get m :: Connect true :: Publish m true
       :: flat_map (fun m' => [Get m'; Publish m' true]) rest) /\
  published (send_loop retries retry_delay (m :: rest) (replicate k true)).2
  = m :: rest.
Proof.
  intros Hk. destruct k as [|k]; [lia|].
  assert (E : send_loop retries retry_delay (m :: rest) (replicate (S k) true)
              = (mkWorker true None retries [],
                 Get m :: Connect true :: Publish m true
                   :: flat_map (fun m' => [Get m'; Publish m' true]) rest)).
  { unfold send_loop. simpl. rewrite run_healthy by lia. done. }
  split; [done|]. rewrite E. simpl. f_equal.
  clear. induction rest as [|m' rest IH]; [done|].
  simpl. unfold published in *. simpl. by rewrite IH.
Qed.

Lemma healthy_broker_publishes_all_witness :
  let m1 := mkMessage "djmkv/host/dev_sr0/progress" "1" [] in
  let m2 := mkMessage "djmkv/host/dev_sr0/message" "2" [] in
  send_loop DEFAULT_RETRIES DEFAULT_RETRY_DELAY [m1; m2] (replicate 3 true)
  = (mkWorker true None DEFAULT_RETRIES [],
     [Get m1; Connect true; Publish m1 true; Get m2; Publish m2 true]) /\
  published
    (send_loop DEFAULT_RETRIES DEFAULT_RETRY_DELAY [m1; m2]
       (replicate 3 true)).2
  = [m1; m2].
Proof.
  apply (healthy_broker_publishes_all DEFAULT_RETRIES DEFAULT_RETRY_DELAY
           (mkMessage "djmkv/host/dev_sr0/progress" "1" [])
           [mkMessage "djmkv/host/dev_sr0/message" "2" []] 3).
  simpl. lia.
Defined.

Lemma run_app (retries : Z) (retry_delay : Q) (net net' : list bool)
    (w : Worker) :
  run retries retry_delay w (net ++ net')
  = let '(w1, actions1) := run retries retry_delay w net in
    let '(w2, actions2) := run retries retry_delay w1 net' in
    (w2, actions1 ++ actions2).
Proof.
  revert w. induction net as [|ok net IH]; intros w; simpl.
  - by destruct (run retries retry_delay w net').
  - destruct (step retries retry_delay w ok) as [w1 actions1].
    rewrite IH. destruct (run retries retry_delay w1 net) as [w2 actions2].
    destruct (run retries retry_delay w2 net') as [w3 actions3].
    by rewrite app_assoc.
Qed.

(** While the counter stays above 1, a refused connection costs one unit
    and a sleep, and the message is kept. *)
Lemma refused_retries (retries : Z) (retry_delay : Q) (m : Message)
    (queue : list Message) (k : nat) (remaining : Z) :
  k = 0%nat \/ Z.of_nat k < remaining ->
  run retries retry_delay (mkWorker false (Some m) remaining queue)
    (replicate k false)
  = (mkWorker false (Some m) (remaining - Z.of_nat k) queue,
     mjoin (replicate k [Connect false; Sleep retry_delay])).
Proof.
  revert remaining. induction k as [|k IH]; intros remaining Hk.
  - simpl. by rewrite Z.sub_0_r.
  - destruct Hk as [|Hk]; [done|]. simpl. unfold step, on_error. simpl.
    destruct (Z.leb_spec (remaining - 1) 0); [lia|].
    rewrite IH by lia.
    replace (remaining - 1 - Z.of_nat k) with (remaining - Z.of_nat (S k))
      by lia.
    done.
Qed.

(** Once the counter is at most 1, every refused connection gives up the
    message held and takes the next one. *)
Lemma refused_drops (retries : Z) (retry_delay : Q) (j : nat) (m : Message)
    (queue : list Message) (remaining : Z) :
  remaining <= 1 ->
  taken (run retries retry_delay (mkWorker false (Some m) remaining queue)
           (replicate (S j) false)).2
  = take (S j) queue.
Proof.
  revert m queue remaining. induction j as [|j IH];
    intros m queue remaining Hr.
  - simpl. unfold step, on_error. simpl.
    destruct (Z.leb_spec (remaining - 1) 0); [|lia].
    by destruct queue as [|m' queue].
  - change (replicate (S (S j)) false)
      with (false :: replicate (S j) false).
    destruct queue as [|m' queue].
    + cbn [run]. unfold step, on_error. simpl.
      destruct (Z.leb_spec (remaining - 1) 0); [|lia]. simpl.
      by rewrite run_suspended.
    + cbn [run].
      destruct (spent_budget_drops_at_once retries retry_delay m m'
                  remaining queue Hr) as [-> Hr'].
      specialize (IH m' queue (remaining - 1) Hr').
      destruct (run retries retry_delay _ (replicate (S j) false))
        as [w actions].
      simpl in *. by rewrite IH.
Qed.

Lemma refused_publishes_nothing (retries : Z) (retry_delay : Q) (k : nat)
    (w : Worker) :
  published (run retries retry_delay w (replicate k false)).2 = [].
Proof.
  revert w. induction k as [|k IH]; intros w; [done|]. simpl.
  assert (Hs : published (step retries retry_delay w false).2 = []).
  { unfold step. destruct w as [connected [m|] remaining queue]; [|done].
    simpl.
    pose proof (on_error_held retry_delay m remaining queue) as H.
    destruct (on_error retry_delay m remaining queue) as [w' actions].
    destruct H as (Hp & _). by destruct connected. }
  destruct (step retries retry_delay w false) as [w1 actions1].
  specialize (IH w1).
  destruct (run retries retry_delay w1 (replicate k false))
    as [w2 actions2].
  simpl in *. by rewrite published_app, Hs, IH.
Qed.

(** X23.  On a broker that refuses every connection, for whatever
    budget: the first message is kept over the failures below the budget
    (at least one attempt is made), and is given up at the failure that
    reaches the budget; from then on every single failure gives up one
    more message of the queue.  Nothing is published. *)
Theorem refusing_broker_drops_one_per_failure (retries : Z)
    (retry_delay : Q) (m : Message) (rest : list Message) (j : nat) :
  let budget := first_budget retries in
  (forall k, (k < budget)%nat ->
     send_loop retries retry_delay (m :: rest) (replicate k false)
     = (mkWorker false (Some m) (retries - Z.of_nat k) rest,
        Get m :: mjoin (replicate k [Connect false; Sleep retry_delay]))) /\
  taken (send_loop retries retry_delay (m :: rest)
           (replicate (budget + j) false)).2
  = m :: take (S j) rest /\
  published (send_loop retries retry_delay (m :: rest)
               (replicate (budget + j) false)).2
  = [].
Proof.
  intros budget. unfold first_budget in budget. split; [|split].
  - intros k Hk. unfold send_loop. simpl.
    rewrite refused_retries; [done|]. subst budget. lia.
  - unfold send_loop. simpl.
    replace (budget + j)%nat with ((budget - 1) + S j)%nat
      by (subst budget; lia).
    rewrite replicate_add, run_app, refused_retries by (subst budget; lia).
    pose proof (refused_drops retries retry_delay j m rest
                  (retries - Z.of_nat (budget - 1))
                  ltac:(subst budget; lia)) as Hd.
    destruct (run retries retry_delay _ (replicate (S j) false))
      as [w actions].
    simpl in *. rewrite taken_app, Hd. f_equal.
    replace (taken (mjoin (replicate (budget - 1)
                             [Connect false; Sleep retry_delay])))
      with (@nil Message); [done|].
    generalize (budget - 1)%nat. clear. intros n.
    induction n as [|n IH]; [done|]. simpl. by rewrite <- IH.
  - unfold send_loop. simpl.
    pose proof (refused_publishes_nothing retries retry_delay (budget + j)
                  (mkWorker false (Some m) retries rest)) as Hp.
    destruct (run retries retry_delay _ (replicate (budget + j) false))
      as [w actions].
    simpl in *. done.
Qed.

End QueueFacts.

Module RipperFacts.
Import Events Sources Drive Database Ripper.
Import EventsSpec SourcesSpec HistorySpec InfoSpec TextSpec RipperSpec.
Import EventsFacts SourcesFacts RunFacts InfoFacts Samples.
Local Open Scope list_scope.

(** *** The disc id *)

(** Bit 63 alone. *)
Lemma land_bit_63 (n : Z) :
  Z.land n (Z.shiftl 1 63) = if Z.testbit n 63 then 2 ^ 63 else 0.
Proof.
  apply Z.bits_inj'. intros i Hi.
  rewrite Z.land_spec, Z.shiftl_1_l, Z.pow2_bits_eqb by lia.
  destruct (Z.eqb_spec 63 i) as [<-|Hne].
  - rewrite andb_true_r. destruct (Z.testbit n 63) eqn:E.
    + by rewrite Z.pow2_bits_eqb.
    + by rewrite Z.bits_0.
  - rewrite andb_false_r. destruct (Z.testbit n 63).
    + rewrite Z.pow2_bits_eqb by lia. symmetry. by apply Z.eqb_neq.
    + by rewrite Z.bits_0.
Qed.

Lemma testbit_63 (n : Z) :
  0 <= n -> Z.testbit n 63 = Z.odd (n / 2 ^ 63).
Proof.
  intros Hn. rewrite Z.testbit_odd, Z.shiftr_div_pow2 by lia. done.
Qed.

(** The value of a text of digits. *)
Lemma digits_all_bound (base : Z) (s : string) (acc : Z) (flag : bool)
    (v : Z) :
  0 < base -> 0 <= acc ->
  Radix.digits_all base acc flag s = Some v ->
  0 <= v < (acc + 1) * base ^ Z.of_nat (String.length s).
Proof.
  intros Hbase. revert acc flag.
  induction s as [|c s IH]; intros acc flag Hacc; simpl.
  - destruct flag; [|done]. intros [= <-]. lia.
  - rewrite Nat2Z.inj_succ, Z.pow_succ_r by lia.
    assert (Hpow : 0 < base ^ Z.of_nat (String.length s))
      by (apply Z.pow_pos_nonneg; lia).
    destruct (Radix.digit_value c) as [d|] eqn:Hd.
    + assert (Hrange : 0 <= d).
      { unfold Radix.digit_value in Hd.
        repeat (match type of Hd with
                | (if ?b then _ else _) = _ => destruct b eqn:?
                end); [| | |done]; injection Hd as <-; lia. }
      destruct (Z.ltb_spec d base); [|done].
      intros Hv. apply IH in Hv; [|nia]. nia.
    + destruct (Num.is_underscore c && flag); [|done].
      intros Hv. apply IH in Hv; [|lia]. nia.
Qed.

Lemma rstrip_all_kept (p : ascii -> bool) (s : string) :
  all_chars (fun c => negb (p c)) s = true -> Str.rstrip p s = s.
Proof.
  induction s as [|c s IH]; [done|]. simpl.
  intros [Hc Hs]%andb_prop. rewrite (IH Hs).
  destruct s; [|done]. by destruct (p c).
Qed.

Lemma strip_all_kept (p : ascii -> bool) (s : string) :
  all_chars (fun c => negb (p c)) s = true -> Str.strip p s = s.
Proof.
  intros H. unfold Str.strip.
  assert (Hl : Str.lstrip p s = s).
  { destruct s as [|c s]; [done|]. simpl in *.
    apply andb_prop in H as [Hc _]. by destruct (p c). }
  rewrite Hl. by apply rstrip_all_kept.
Qed.

Lemma all_chars_impl (p q : ascii -> bool) (s : string) :
  (forall c, p c = true -> q c = true) ->
  all_chars p s = true -> all_chars q s = true.
Proof.
  intros Hpq. induction s as [|c s IH]; [done|]. simpl.
  intros [Hc Hs]%andb_prop. by rewrite (Hpq c Hc), IH.
Qed.

Lemma is_hexdigit_plain (c : ascii) :
  CdromTable.is_hexdigit c = true ->
  Radix.is_int_space c = false /\ c <> "+"%char /\ c <> "-"%char /\
  Str.lower_char c <> "x"%char.
Proof.
  unfold CdromTable.is_hexdigit, Radix.is_int_space.
  destruct c as [[] [] [] [] [] [] [] []]; by vm_compute.
Qed.

(** A text of hexadecimal digits is read as it stands. *)
Lemma int16_hex_text (uuid : string) :
  hex_text uuid = true ->
  Radix.int 16 uuid = opt_or ValueError (Radix.digits_all 16 0 false uuid).
Proof.
  intros H. unfold Radix.int. rewrite strip_all_kept.
  2:{ apply (all_chars_impl CdromTable.is_hexdigit); [|done].
      intros c Hc. by destruct (is_hexdigit_plain c Hc) as [-> _]. }
  destruct uuid as [|c uuid]; [done|].
  simpl in H. apply andb_prop in H as [Hc H].
  destruct (is_hexdigit_plain c Hc) as (_ & Hplus & Hminus & _).
  assert (Hu : Radix.unsigned 16 (String c uuid)
               = Radix.digits_all 16 0 false (String c uuid)).
  { unfold Radix.unsigned. destruct uuid as [|x r].
    - by destruct c as [[] [] [] [] [] [] [] []].
    - simpl in H. apply andb_prop in H as [Hx _].
      destruct (is_hexdigit_plain x Hx) as (_ & _ & _ & Hx1).
      apply Ascii.eqb_neq in Hx1.
      change (Radix.prefix_letter 16) with "x"%char. rewrite Hx1.
      by destruct c as [[] [] [] [] [] [] [] []]. }
  rewrite <- Hu. clear Hu.
  destruct c as [[] [] [] [] [] [] [] []]; done.
Qed.

(** X24.  The disc id.  For a UUID that reads as a number [n >= 0] in
    base 16, [drive_loop] computes an id that differs from [n] by a
    multiple of 2^64, and that fits a signed integer of 64 bits exactly
    when [n < 2^64]; this is the case for every UUID of at most sixteen
    hexadecimal digits, while a number of 2^64 or more gives an id of
    2^63 or more, out of the range of the BigInteger column. *)
Theorem disc_id_fits_int64 (uuid : string) (n : Z) :
  Radix.int 16 uuid = Ret n -> 0 <= n ->
  exists id,
    disc_id uuid = Ret id /\
    (id - n) mod 2 ^ 64 = 0 /\
    (fits_int64 id <-> n < 2 ^ 64) /\
    (2 ^ 64 <= n -> 2 ^ 63 <= id) /\
    (hex_text uuid = true -> (String.length uuid <= 16)%nat -> n < 2 ^ 64).
Proof.
  intros Hint Hn. unfold disc_id. rewrite Hint. simpl.
  rewrite land_bit_63, testbit_63 by done.
  assert (H63 : 0 < 2 ^ 63) by lia.
  pose proof (Z.div_mod n (2 ^ 63) ltac:(lia)) as Hdiv.
  pose proof (Z.mod_pos_bound n (2 ^ 63) H63) as Hmod.
  pose proof (Z.div_pos n (2 ^ 63) Hn H63) as Hq.
  change (Z.shiftl 1 64) with (2 ^ 64).
  assert (E64 : 2 ^ 64 = 2 * 2 ^ 63) by done.
  assert (Hlast : hex_text uuid = true -> (String.length uuid <= 16)%nat ->
                  n < 2 ^ 64).
  { intros Hhex Hlen. rewrite int16_hex_text in Hint by done.
    destruct (Radix.digits_all 16 0 false uuid) as [v|] eqn:E; [|done].
    injection Hint as ->. apply digits_all_bound in E; [|lia|lia].
    assert (16 ^ Z.of_nat (String.length uuid) <= 16 ^ 16)
      by (apply Z.pow_le_mono_r; lia).
    change (2 ^ 64) with (16 ^ 16). lia. }
  destruct (Z.odd (n / 2 ^ 63)) eqn:Hodd.
  - exists (n - 2 ^ 64). simpl. split; [done|].
    apply Zodd_bool_iff, Zodd_ex in Hodd as [m Hm].
    split; [|split; [|split; [|done]]].
    + replace (n - 2 ^ 64 - n) with (-1 * 2 ^ 64) by lia.
      apply Z.mod_mul. lia.
    + unfold fits_int64. split; intros H; nia.
    + intros H. clear Hlast.
      assert (n / 2 ^ 63 >= 2) by nia. nia.
  - exists n. simpl. split; [done|].
    assert (Heven : Z.even (n / 2 ^ 63) = true)
      by (by rewrite <- Z.negb_odd, Hodd).
    apply Zeven_bool_iff, Zeven_ex in Heven as [m Hm].
    split; [|split; [|split; [|done]]].
    + by rewrite Z.sub_diag.
    + unfold fits_int64. split; intros H; nia.
    + intros H. lia.
Qed.

Lemma disc_id_fits_int64_witness :
  exists id,
    disc_id "8000000000000001" = Ret id /\
    (id - (2 ^ 63 + 1)) mod 2 ^ 64 = 0 /\
    (fits_int64 id <-> 2 ^ 63 + 1 < 2 ^ 64) /\
    (2 ^ 64 <= 2 ^ 63 + 1 -> 2 ^ 63 <= id) /\
    (hex_text "8000000000000001" = true ->
     (String.length "8000000000000001" <= 16)%nat -> 2 ^ 63 + 1 < 2 ^ 64).
Proof.
  apply (disc_id_fits_int64 "8000000000000001" (2 ^ 63 + 1)).
  - reflexivity.
  - lia.
Defined.

(** *** The scan *)

Lemma from_decoder_not_stop (item : Item) : from_decoder item -> not_stop item.
Proof. intros H n. by destruct (H n). Qed.

(** Without a Stop event the loop does not end. *)
Lemma scan_loop_no_stop (queue : list Item) (progress : Progress) :
  Forall not_stop queue -> (scan_loop queue progress).2 = None.
Proof.
  intros H. revert progress. induction H as [|item queue Hi _ IH];
    intros progress; [done|].
  destruct item as [[]|]; simpl; try apply IH.
  - by destruct (Hi command_number).
  - specialize (IH progress). by destruct (scan_loop queue progress).
  - match goal with
    | |- context [scan_loop queue ?p] =>
        specialize (IH p); by destruct (scan_loop queue p)
    end.
Qed.

(** Up to the Stop event: the messages and the fractions of the events
    are published in order, then the completion. *)
Lemma scan_loop_to_stop (middle : list Item) (n : Z) (progress : Progress) :
  Forall not_stop middle ->
  exists calls,
    scan_loop (middle ++ [Some (StopEvent n)]) progress
    = (calls ++ [PublishProgress (mkProgress COMPLETE COMPLETE)], Some []) /\
    published_messages calls = messages middle /\
    published_fractions calls = fractions middle.
Proof.
  intros H. revert progress. induction H as [|item middle Hi _ IH];
    intros progress.
  - by exists [].
  - destruct item as [[]|]; simpl; try apply IH.
    + by destruct (Hi command_number).
    + destruct (IH progress) as (calls & -> & Hm & Hf).
      exists (PublishMessage message :: calls).
      split; [done|]. split; [|done].
      unfold published_messages, messages. simpl. f_equal. exact Hm.
    + match goal with
      | |- context [scan_loop _ ?p] =>
          destruct (IH p) as (calls & -> & Hm & Hf);
          exists (PublishProgress p :: calls)
      end.
      split; [done|]. split; [done|].
      unfold published_fractions, fractions. simpl. f_equal. exact Hf.
Qed.

(** X25.  A scan whose info run raises (the tool cannot be started, or
    the decoder raises on a line) never returns: no Stop event reaches
    the queue, the loop of [scan_disc] stays suspended in [get_event],
    the exception of the info task is never raised to the caller, and
    the door, once locked, is not unlocked.  Only a failure to lock the
    door makes [scan_disc] raise. *)
Theorem aborted_scan_never_returns (fuel : nat) (dev : Device) (cursor : nat)
    (os : Spawn) (self : Source) (e : Exn) :
  Forall not_stop (event_queue self) ->
  (run_info os self).2 = Raise e ->
  (scan_body os self).1 = None /\
  scan_disc fuel dev cursor os self
  = match lock_door fuel dev cursor with
    | Some (Raise e', cursor', effects) => Some (Raise e', cursor', effects)
    | _ => None
    end.
Proof.
  intros Hq He.
  assert (Hbody : (scan_body os self).1 = None).
  { unfold scan_body, get_info. unfold run_info in *.
    destruct (run_command_shape os (DEFAULT_ARGS ++ ["info"; source_id self])
                self) as (middle & Hm & Hs).
    destruct (run_command os _ self) as [self' [[n history]|e']] eqn:E;
      simpl in *; [done|]. subst self'.
    pose proof (scan_loop_no_stop
                  (event_queue self
                     ++ Some (StartEvent (command_counter self)) :: middle)
                  (mkProgress STARTING STARTING)) as Hloop.
    simpl. destruct (scan_loop _ _) as [calls rest]. simpl in Hloop.
    rewrite Hloop; [done|].
    apply Forall_app. split; [done|]. constructor; [by intros n|].
    eapply Forall_impl; [exact Hm|]. apply from_decoder_not_stop. }
  split; [done|]. unfold scan_disc, locked_door, and_then.
  rewrite Hbody. by destruct (lock_door fuel dev cursor) as [[[[]]]|].
Qed.

Lemma aborted_scan_never_returns_witness :
  (scan_body no_tool sr0).1 = None /\
  scan_disc 3 DriveSpec.busy_twice 0 no_tool sr0
  = match lock_door 3 DriveSpec.busy_twice 0 with
    | Some (Raise e', cursor', effects) => Some (Raise e', cursor', effects)
    | _ => None
    end.
Proof.
  apply (aborted_scan_never_returns 3 DriveSpec.busy_twice 0 no_tool sr0
           (OSError ENOENT)).
  - constructor.
  - reflexivity.
Defined.

(** X26.  A scan whose info run completes, on a source with nothing
    pending: the body returns the dictionary of the run's history.  It
    publishes the Starting progress first and the Complete progress
    last; between them, the message of every Message event and, for
    every ProgressValue event, a progress with its two fractions, in the
    order of the events. *)
Theorem completed_scan_reports (os : Spawn) (self : Source) (n : Z)
    (history : list Item) :
  event_queue self = [] ->
  (run_info os self).2 = Ret (n, history) ->
  exists calls,
    scan_body os self
    = (Some (Ret (history_to_dict history)),
       PublishProgress (mkProgress STARTING STARTING)
         :: calls ++ [PublishProgress (mkProgress COMPLETE COMPLETE)]) /\
    published_messages calls = messages history /\
    published_fractions calls = fractions history /\
    forall fuel dev cursor,
      scan_disc fuel dev cursor os self
      = locked_door fuel dev cursor
          (fun cursor => Some (Ret (history_to_dict history), cursor, [])).
Proof.
  intros Hq He. unfold run_info in He.
  destruct (run_command_shape os (DEFAULT_ARGS ++ ["info"; source_id self])
              self) as (middle & Hm & Hs).
  assert (Hmid : Forall not_stop middle).
  { eapply Forall_impl; [exact Hm|]. apply from_decoder_not_stop. }
  destruct (scan_loop_to_stop middle (command_counter self)
              (mkProgress STARTING STARTING) Hmid)
    as (calls & Hloop & Hmsg & Hfr).
  assert (Hbody : scan_body os self
            = (Some (Ret (history_to_dict history)),
               PublishProgress (mkProgress STARTING STARTING)
                 :: calls
                 ++ [PublishProgress (mkProgress COMPLETE COMPLETE)])).
  { unfold scan_body, get_info, run_info.
    destruct (run_command os _ self) as [self' [[n' history']|e']] eqn:E;
      simpl in *; [|done].
    injection He as -> ->. destruct Hs as (_ & -> & ->).
    unfold after_run. simpl. rewrite Hq. simpl. by rewrite Hloop. }
  exists calls. split; [done|].
  assert (Hh : history
            = Some (StartEvent (command_counter self))
                :: middle ++ [Some (StopEvent (command_counter self))]).
  { destruct (run_command os _ self) as [self' [[n' history']|e']];
      simpl in *; [|done].
    injection He as -> ->. by destruct Hs as (_ & -> & _). }
  split; [|split].
  - rewrite Hmsg, Hh. unfold messages. simpl. rewrite omap_app. simpl.
    by rewrite app_nil_r.
  - rewrite Hfr, Hh. unfold fractions. simpl. rewrite omap_app. simpl.
    by rewrite app_nil_r.
  - intros fuel dev cursor. unfold scan_disc. by rewrite Hbody.
Qed.

Lemma completed_scan_reports_witness :
  exists calls,
    scan_body (tool (mkProcess [line hello_line; line "PRGV:1,2,4"] "")) sr0
    = (Some (Ret (history_to_dict
                    [Some (StartEvent 0);
                     Some (MessageEvent "1" "0" "0" "Hello world" "0" []);
                     Some (ProgressValueEvent 1 2 4 (1 # 4) (1 # 2));
                     Some (StopEvent 0)])),
       PublishProgress (mkProgress STARTING STARTING)
         :: calls ++ [PublishProgress (mkProgress COMPLETE COMPLETE)]) /\
    published_messages calls
    = messages
        [Some (StartEvent 0);
         Some (MessageEvent "1" "0" "0" "Hello world" "0" []);
         Some (ProgressValueEvent 1 2 4 (1 # 4) (1 # 2));
         Some (StopEvent 0)] /\
    published_fractions calls
    = fractions
        [Some (StartEvent 0);
         Some (MessageEvent "1" "0" "0" "Hello world" "0" []);
         Some (ProgressValueEvent 1 2 4 (1 # 4) (1 # 2));
         Some (StopEvent 0)] /\
    forall fuel dev cursor,
      scan_disc fuel dev cursor
        (tool (mkProcess [line hello_line; line "PRGV:1,2,4"] "")) sr0
      = locked_door fuel dev cursor
          (fun cursor =>
             Some (Ret (history_to_dict
                          [Some (StartEvent 0);
                           Some (MessageEvent "1" "0" "0" "Hello world" "0"
                                   []);
                           Some (ProgressValueEvent 1 2 4 (1 # 4) (1 # 2));
                           Some (StopEvent 0)]),
                   cursor, [])).
Proof.
  apply (completed_scan_reports
           (tool (mkProcess [line hello_line; line "PRGV:1,2,4"] ""))
           sr0 0); reflexivity.
Defined.

(** *** The rows *)

Section upsert.
Context {R D : Type} (new : nat -> D -> R) (modify : D -> R -> R).

Lemma upsert_all (data : list D) (start : nat) (rows : list R) :
  (start <= length rows)%nat ->
  let rows' := foldl (upsert new modify) rows (enumerate_from start data) in
  length rows' = (length rows `max` (start + length data))%nat /\
  (forall k, (k < start)%nat \/ (start + length data <= k)%nat ->
             rows' !! k = rows !! k) /\
  (forall j x, data !! j = Some x ->
               rows' !! (start + j)%nat
               = Some match rows !! (start + j)%nat with
                      | Some row => modify x row
                      | None => new (start + j)%nat x
                      end).
Proof.
  revert start rows. induction data as [|x data IH]; intros start rows Hs.
  - simpl. split; [lia|]. split; [done|]. intros j y Hj. done.
  - simpl.
    set (rows1 := upsert new modify rows (start, x)).
    assert (H1 : (S start <= length rows1)%nat /\
                 length rows1 = (length rows `max` S start)%nat /\
                 rows1 !! start
                 = Some match rows !! start with
                        | Some row => modify x row
                        | None => new start x
                        end /\
                 forall k, k <> start -> rows1 !! k = rows !! k).
    { unfold rows1, upsert. simpl. destruct (Nat.leb_spec (length rows) start).
      - assert (length rows = start) by lia. subst start.
        rewrite length_app. simpl.
        split; [lia|]. split; [lia|]. split.
        + rewrite lookup_app_r, Nat.sub_diag by lia.
          by rewrite (lookup_ge_None_2 rows (length rows)) by lia.
        + intros k Hk. destruct (Nat.lt_ge_cases k (length rows)).
          * by rewrite lookup_app_l by lia.
          * rewrite !lookup_ge_None_2; [done | lia |].
            rewrite length_app. simpl. lia.
      - rewrite length_alter. split; [lia|]. split; [lia|]. split.
        + rewrite list_lookup_alter_eq.
          destruct (lookup_lt_is_Some_2 rows start ltac:(lia)) as [row ->].
          done.
        + intros k Hk. by rewrite list_lookup_alter_ne. }
    destruct H1 as (Hs1 & Hlen1 & Hat & Hother).
    destruct (IH (S start) _ Hs1) as (Hlen & Hout & Hin).
    split; [lia|]. split.
    + intros k Hk. rewrite Hout by lia. apply Hother. lia.
    + intros [|j] y Hj; simpl in Hj.
      * injection Hj as <-. rewrite Nat.add_0_r, Hout by lia. done.
      * replace (start + S j)%nat with (S start + j)%nat by lia.
        rewrite (Hin j y Hj), Hother by lia. done.
Qed.

Lemma upsert_enumerate (data : list D) (rows : list R) :
  let rows' := foldl (upsert new modify) rows (enumerate data) in
  length rows' = (length rows `max` length data)%nat /\
  (forall k, (length data <= k)%nat -> rows' !! k = rows !! k) /\
  (forall k x, data !! k = Some x ->
               rows' !! k
               = Some match rows !! k with
                      | Some row => modify x row
                      | None => new k x
                      end).
Proof.
  destruct (upsert_all data 0 rows ltac:(lia)) as (Hlen & Hout & Hin).
  split; [exact Hlen|]. split.
  - intros k Hk. apply Hout. right. exact Hk.
  - intros k x Hk. exact (Hin k x Hk).
Qed.
End upsert.

(** [update_streams] touches the collection of streams only. *)
Lemma update_streams_upsert (title : DiscTitle) (title_data : TitleDict) :
  update_streams title title_data
  = mkDiscTitle (title_disc_id title) (title_number title) (columns title)
      (foldl (upsert (fun j sd => written_stream title None j sd)
                (fun sd stream => written_stream title (Some stream) 0 sd))
         (streams title) (enumerate (Streams title_data))).
Proof.
  unfold update_streams, enumerate.
  generalize (Streams title_data). intros data. clear title_data.
  assert (Hgen : forall start t,
            title_disc_id t = title_disc_id title ->
            title_number t = title_number title ->
            columns t = columns title ->
            foldl (fun title '(stream_number, stream_data) =>
                     update_stream title stream_number stream_data)
              t (enumerate_from start data)
            = mkDiscTitle (title_disc_id title) (title_number title)
                (columns title)
                (foldl (upsert
                          (fun j sd => written_stream title None j sd)
                          (fun sd stream =>
                             written_stream title (Some stream) 0 sd))
                   (streams t) (enumerate_from start data))).
  { induction data as [|sd data IH]; intros start t H1 H2 H3.
    - simpl. destruct t. simpl in *. by subst.
    - simpl. rewrite IH.
      + f_equal. f_equal. unfold update_stream, upsert, written_stream.
        simpl. rewrite H1, H2.
        by destruct (length (streams t) <=? start)%nat.
      + unfold update_stream.
        by destruct (length (streams t) <=? start)%nat.
      + unfold update_stream.
        by destruct (length (streams t) <=? start)%nat.
      + unfold update_stream.
        by destruct (length (streams t) <=? start)%nat. }
  by apply Hgen.
Qed.

Lemma update_titles_upsert (disc_id : Z) (existing : list DiscTitle)
    (disc_data : InfoDict) :
  update_titles disc_id existing disc_data
  = foldl (upsert (fun k td => written_title disc_id None k td)
             (fun td title => written_title disc_id (Some title) 0 td))
      existing (enumerate (Titles disc_data)).
Proof.
  unfold update_titles. generalize (enumerate (Titles disc_data)).
  intros items. revert existing.
  induction items as [|[k td] items IH]; intros existing; [done|].
  simpl. rewrite IH. reflexivity.
Qed.

Lemma update_streams_columns (title : DiscTitle) (title_data : TitleDict) :
  columns (update_streams title title_data) = columns title.
Proof. by rewrite update_streams_upsert. Qed.

(** The columns of a written title. *)
Lemma written_title_columns (disc_id : Z) (existing : option DiscTitle)
    (k : nat) (title_data : TitleDict) :
  columns (written_title disc_id existing k title_data)
  = columns_of (attrs_of_title title_data).
Proof.
  unfold written_title. destruct existing; by rewrite update_streams_upsert.
Qed.

(** No attribute is named like the two keys [update_titles] looks the
    sizes up with. *)
Lemma size_keys_unnamed (key : string) :
  is_attribute_name key -> key <> "DiscSize" /\ key <> "DiscSizeBytes".
Proof. intros [a <-]. by destruct a. Qed.

(** X27.  The sizes of a scan are never stored.  Whatever the history,
    every title row that [update_titles] writes from
    [history_to_dict] has the default in its two size columns (Unknown
    and 0): the keys looked up, DiscSize and DiscSizeBytes, are the
    name of no attribute (the attributes are DiskSize and
    DiskSizeBytes), so that no dictionary of a title ever has them. *)
Theorem scanned_sizes_never_stored (history : list Item) (disc_id : Z)
    (existing : list DiscTitle) (k : nat) (row : DiscTitle) :
  let disc_data := history_to_dict history in
  (k < length (Titles disc_data))%nat ->
  update_titles disc_id existing disc_data !! k = Some row ->
  disc_size (columns row) = VStr "Unknown" /\
  disc_size_bytes (columns row) = VInt 0.
Proof.
  intros disc_data Hk Hrow.
  destruct (lookup_lt_is_Some_2 _ _ Hk) as [td Htd].
  rewrite update_titles_upsert in Hrow.
  destruct (upsert_enumerate (fun k td => written_title disc_id None k td)
              (fun td title => written_title disc_id (Some title) 0 td)
              (Titles disc_data) existing)
    as (_ & _ & Hin).
  rewrite (Hin k td Htd) in Hrow. injection Hrow as <-.
  assert (Hkeys : keys_named (attrs_of_title td)).
  { apply (title_keys_named history), list_elem_of_lookup. eauto. }
  assert (Hnone : forall key,
            key = "DiscSize" \/ key = "DiscSizeBytes" ->
            attrs_of_title td !! key = None).
  { intros key Hkey. destruct (attrs_of_title td !! key) eqn:E; [|done].
    destruct (size_keys_unnamed key) as [H1 H2]; [|destruct Hkey; done].
    apply Hkeys. by eexists. }
  assert (Hres : disc_size (columns_of (attrs_of_title td)) = VStr "Unknown"
                 /\ disc_size_bytes (columns_of (attrs_of_title td)) = VInt 0).
  { unfold columns_of, dict_get. simpl.
    rewrite !Hnone by auto. done. }
  destruct (existing !! k); cbv beta; rewrite !update_streams_columns;
    exact Hres.
Qed.

Lemma scanned_sizes_never_stored_witness :
  let row :=
    mkDiscTitle 7 0
      (columns_of {[ "DiskSize" := VStr "4.3 GB";
                     "DiskSizeBytes" := VInt 4300000000 ]}) [] in
  disc_size (columns row) = VStr "Unknown" /\
  disc_size_bytes (columns row) = VInt 0.
Proof.
  apply (scanned_sizes_never_stored sized_title 7 [] 0).
  - vm_compute. lia.
  - reflexivity.
Defined.

(** X28.  [update_titles] writes by position and deletes nothing: the
    collection ends as long as the longer of the existing rows and the
    titles of the scan; the row at the position of a title of the scan
    is the existing row with the values of the title in its columns (its
    disc id and title number kept), or a new row with the position as
    title number; the existing rows past the titles of the scan stay as
    they are.  The streams of each title are written in the same way. *)
Theorem titles_written_by_position (disc_id : Z) (existing : list DiscTitle)
    (disc_data : InfoDict) :
  let titles := update_titles disc_id existing disc_data in
  length titles = (length existing `max` length (Titles disc_data))%nat /\
  (forall k, (length (Titles disc_data) <= k)%nat ->
             titles !! k = existing !! k) /\
  (forall k title_data,
     Titles disc_data !! k = Some title_data ->
     exists row,
       titles !! k = Some row /\
       row = written_title disc_id (existing !! k) k title_data /\
       columns row = columns_of (attrs_of_title title_data) /\
       (title_disc_id row, title_number row)
       = match existing !! k with
         | Some old => (title_disc_id old, title_number old)
         | None => (disc_id, Z.of_nat k)
         end /\
       let old_streams := from_option streams [] (existing !! k) in
       length (streams row)
       = (length old_streams `max` length (Streams title_data))%nat /\
       (forall j, (length (Streams title_data) <= j)%nat ->
                  streams row !! j = old_streams !! j) /\
       (forall j stream_data,
          Streams title_data !! j = Some stream_data ->
          streams row !! j
          = Some (written_stream row (old_streams !! j) j stream_data))).
Proof.
  intros titles. subst titles. rewrite update_titles_upsert.
  destruct (upsert_enumerate (fun k td => written_title disc_id None k td)
              (fun td title => written_title disc_id (Some title) 0 td)
              (Titles disc_data) existing)
    as (Hlen & Hout & Hin).
  split; [exact Hlen|]. split; [exact Hout|].
  intros k td Htd. specialize (Hin k td Htd).
  eexists. split; [exact Hin|].
  assert (Hsame : match existing !! k with
                  | Some row => written_title disc_id (Some row) 0 td
                  | None => written_title disc_id None k td
                  end = written_title disc_id (existing !! k) k td)
    by (by destruct (existing !! k)).
  rewrite Hsame. split; [done|].
  split; [apply written_title_columns|].
  set (base := match existing !! k with
               | Some title =>
                   mkDiscTitle (title_disc_id title) (title_number title)
                     (columns_of (attrs_of_title td)) (streams title)
               | None =>
                   mkDiscTitle disc_id (Z.of_nat k)
                     (columns_of (attrs_of_title td)) []
               end).
  assert (Hrow : written_title disc_id (existing !! k) k td
                 = update_streams base td)
    by (unfold written_title, base; by destruct (existing !! k)).
  rewrite Hrow, update_streams_upsert.
  destruct (upsert_enumerate (fun j sd => written_stream base None j sd)
              (fun sd stream => written_stream base (Some stream) 0 sd)
              (Streams td) (streams base))
    as (Hslen & Hsout & Hsin).
  assert (Hold : streams base = from_option streams [] (existing !! k))
    by (unfold base; by destruct (existing !! k)).
  cbn [title_disc_id title_number streams columns]. cbv zeta.
  split; [unfold base; by destruct (existing !! k)|].
  rewrite <- Hold. split; [exact Hslen|]. split; [exact Hsout|].
  intros j sd Hsd. rewrite (Hsin j sd Hsd). f_equal.
Qed.

End RipperFacts.

Module CdromFacts.
Import CdromTable TextSpec CdromSpec.
Local Open Scope list_scope.

(** *** The repetitions of the patterns *)

Lemma span_app (p : ascii -> bool) (s rest : string) :
  all_chars p s = true -> starts_without p rest = true ->
  span p (s ++ rest) = (s, rest).
Proof.
  intros Hs Hrest. induction s as [|c s IH]; simpl in *.
  - destruct rest as [|d rest]; [done|]. simpl in *.
    destruct (p d); simpl in *; done.
  - apply andb_prop in Hs as [-> Hs]. by rewrite (IH Hs).
Qed.

Lemma some_of_app (p : ascii -> bool) (s rest : string) :
  some_chars p s -> starts_without p rest = true ->
  some_of p (s ++ rest) = Some (s, rest).
Proof.
  intros [Hne Hs] Hrest. unfold some_of. rewrite span_app by done.
  by destruct s.
Qed.

Lemma span_all_chars (p : ascii -> bool) (s taken rest : string) :
  span p s = (taken, rest) -> all_chars p taken = true.
Proof.
  revert taken rest. induction s as [|c s IH]; intros taken rest; simpl.
  - by intros [= <- <-].
  - destruct (p c) eqn:Hc; [|by intros [= <- <-]].
    destruct (span p s) as [taken' rest']. intros [= <- <-]. simpl.
    by rewrite Hc, (IH taken' rest').
Qed.

Lemma some_of_some_chars (p : ascii -> bool) (s taken rest : string) :
  some_of p s = Some (taken, rest) -> some_chars p taken.
Proof.
  unfold some_of. destruct (span p s) as [taken' rest'] eqn:E.
  apply span_all_chars in E.
  destruct taken' as [|c taken']; [done|]. intros [= <- <-]. by split.
Qed.

Lemma literal_app (text s : string) : literal text (text ++ s) = Some s.
Proof.
  induction text as [|a text IH]; simpl; [by destruct s|].
  by rewrite Ascii.eqb_refl.
Qed.

(** The start of a text that begins with a text of a class. *)
Lemma starts_without_app (p q : ascii -> bool) (s rest : string) :
  some_chars q s -> (forall c, q c = true -> p c = false) ->
  starts_without p (s ++ rest) = true.
Proof.
  intros [Hne Hs] Hpq. destruct s as [|c s]; [done|]. simpl in *.
  apply andb_prop in Hs as [Hc _]. by rewrite (Hpq c Hc).
Qed.

Lemma word_not_nonword (c : ascii) : is_word c = true -> is_nonword c = false.
Proof. unfold is_nonword. by intros ->. Qed.

Lemma nonword_not_word (c : ascii) : is_nonword c = true -> is_word c = false.
Proof. unfold is_nonword. by destruct (is_word c). Qed.

Lemma hexdigit_word (c : ascii) : is_hexdigit c = true -> is_word c = true.
Proof.
  unfold is_hexdigit, is_word.
  destruct c as [[] [] [] [] [] [] [] []]; by vm_compute.
Qed.

Lemma digit_word (c : ascii) : Num.is_digit c = true -> is_word c = true.
Proof.
  unfold Num.is_digit, is_word.
  destruct c as [[] [] [] [] [] [] [] []]; by vm_compute.
Qed.

(** The shared part of the patterns on a define line whose number starts
    with a word character. *)
Lemma define_key_line (gap1 key gap2 number : string) :
  is_gap gap1 -> some_chars is_word key -> is_gap gap2 ->
  starts_without is_nonword number = true ->
  define_key (define_line gap1 key gap2 number) = Some (key, number).
Proof.
  intros Hg1 Hk Hg2 Hn. unfold define_key, define_line.
  rewrite literal_app. simpl.
  rewrite (some_of_app is_nonword gap1) by
    (done || (apply (starts_without_app _ is_word); [done|];
              apply word_not_nonword)).
  simpl.
  rewrite (some_of_app is_word key) by
    (done || (apply (starts_without_app _ is_nonword); [done|];
              apply nonword_not_word)).
  simpl. by rewrite (some_of_app is_nonword gap2) by done.
Qed.

(** A text of hexadecimal digits reads in base 16. *)
Lemma digits_all_hex (s : string) (acc : Z) (flag : bool) :
  all_chars is_hexdigit s = true -> (s <> "" \/ flag = true) ->
  is_Some (Radix.digits_all 16 acc flag s).
Proof.
  revert acc flag. induction s as [|c s IH]; intros acc flag Hs Hne.
  - destruct Hne as [Hne | ->]; [done|]. by eexists.
  - simpl in *. apply andb_prop in Hs as [Hc Hs].
    assert (Hd : exists d, Radix.digit_value c = Some d /\ d < 16).
    { unfold is_hexdigit in Hc. unfold Radix.digit_value.
      destruct c as [[] [] [] [] [] [] [] []]; try discriminate Hc;
        vm_compute; by eexists. }
    destruct Hd as (d & -> & Hlt).
    destruct (Z.ltb_spec d 16); [|lia]. apply IH; [done | by right].
Qed.

Lemma int16_hex_value (value : string) :
  some_chars is_hexdigit value -> exists v, Radix.int 16 value = Ret v.
Proof.
  intros [Hne Hs]. rewrite RipperFacts.int16_hex_text by done.
  destruct (digits_all_hex value 0 false Hs (or_introl Hne)) as [v ->].
  by eexists.
Qed.

(** *** The loader whose names are intact *)

Lemma intact_name (t : Tables) (name : string) :
  names_intact t = true -> name ∈ loader_names -> rebound t name = false.
Proof.
  unfold names_intact. rewrite forallb_forall. intros H Hin.
  apply negb_true_iff, H. by apply list_elem_of_In.
Qed.

Ltac loader_name := repeat first [ apply list_elem_of_here
                                 | apply list_elem_of_further ].

Lemma add_ioctl_intact (t : Tables) (key : string) (v : Z) :
  names_intact t = true ->
  add_ioctl key v t = (set_constant key v t, None).
Proof.
  intros H. unfold add_ioctl.
  rewrite (intact_name t "ioctl_values") by (done || loader_name).
  unfold rebound at 1. cbn [globals].
  fold (rebound t "globals").
  by rewrite (intact_name t "globals") by (done || loader_name).
Qed.

Lemma call_add_ioctl_intact (t : Tables) (key value : string)
    (number : string -> Exc Z) :
  names_intact t = true ->
  call_add_ioctl t key number value
  = match number value with
    | Ret v => (set_constant key v t, None)
    | Raise e => (t, Some e)
    end.
Proof.
  intros H. unfold call_add_ioctl.
  rewrite (intact_name t "int") by (done || loader_name).
  destruct (number value); [|done].
  rewrite (intact_name t "add_ioctl") by (done || loader_name).
  by apply add_ioctl_intact.
Qed.

(** The turn of the loop, pattern by pattern. *)
Lemma load_line_intact (t : Tables) (line : string) :
  names_intact t = true ->
  load_line t line
  = match hex_pattern line with
    | Some (key, value) => call_add_ioctl t key (Radix.int 16) value
    | None =>
        match binary_pattern line with
        | Some (key, value) => call_add_ioctl t key (Radix.int 2) value
        | None =>
            match decimal_pattern line with
            | Some (key, value) => call_add_ioctl t key Num.int value
            | None => (t, None)
            end
        end
    end.
Proof.
  intros H. unfold load_line, match_pattern.
  rewrite (intact_name t "hex_pattern") by (done || loader_name).
  rewrite (intact_name t "binary_pattern") by (done || loader_name).
  by rewrite (intact_name t "decimal_pattern") by (done || loader_name).
Qed.

(** X29.  How an ASCII define line is read.  The key stands between two
    gaps of one or more non-word characters of any kind (blanks, but also
    a minus sign or a parenthesis before the number, which are skipped
    and lost); the value is the longest run of digits after the second
    gap: hexadecimal digits after 0x for the first pattern (a loader
    whose names are intact then stores the value in base 16 under the
    key, in the table and as a constant), the same class of digits after
    0b for the second, decimal digits for the third. *)
Theorem define_line_is_read (gap1 key gap2 value rest : string) :
  Str.is_ascii gap1 = true -> Str.is_ascii gap2 = true ->
  Str.is_ascii rest = true ->
  is_gap gap1 -> some_chars is_word key -> is_gap gap2 ->
  (some_chars is_hexdigit value -> starts_without is_hexdigit rest = true ->
   let line := define_line gap1 key gap2 ("0x" ++ value ++ rest) in
   hex_pattern line = Some (key, value) /\
   forall t, names_intact t = true ->
     exists v,
       Radix.int 16 value = Ret v /\
       load_line t line = (set_constant key v t, None)) /\
  (some_chars is_hexdigit value -> starts_without is_hexdigit rest = true ->
   binary_pattern (define_line gap1 key gap2 ("0b" ++ value ++ rest))
   = Some (key, value)) /\
  (some_chars Num.is_digit value -> starts_without Num.is_digit rest = true ->
   decimal_pattern (define_line gap1 key gap2 (value ++ rest))
   = Some (key, value)).
Proof.
  intros _ _ _ Hg1 Hk Hg2. split; [|split].
  - intros Hv Hrest line.
    assert (Hp : hex_pattern line = Some (key, value)).
    { unfold hex_pattern, line. rewrite define_key_line by done.
      cbn -[String.append literal]. rewrite literal_app.
      cbn -[String.append]. by rewrite some_of_app. }
    split; [done|]. intros t Ht.
    destruct (int16_hex_value value Hv) as [v Hint].
    exists v. split; [done|].
    by rewrite (load_line_intact _ _ Ht), Hp, (call_add_ioctl_intact _ _ _ _ Ht),
      Hint.
  - intros Hv Hrest. unfold binary_pattern.
    rewrite define_key_line by done.
    cbn -[String.append literal]. rewrite literal_app.
    cbn -[String.append]. by rewrite some_of_app.
  - intros Hv Hrest. unfold decimal_pattern.
    rewrite define_key_line; [|done|done|done|].
    + cbn -[String.append]. by rewrite some_of_app.
    + apply (starts_without_app _ Num.is_digit); [done|].
      intros c Hc. apply word_not_nonword. by apply digit_word.
Qed.

Lemma define_line_is_read_witness :
  decimal_pattern (define_line " " "CDS_NO_DISC" " -" ("1" ++ " /* one */"))
  = Some ("CDS_NO_DISC", "1") /\
  (let line := define_line " " "CDROMEJECT" " (" ("0x" ++ "5309" ++ ")") in
   hex_pattern line = Some ("CDROMEJECT", "5309") /\
   forall t, names_intact t = true ->
     exists v,
       Radix.int 16 "5309" = Ret v /\
       load_line t line = (set_constant "CDROMEJECT" v t, None)).
Proof.
  split.
  - apply (define_line_is_read " " "CDS_NO_DISC" " -" "1" " /* one */");
      by split.
  - apply (define_line_is_read " " "CDROMEJECT" " (" "5309" ")");
      by split.
Defined.

(** *** The tables *)

Lemma defined_key_word (line key : string) :
  defined_key line = Some key -> some_chars is_word key.
Proof.
  assert (Hkey : forall rest, define_key line = Some (key, rest) ->
                              some_chars is_word key).
  { intros rest. unfold define_key.
    intros (r0 & _ & H)%bind_Some.
    apply bind_Some in H as ([g1 r1] & _ & H). cbv beta iota in H.
    apply bind_Some in H as ([k r2] & E & H). cbv beta iota in H.
    apply bind_Some in H as ([g2 r3] & _ & H). cbv beta iota in H.
    injection H as <- <-. by apply some_of_some_chars in E. }
  unfold defined_key.
  destruct (hex_pattern line) as [[k v]|] eqn:E1.
  { intros [= ->]. unfold hex_pattern in E1.
    apply bind_Some in E1 as ([k r] & Hd & H). cbv beta iota in H.
    apply bind_Some in H as (r' & _ & H).
    apply bind_Some in H as ([v' r''] & _ & H). cbv beta iota in H.
    injection H as <- <-. by apply (Hkey r). }
  destruct (binary_pattern line) as [[k v]|] eqn:E2.
  { intros [= ->]. unfold binary_pattern in E2.
    apply bind_Some in E2 as ([k r] & Hd & H). cbv beta iota in H.
    apply bind_Some in H as (r' & _ & H).
    apply bind_Some in H as ([v' r''] & _ & H). cbv beta iota in H.
    injection H as <- <-. by apply (Hkey r). }
  destruct (decimal_pattern line) as [[k v]|] eqn:E3; [|done].
  intros [= ->]. unfold decimal_pattern in E3.
  apply bind_Some in E3 as ([k r] & Hd & H). cbv beta iota in H.
  apply bind_Some in H as ([v' r''] & _ & H). cbv beta iota in H.
  injection H as <- <-. by apply (Hkey r).
Qed.

Lemma set_constant_agree (old : gmap string Z) (t : Tables) (key : string)
    (v : Z) :
  some_chars is_word key -> tables_agree old t ->
  tables_agree old (set_constant key v t).
Proof.
  intros Hkey [Hg Hw]. split; intros key'; simpl.
  - destruct (decide (key = key')) as [->|Hne].
    + by rewrite !lookup_insert_eq.
    + rewrite !lookup_insert_ne by done. apply Hg.
  - destruct (decide (key = key')) as [->|Hne]; [done|].
    rewrite lookup_insert_ne by done. apply Hw.
Qed.

Lemma set_constant_intact (t : Tables) (key : string) (v : Z) :
  key ∉ loader_names -> names_intact t = true ->
  names_intact (set_constant key v t) = true.
Proof.
  unfold names_intact. rewrite !forallb_forall. intros Hk H name Hin.
  specialize (H name Hin). unfold rebound in *. simpl.
  rewrite lookup_insert_ne; [done|].
  intros ->. by apply Hk, list_elem_of_In.
Qed.

(** A turn of the loop on a line that defines no name of the loader:
    the line sets the constant of the key it defines, or it leaves the
    tables alone (no pattern matches, or the number does not read). *)
Lemma load_line_step (t : Tables) (line : string) :
  names_intact t = true -> keeps_loader line = true ->
  (load_line t line).1 = t \/
  exists key v,
    defined_key line = Some key /\ (key ∉ loader_names) /\
    load_line t line = (set_constant key v t, None).
Proof.
  intros Ht Hk. rewrite (load_line_intact _ _ Ht).
  unfold keeps_loader, defined_key in *.
  destruct (hex_pattern line) as [[key value]|].
  { rewrite (call_add_ioctl_intact _ _ _ _ Ht).
    destruct (Radix.int 16 value) as [v|]; [|by left].
    right. exists key, v. apply negb_true_iff, bool_decide_eq_false in Hk.
    done. }
  destruct (binary_pattern line) as [[key value]|].
  { rewrite (call_add_ioctl_intact _ _ _ _ Ht).
    destruct (Radix.int 2 value) as [v|]; [|by left].
    right. exists key, v. apply negb_true_iff, bool_decide_eq_false in Hk.
    done. }
  destruct (decimal_pattern line) as [[key value]|]; [|by left].
  rewrite (call_add_ioctl_intact _ _ _ _ Ht).
  destruct (Num.int value) as [v|]; [|by left].
  right. exists key, v. apply negb_true_iff, bool_decide_eq_false in Hk.
  done.
Qed.

Lemma load_lines_agree (old : gmap string Z) (lines : list string)
    (t : Tables) :
  forallb keeps_loader lines = true ->
  names_intact t = true -> tables_agree old t ->
  names_intact (load_lines lines t).1 = true /\
  tables_agree old (load_lines lines t).1.
Proof.
  revert t. induction lines as [|line lines IH]; intros t Hk Hi Ht; [done|].
  simpl in Hk. apply andb_prop in Hk as [Hk1 Hk]. simpl.
  destruct (load_line_step t line Hi Hk1) as [E | (key & v & Hd & Hn & E)].
  - destruct (load_line t line) as [t1 [e|]]; simpl in E; subst t1;
      [done | by apply IH].
  - rewrite E. apply IH; [done | by apply set_constant_intact |].
    apply set_constant_agree; [|done]. by apply (defined_key_word line).
Qed.

(** X30.  After the loop of [load_ioctl], whether it ends or raises on
    the way, over ASCII lines that define none of the names the loader
    itself looks up (the three patterns, [add_ioctl], [int],
    [ioctl_values], [globals]): the table [ioctl_values] holds only what
    the lines read so far have defined (what it held before is dropped),
    each key being a word of one or more word characters; the constant
    of every key of the table has the value of the table, and every
    other constant of the module keeps the value it had, so that the
    built-in value stays for a constant the file does not define; the
    names of the loader are still intact. *)
Theorem loaded_value_or_fallback (lines : list string) (t : Tables) :
  forallb Str.is_ascii lines = true ->
  names_intact t = true ->
  forallb keeps_loader lines = true ->
  let loaded := (load_loop lines t).1 in
  (forall key,
     globals loaded !! key
     = match ioctl_values loaded !! key with
       | Some v => Some v
       | None => globals t !! key
       end) /\
  (forall key, is_Some (ioctl_values loaded !! key) ->
               some_chars is_word key) /\
  (forall key, ioctl_values (load_loop [] t).1 !! key = None) /\
  names_intact loaded = true.
Proof.
  intros _ Hi Hk loaded.
  assert (Hd : delete "ioctl_values" (globals t) = globals t).
  { apply delete_id. pose proof (intact_name t "ioctl_values" Hi) as H.
    unfold rebound in H. apply bool_decide_eq_false in H; [|loader_name].
    by apply eq_None_not_Some. }
  subst loaded. unfold load_loop. rewrite Hd.
  destruct (load_lines_agree (globals t) lines (mkTables ∅ (globals t)))
    as [Hn [Hg Hw]]; [done | done | |].
  { split; intros key; simpl; [done|]. by intros ?%is_Some_None. }
  split; [exact Hg|]. split; [exact Hw|]. split; [done|exact Hn].
Qed.

Lemma loaded_value_or_fallback_witness :
  let loaded := (load_loop sample_header initial_tables).1 in
  (forall key,
     globals loaded !! key
     = match ioctl_values loaded !! key with
       | Some v => Some v
       | None => globals initial_tables !! key
       end) /\
  (forall key, is_Some (ioctl_values loaded !! key) ->
               some_chars is_word key) /\
  (forall key,
     ioctl_values (load_loop [] initial_tables).1 !! key = None) /\
  names_intact loaded = true.
Proof.
  apply (loaded_value_or_fallback sample_header initial_tables);
    reflexivity.
Defined.

(** The header of the sample: the eject request is now 0x5309 = 21257 by
    the file, the status of a ready disc is 4, and the request to close
    the tray, which the file does not define, keeps its built-in value
    and is no key of the table. *)
Example load_sample_header :
  let loaded := (load_loop sample_header initial_tables).1 in
  (load_loop sample_header initial_tables).2 = None /\
  ioctl_values loaded !! "CDROMEJECT" = Some 21257 /\
  ioctl_values loaded !! "CDS_DISC_OK" = Some 4 /\
  ioctl_values loaded !! "CDROMCLOSETRAY" = None /\
  globals loaded !! "CDROMCLOSETRAY" = Some Cdrom.CDROMCLOSETRAY.
Proof. by vm_compute. Qed.

(** A header that defines the name [globals]: the line after it enters
    the table, and the TypeError of the call of [globals] leaves the loop
    before its constant is set; the last line is not read. *)
Example load_rebinding_header :
  let loaded := (load_loop rebinding_header initial_tables).1 in
  (load_loop rebinding_header initial_tables).2 = Some TypeError /\
  ioctl_values loaded !! "globals" = Some 5 /\
  globals loaded !! "globals" = Some 5 /\
  ioctl_values loaded !! "B" = Some 2 /\
  globals loaded !! "B" = None /\
  ioctl_values loaded !! "C" = None.
Proof. by vm_compute. Qed.

End CdromFacts.
